(** * daily-digest: the scraping and trending core, embedded in Rocq

    The development follows the Python sources of the repository:

    - [src/scraper/base_scraper.py]     : [Fetcher], [LinkDiscovery],
                                          [Extractor]
    - [src/scraper/content_extractor.py]: [Validator], [Deduplicator],
                                          [KeywordScorer]
    - [src/processor/trending_analyzer.py]: [TrendEngine]

    Python [str] values are modelled as ASCII strings, Python [float]
    values as exact rationals ([Q]), Python [int] values that are counts
    as [nat].  Library functions that are not part of the repository
    (the HTTP session, the selection calls of BeautifulSoup, [urljoin],
    [urlparse], the TF-IDF vectoriser, [datetime.fromisoformat],
    [datetime.strptime]) are section variables. *)

From Stdlib Require Import Ascii String QArith Qround Qabs Qminmax Lqa.
From Stdlib Require OrderedTypeEx.
From stdpp Require Import gmap strings list sorting.

Local Open Scope nat_scope.

(** * Python strings

    The [str] methods and the regular expressions the sources use, on
    ASCII strings. *)

Module PyStr.

Definition code (c : ascii) : nat := nat_of_ascii c.

(** [str.isspace] / the regex class [\s]: TAB, LF, VT, FF, CR, the four
    separators FS, GS, RS, US and the space. *)
Definition is_space (c : ascii) : bool :=
  let n := code c in ((9 <=? n) && (n <=? 13)) || ((28 <=? n) && (n <=? 32)).

Definition is_upper (c : ascii) : bool :=
  let n := code c in (65 <=? n) && (n <=? 90).

Definition is_lower (c : ascii) : bool :=
  let n := code c in (97 <=? n) && (n <=? 122).

(** [a-zA-Z], which is also [str.isalpha] on one ASCII character. *)
Definition is_alpha (c : ascii) : bool := is_upper c || is_lower c.

Definition is_digit (c : ascii) : bool :=
  let n := code c in (48 <=? n) && (n <=? 57).

(** The regex class [\w] on ASCII: letters, digits and the underscore. *)
Definition is_word (c : ascii) : bool :=
  is_alpha c || is_digit c || (code c =? 95).

Definition lower_char (c : ascii) : ascii :=
  if is_upper c then ascii_of_nat (code c + 32) else c.

(** [str.lower] *)
Fixpoint lower (s : string) : string :=
  match s with
  | EmptyString => EmptyString
  | String c s' => String (lower_char c) (lower s')
  end.

(** [len(s)] *)
Definition len (s : string) : nat := String.length s.

Fixpoint all_chars (p : ascii → bool) (s : string) : bool :=
  match s with
  | EmptyString => true
  | String c s' => p c && all_chars p s'
  end.

Definition is_empty (s : string) : bool :=
  match s with EmptyString => true | _ => false end.

(** [str.isalpha] and [str.isdigit]: non-empty and every character in
    the class. *)
Definition isalpha (s : string) : bool := negb (is_empty s) && all_chars is_alpha s.
Definition isdigit (s : string) : bool := negb (is_empty s) && all_chars is_digit s.

(** [s.startswith(p)] *)
Fixpoint startswith (p s : string) : bool :=
  match p, s with
  | EmptyString, _ => true
  | String a p', String b s' => if Ascii.eqb a b then startswith p' s' else false
  | String _ _, EmptyString => false
  end.

(** [p in s] *)
Fixpoint contains (p s : string) : bool :=
  startswith p s ||
  match s with
  | EmptyString => false
  | String _ s' => contains p s'
  end.

(** [p] occurs in [s]. *)
Definition substring (p s : string) : Prop := ∃ pre post, s = pre +:+ p +:+ post.

Fixpoint rev_append (acc s : string) : string :=
  match acc with
  | EmptyString => s
  | String c acc' => rev_append acc' (String c s)
  end.

(** The maximal runs of characters of the class [p]; [acc] holds the
    characters of the run being read, last one first. *)
Fixpoint runs_from (p : ascii → bool) (acc : string) (s : string) : list string :=
  match s with
  | EmptyString => if is_empty acc then [] else [rev_append acc ""]
  | String c s' =>
      if p c then runs_from p (String c acc) s'
      else if is_empty acc then runs_from p "" s'
      else rev_append acc "" :: runs_from p "" s'
  end.

Definition runs (p : ascii → bool) (s : string) : list string := runs_from p "" s.

(** [s.split()]: the maximal runs of non-whitespace characters. *)
Definition split (s : string) : list string := runs (λ c, negb (is_space c)) s.

(** [re.sub(r'[class]+', ' ', s)]: every maximal run of the class becomes
    one space.  [inside] tells whether the previous character was in the
    class. *)
Fixpoint collapse_from (p : ascii → bool) (inside : bool) (s : string) : string :=
  match s with
  | EmptyString => EmptyString
  | String c s' =>
      if p c
      then (if inside then collapse_from p true s'
            else String " " (collapse_from p true s'))
      else String c (collapse_from p false s')
  end.

Definition collapse (p : ascii → bool) (s : string) : string := collapse_from p false s.

Fixpoint lstrip (s : string) : string :=
  match s with
  | EmptyString => EmptyString
  | String c s' => if is_space c then lstrip s' else s
  end.

Definition reverse (s : string) : string := rev_append s "".

(** [s.strip()] *)
Definition strip (s : string) : string := reverse (lstrip (reverse (lstrip s))).

(** [s[:n]] for [n >= 0] *)
Fixpoint prefix (n : nat) (s : string) : string :=
  match n, s with
  | S n', String c s' => String c (prefix n' s')
  | _, _ => EmptyString
  end.

(** [s.replace(c, '')] for a one-character [c] *)
Fixpoint remove_char (c : ascii) (s : string) : string :=
  match s with
  | EmptyString => EmptyString
  | String d s' => if Ascii.eqb c d then remove_char c s' else String d (remove_char c s')
  end.

(** The part of [s] after the prefix [p], when [s] starts with [p]. *)
Fixpoint after (p s : string) : option string :=
  match p, s with
  | EmptyString, _ => Some s
  | String a p', String b s' => if Ascii.eqb a b then after p' s' else None
  | String _ _, EmptyString => None
  end.

(** [s] starts with [p] followed by at least one character of the class
    [q]: the regex [p q+] matches at the start of [s]. *)
Definition starts_then (p : string) (q : ascii → bool) (s : string) : bool :=
  match after p s with
  | Some (String c _) => q c
  | _ => false
  end.

Definition not_space (c : ascii) : bool := negb (is_space c).

(** [sep.join(l)] *)
Fixpoint join (sep : string) (l : list string) : string :=
  match l with
  | [] => ""
  | [x] => x
  | x :: l' => x +:+ sep +:+ join sep l'
  end.

(** The number of matches of a regex [[class]+]: the maximal runs of
    characters of the class.  [inside] tells whether the previous
    character was in the class. *)
Fixpoint count_runs_from (p : ascii → bool) (inside : bool) (s : string) : nat :=
  match s with
  | EmptyString => 0
  | String c s' =>
      if p c
      then (if inside then 0 else 1) + count_runs_from p true s'
      else count_runs_from p false s'
  end.

Definition count_runs (p : ascii → bool) (s : string) : nat :=
  count_runs_from p false s.

Fixpoint count_chars (p : ascii → bool) (s : string) : nat :=
  match s with
  | EmptyString => 0
  | String c s' => (if p c then 1 else 0) + count_chars p s'
  end.

End PyStr.

(** * Validator: [ContentExtractor.is_quality_content] *)

Module Validator.
Import PyStr.

Definition spam_indicators : list string :=
  [ "click here"; "buy now"; "limited time"; "act now";
    "free trial"; "sign up now"; "subscribe"; "download now" ].

(** The class [[.!?]]. *)
Definition is_terminator (c : ascii) : bool :=
  Ascii.eqb c "." || Ascii.eqb c "!" || Ascii.eqb c "?".

(** [sum(1 for indicator in spam_indicators if indicator in content_lower)] *)
Definition spam_count (content : string) : nat :=
  length (filter (λ indicator, Is_true (contains indicator (lower content)))
                 spam_indicators).

(** [len(re.findall(r'[.!?]+', content))] *)
Definition sentence_count (content : string) : nat :=
  count_runs is_terminator content.

Definition is_quality_content (title content : string) (min_length : Z) : bool :=
  if is_empty title || is_empty content then false
  else if (Z.of_nat (len content) <? min_length)%Z then false
  else
    let title_words := length (split title) in
    if (title_words <? 3) || (20 <? title_words) then false
    else if 2 <? spam_count content then false
    else if sentence_count content <? 3 then false
    else true.

(** The number of sentence-terminating punctuation marks of the body,
    each mark counted, as the specification words the last check. *)
Definition terminator_marks (content : string) : nat :=
  count_chars is_terminator content.

End Validator.

(** * Deduplicator: [ContentExtractor.detect_duplicates] *)

Module Deduplicator.

(** [similarity_matrix[i][j]] *)
Definition matrix : Type := nat → nat → Q.

Section DetectDuplicates.
Variable duplicate_threshold : Q.
(** [cosine_similarity(self.vectorizer.fit_transform(articles))]:
    [None] when the vectoriser raises (an empty vocabulary, say). *)
Variable similarity : list string → option matrix.

(** One pass of [for j in range(i + 1, len(articles))] on the pair
    (duplicate_group, processed). *)
Definition inner_step (sim : matrix) (i : nat)
    (st : gset nat * gset nat) (j : nat) : gset nat * gset nat :=
  if decide (j ∈ st.2) then st                       (* continue *)
  else if Qle_bool duplicate_threshold (sim i j)
       then ({[j]} ∪ st.1, {[j]} ∪ st.2)
       else st.

Definition inner_loop (sim : matrix) (n i : nat) (processed : gset nat)
  : gset nat * gset nat :=
  foldl (inner_step sim i) ({[i]}, processed) (seq (S i) (n - S i)).

(** One pass of [for i in range(len(articles))] on the pair
    (duplicates, processed). *)
Definition outer_step (sim : matrix) (n : nat)
    (st : list (gset nat) * gset nat) (i : nat) : list (gset nat) * gset nat :=
  if decide (i ∈ st.2) then st                       (* continue *)
  else
    let '(duplicate_group, processed) := inner_loop sim n i st.2 in
    if 1 <? size duplicate_group
    then (st.1 ++ [duplicate_group], processed ∪ duplicate_group)
    else (st.1, processed).

Definition outer_loop (sim : matrix) (n : nat)
    (st : list (gset nat) * gset nat) (l : list nat) : list (gset nat) * gset nat :=
  foldl (outer_step sim n) st l.

Definition detect_duplicates (articles : list string) : list (gset nat) :=
  if length articles <? 2 then []
  else
    match similarity articles with
    | Some sim => (outer_loop sim (length articles) ([], ∅) (seq 0 (length articles))).1
    | None => []                                     (* except Exception *)
    end.

End DetectDuplicates.

(** [similarity_matrix[i][j] >= self.duplicate_threshold] *)
Definition similar (threshold : Q) (sim : matrix) (i j : nat) : Prop :=
  (threshold <= sim i j)%Q.

#[global] Instance similar_dec threshold sim i j : Decision (similar threshold sim i j).
Proof.
  unfold similar.
  destruct (Qlt_le_dec (sim i j) threshold) as [Hlt|Hle].
  - right. by apply Qlt_not_le.
  - by left.
Defined.

(** Pairwise disjoint clusters. *)
Definition pairwise_disjoint (l : list (gset nat)) : Prop :=
  ∀ a b c d, l !! a = Some c → l !! b = Some d → a ≠ b → c ## d.

(** A cluster started before the outer loop reached index [k]: its seed
    is its smallest index and every other member passed the threshold
    test against the seed. *)
Definition seeded (threshold : Q) (sim : matrix) (k : nat) (c : gset nat) : Prop :=
  ∃ s, s ∈ c ∧ s < k ∧ ∀ x, x ∈ c → x = s ∨ (s < x ∧ similar threshold sim s x).

(** The invariant of the outer loop before index [k] is visited. *)
Record loop_inv (threshold : Q) (sim : matrix) (n k : nat)
    (st : list (gset nat) * gset nat) : Prop := {
  inv_processed : ∀ x, x ∈ st.2 ↔ ∃ c, c ∈ st.1 ∧ x ∈ c;
  inv_disjoint : pairwise_disjoint st.1;
  inv_cluster : ∀ c, c ∈ st.1 →
    2 ≤ size c ∧ (∀ x, x ∈ c → x < n) ∧ seeded threshold sim k c
}.

(** The similarity matrix of documents whose (already normalised)
    vectors are the rows of [vectors]: the dot products of the rows. *)
Definition dot (u v : list Q) : Q :=
  foldr Qplus 0%Q (zip_with Qmult u v).

Definition cosine_of_rows (vectors : list (list Q)) : matrix :=
  λ i j, dot (vectors !!! i) (vectors !!! j).

End Deduplicator.

(** * Python floats, as exact rationals *)

Module PyFloat.

(** [x < y] *)
Definition ltb (x y : Q) : bool := negb (Qle_bool y x).

#[global] Instance Qle_decision (x y : Q) : Decision (x <= y)%Q.
Proof.
  destruct (Qlt_le_dec y x) as [Hlt|Hle].
  - right. by apply Qlt_not_le.
  - by left.
Defined.

#[global] Instance Qlt_decision (x y : Q) : Decision (x < y)%Q.
Proof.
  destruct (Qlt_le_dec x y) as [Hlt|Hle].
  - by left.
  - right. by apply Qle_not_lt.
Defined.

End PyFloat.

(** * Python lists: stable sort in descending order *)

Module PyList.

Section Sort.
Context {A : Type}.
(** [lt x y]: the key of [x] is smaller than the key of [y]. *)
Variable lt : A → A → bool.

(** [x] goes before the first element whose key is not larger than its
    own, hence before the elements of equal key that followed it in the
    original list. *)
Fixpoint insert_desc (x : A) (l : list A) : list A :=
  match l with
  | [] => [x]
  | y :: l' => if lt x y then y :: insert_desc x l' else x :: l
  end.

(** [l.sort(key=..., reverse=True)] / [sorted(l, key=..., reverse=True)]:
    descending by key, elements of equal key in their original order. *)
Definition sort_desc (l : list A) : list A := foldr insert_desc [] l.

End Sort.

End PyList.

(** * KeywordScorer: [ContentExtractor.extract_keywords] *)

Module KeywordScorer.
Import PyStr PyList PyFloat.

(** After a ["<"]: the regex [[^>]+>] matches here, that is, the next
    character is not [">"] and a [">"] follows later. *)
Definition tag_closes (s : string) : bool :=
  match s with
  | String c s' => negb (Ascii.eqb c ">") && contains ">" s'
  | EmptyString => false
  end.

(** [re.sub(r'<[^>]+>', '', text)]; [skipping] is set inside a tag. *)
Fixpoint strip_tags_from (skipping : bool) (s : string) : string :=
  match s with
  | EmptyString => EmptyString
  | String c s' =>
      if skipping
      then strip_tags_from (negb (Ascii.eqb c ">")) s'
      else if Ascii.eqb c "<" && tag_closes s'
           then strip_tags_from true s'
           else String c (strip_tags_from false s')
  end.

(** The regex [http\S+|www\S+|https\S+] matches at the start of [s]
    (the third alternative never applies: the first one covers it). *)
Definition url_starts (s : string) : bool :=
  starts_then "http" not_space s || starts_then "www" not_space s.

(** [re.sub(r'http\S+|www\S+|https\S+', '', text)]; [skipping] is set
    inside a match, which runs to the next whitespace. *)
Fixpoint strip_urls_from (skipping : bool) (s : string) : string :=
  match s with
  | EmptyString => EmptyString
  | String c s' =>
      if skipping && not_space c then strip_urls_from true s'
      else if url_starts s then strip_urls_from true s'
      else String c (strip_urls_from false s')
  end.

Definition is_newline (c : ascii) : bool := code c =? 10.

Definition clean_text (text : string) : string :=
  let text := strip_tags_from false text in
  let text := strip_urls_from false text in
  let text := collapse is_newline text in
  let text := collapse is_space text in
  strip text.

Definition stop_words : list string :=
  [ "this"; "that"; "with"; "have"; "will"; "from"; "they"; "been";
    "were"; "said"; "each"; "which"; "their"; "time"; "would"; "there";
    "could"; "other"; "more"; "very"; "what"; "know"; "just"; "first";
    "get"; "over"; "think"; "also"; "back"; "after"; "use"; "two";
    "how"; "our"; "work"; "life"; "only"; "can"; "still"; "should";
    "must"; "want"; "need"; "make"; "take"; "come"; "year"; "years" ].

(** A match of [\b[a-zA-Z]{4,}\b]: a maximal run of word characters
    made of letters only, at least four of them. *)
Definition is_alpha_token (w : string) : bool :=
  all_chars is_alpha w && (4 <=? len w).

(** [re.findall(r'\b[a-zA-Z]{4,}\b', text)] *)
Definition alpha_tokens (text : string) : list string :=
  filter (λ w, Is_true (is_alpha_token w)) (runs is_word text).

(** [word_freq[word] = word_freq.get(word, 0) + 1] on a dict, which keeps
    its keys in the order of their first insertion. *)
Fixpoint bump (word : string) (word_freq : list (string * nat)) : list (string * nat) :=
  match word_freq with
  | [] => [(word, 1)]
  | (w, c) :: rest =>
      if String.eqb w word then (w, S c) :: rest else (w, c) :: bump word rest
  end.

Definition count_words (words : list string) : list (string * nat) :=
  foldl (λ word_freq word, bump word word_freq) [] words.

(** The count recorded for [word] in the table, 0 when it has none. *)
Fixpoint count_of (word : string) (word_freq : list (string * nat)) : nat :=
  match word_freq with
  | [] => 0
  | (w, c) :: rest => if String.eqb w word then c else count_of word rest
  end.

(** The table has one entry per word, each with a positive count. *)
Definition table_ok (word_freq : list (string * nat)) : Prop :=
  NoDup word_freq.*1 ∧ ∀ w c, (w, c) ∈ word_freq → 0 < c.

(** The number of occurrences of [word] in [words]. *)
Definition occurrences (word : string) (words : list string) : nat :=
  length (filter (λ w, w = word) words).

(** The words kept for counting and the table sorted by count. *)
Definition filtered_words (text : string) : list string :=
  filter (λ word, word ∉ stop_words) (alpha_tokens (lower text)).

Definition sorted_words (text : string) : list (string * nat) :=
  sort_desc (λ x y, x.2 <? y.2) (count_words (filtered_words text)).

Definition _extract_keywords_fallback (text : string) (max_keywords : nat) : string :=
  join ", " ((take max_keywords (sorted_words text)).*1).

(** The calls [extract_keywords] makes besides cleaning and splitting. *)
Inductive call : Type :=
| FitTransform      (* self.vectorizer.fit_transform([text]) *)
| Fallback.         (* self._extract_keywords_fallback(text, max_keywords) *)

Section ExtractKeywords.
(** [fit_transform([text])] with [get_feature_names_out()]: the features
    of the single document with their weights, or [None] when the
    vectoriser raises. *)
Variable tfidf : string → option (list (string * Q)).

(** The result with the calls made. *)
Definition extract_keywords (text : string) (max_keywords : nat)
  : list call * string :=
  let text := clean_text text in
  let words := split text in
  if length words <? 10 then ([], "")
  else
    match tfidf text with
    | Some keyword_scores =>
        let keyword_scores := sort_desc (λ x y, ltb x.2 y.2) keyword_scores in
        let keywords :=
          (filter (λ kw, (0 < kw.2)%Q) (take max_keywords keyword_scores)).*1 in
        ([FitTransform], join ", " keywords)
    | None =>
        ([FitTransform; Fallback], _extract_keywords_fallback text max_keywords)
    end.

End ExtractKeywords.

(** The order of the keywords: heavier features first. *)
Definition by_weight (a b : string * Q) : Prop := (b.2 <= a.2)%Q.

End KeywordScorer.

(** * Fetcher: [BaseScraper.fetch_page] *)

Module Fetcher.

(** Everything [fetch_page] does to the outside world, in order. *)
Inductive event : Type :=
| Request (attempt : nat)      (* self.session.get(url, ...) *)
| LogWarning (attempt : nat)   (* "Attempt {attempt + 1} failed ..." *)
| Sleep (seconds : nat)        (* time.sleep(2 ** attempt) *)
| LogError.                    (* "Failed to fetch ... after n attempts" *)

Definition is_request (e : event) : bool :=
  match e with Request _ => true | _ => false end.

Definition slept (e : event) : nat :=
  match e with Sleep s => s | _ => 0 end.

Definition requests (tr : list event) : nat := length (filter is_request tr).

Definition total_sleep (tr : list event) : nat := sum_list_with slept tr.

Section FetchPage.
(** The parsed document type (BeautifulSoup). *)
Context {soup : Type}.
(** [get url k] is the outcome of the [k]-th call
    [session.get(url); raise_for_status(); BeautifulSoup(...)]:
    [Some doc] when all three succeed, [None] when one raises. *)
Variable get : string → nat → option soup.
Variable retry_attempts : nat.

(** The body of [for attempt in range(self.retry_attempts)], run for
    the [k] attempts that remain, starting at index [attempt]. *)
Fixpoint attempts_from (url : string) (k attempt : nat) (tr : list event)
  : list event * option soup :=
  match k with
  | 0 => (tr, None)                               (* return None *)
  | S k' =>
      match get url attempt with
      | Some doc => (tr ++ [Request attempt], Some doc)
      | None =>
          let tr1 := tr ++ [Request attempt; LogWarning (attempt + 1)] in
          let tr2 :=
            if attempt <? retry_attempts - 1
            then tr1 ++ [Sleep (2 ^ attempt)]
            else tr1 ++ [LogError] in
          attempts_from url k' (S attempt) tr2
      end
  end.

Definition fetch_page (url : string) : list event * option soup :=
  attempts_from url retry_attempts 0 [].

(** What one failed attempt leaves in the trace. *)
Definition failed_attempt (attempt : nat) : list event :=
  Request attempt :: LogWarning (attempt + 1) ::
  (if attempt <? retry_attempts - 1 then [Sleep (2 ^ attempt)] else [LogError]).

End FetchPage.

End Fetcher.

(** * Link discovery: [BaseScraper.extract_article_links] *)

Module LinkDiscovery.
Import PyStr.

Definition allowed_domains : list string :=
  [ "www.bbc.com"; "www.theguardian.com"; "www.npr.org"; "apnews.com";
    "www.sciencedaily.com"; "www.livescience.com";
    "techcrunch.com"; "arstechnica.com"; "www.engadget.com" ].

(** The patterns hold no regex operator: each one matches as a literal. *)
Definition invalid_patterns : list string :=
  [ "/video/"; "/gallery/"; "/live/"; "/sport/"; "/podcast/";
    "#"; "javascript:"; "mailto:"; "tel:"; "/tag/"; "/author/";
    "/category/"; "/search/"; "/subscribe"; "/newsletter" ].

(** [re.search(pattern, url, re.IGNORECASE)] for a lower-case literal. *)
Definition search_ignorecase (pattern url : string) : bool :=
  contains pattern (lower url).

Section ExtractArticleLinks.
(** [urljoin(base, href)], [None] when it raises [ValueError]. *)
Variable urljoin : string → string → option string.
(** [urlparse(url)] as the pair (scheme, netloc), [None] when it raises. *)
Variable urlparse : string → option (string * string).
Variable base_url : string.
Variable max_articles : nat.

Definition _is_valid_article_url (url : string) : bool :=
  match urlparse url with
  | None => false                                         (* except Exception *)
  | Some (scheme, netloc) =>
      if is_empty scheme || is_empty netloc then false
      else
        match urlparse base_url with
        | None => false                                   (* except Exception *)
        | Some (_, base_netloc) =>
            let base_domain := lower base_netloc in
            let url_domain := lower netloc in
            if bool_decide (base_domain ∈ allowed_domains)
               && negb (String.eqb url_domain base_domain)
            then false
            else negb (existsb (λ pattern, search_ignorecase pattern url) invalid_patterns)
        end
  end.

(** The body of [for element in elements[:self.max_articles]], with the
    links gathered so far.  An exception leaves the loop: the handler only
    logs, and the function goes on to return what was gathered. *)
Fixpoint gather (elements : list (option string)) (links : list string) : list string :=
  match elements with
  | [] => links
  | None :: rest => gather rest links                     (* no href attribute *)
  | Some href :: rest =>
      if is_empty href then gather rest links
      else
        match urljoin base_url href with
        | None => links
        | Some full_url =>
            if _is_valid_article_url full_url
            then gather rest (links ++ [full_url])
            else gather rest links
        end
  end.

(** [selected] is [soup.select(link_selector)] as the [href] attribute of
    each matched element ([None] when the element has none), or [None]
    when the selector is refused.  [list(set(links))] lists each distinct
    link once, in an order the implementation chooses. *)
Definition extract_article_links (selected : option (list (option string))) : list string :=
  let links :=
    match selected with
    | Some elements => gather (take max_articles elements) []
    | None => []
    end in
  elements (list_to_set links : gset string).

(** The elements the loop handles: the [try] wraps the whole loop, so the
    first element whose non-empty href makes [urljoin] raise ends it, and
    neither that element nor a later one yields a link. *)
Fixpoint reached (elements : list (option string)) : list (option string) :=
  match elements with
  | [] => []
  | None :: rest => None :: reached rest
  | Some href :: rest =>
      if is_empty href then Some href :: reached rest
      else
        match urljoin base_url href with
        | None => []
        | Some _ => Some href :: reached rest
        end
  end.

(** The elements examined in a call: those reached among the first
    [max_articles] matches, none when the selector is refused. *)
Definition examined (selected : option (list (option string))) : list (option string) :=
  match selected with
  | Some elements => reached (take max_articles elements)
  | None => []
  end.

(** A link comes from the href of one of the elements: the href is not
    empty, resolves to the link, and the link passes the validity rule. *)
Definition discovered (elements : list (option string)) (url : string) : Prop :=
  ∃ href, Some href ∈ elements ∧ href ≠ "" ∧
          urljoin base_url href = Some url ∧ _is_valid_article_url url = true.

(** Link discovery as the specification words it: collect the hrefs of
    all matched elements, resolve them, deduplicate, filter through the
    validity rule, cap at [max_articles]. *)
Definition discovery_as_specified (hrefs : list (option string)) : list string :=
  let collected := omap id hrefs in
  let resolved := omap (urljoin base_url) collected in
  let distinct := remove_dups resolved in
  take max_articles (filter (λ url, Is_true (_is_valid_article_url url)) distinct).

End ExtractArticleLinks.

(** Instances of the two library functions for the examples.

    [urlparse_simple]: the scheme is the text before the first [":"] when
    it starts with a letter and holds only letters, digits, [+], [-] and
    [.]; the netloc is what follows ["//"] up to the next [/], [?] or [#].
    (No bracketed hosts, no control characters: the instance never
    raises.) *)
Definition is_scheme_char (c : ascii) : bool :=
  is_alpha c || is_digit c || Ascii.eqb c "+" || Ascii.eqb c "-" || Ascii.eqb c ".".

(** The text before the first character of the class [p] and the text
    from that character on. *)
Fixpoint break_at (p : ascii → bool) (s : string) : string * string :=
  match s with
  | EmptyString => (EmptyString, EmptyString)
  | String c s' =>
      if p c then (EmptyString, s)
      else let '(before, rest) := break_at p s' in (String c before, rest)
  end.

Definition split_scheme (url : string) : string * string :=
  match break_at (λ c, Ascii.eqb c ":") url with
  | (String c scheme', String _ rest) =>
      if is_alpha c && all_chars is_scheme_char scheme'
      then (lower (String c scheme'), rest)
      else (EmptyString, url)
  | _ => (EmptyString, url)
  end.

Definition urlparse_simple (url : string) : option (string * string) :=
  let '(scheme, rest) := split_scheme url in
  match after "//" rest with
  | Some rest' =>
      Some (scheme,
            (break_at (λ c, Ascii.eqb c "/" || Ascii.eqb c "?" || Ascii.eqb c "#") rest').1)
  | None => Some (scheme, EmptyString)
  end.

(** [urljoin] on an href that is itself a full [http(s)://host/path] URL
    returns the href; the instance is for such hrefs only. *)
Definition urljoin_absolute (base href : string) : option string := Some href.

End LinkDiscovery.

(** * TrendEngine: [TrendingAnalyzer] *)

Module TrendEngine.
Import PyStr PyList PyFloat.

(** A row of [_get_recent_articles]. *)
Record article : Type := {
  id : nat;
  title : string;
  content : string;
  source : string;
  scraped_date : string;
  sentiment_score : Q;
  sentiment_label : string
}.

(** The summary of an article kept with each keyword. *)
Record article_ref : Type := {
  ref_id : nat;
  ref_title : string;
  ref_source : string;
  ref_sentiment : string;
  ref_scraped_date : string
}.

(** The value of [keyword_data[keyword]]. *)
Record keyword_entry : Type := {
  count : nat;
  articles : list article_ref;
  sentiments : list Q;
  timestamps : list string
}.

Record TrendingTopic : Type := {
  keyword : string;
  frequency : nat;
  articles_count : nat;
  avg_sentiment : Q;
  recent_articles : list article_ref;
  trend_score : Q
}.

(** What the storage read does: the rows, or an exception. *)
Inductive outcome (A : Type) : Type :=
| Returns (a : A)
| Raises (message : string).
Arguments Returns {A} a.
Arguments Raises {A} message.

(** The two records the function logs. *)
Inductive log_record : Type :=
| NotEnoughArticles (found : nat)
    (* warning: "Not enough recent articles ({found}) to detect trends" *)
| ErrorGettingTopics (cause : string).
    (* error: "Error getting trending topics: {cause}" *)

(** ** Numbers *)

Definition of_nat (n : nat) : Q := inject_Z (Z.of_nat n).

(** [sum(l)] *)
Definition sum (l : list Q) : Q := foldl Qplus 0%Q l.

(** The mean of a list of numbers: their total over their number. *)
Definition total (l : list Q) : Q := foldr Qplus 0%Q l.

Definition mean (l : list Q) : Q := (total l / of_nat (length l))%Q.

(** [(now - timestamp).total_seconds() / 3600] *)
Definition hours_since (now timestamp : Q) : Q := ((now - timestamp) / 3600)%Q.

(** [round(x)] to the nearest integer, ties to the even one. *)
Definition round_half_even (x : Q) : Z :=
  let f := Qfloor x in
  let r := (x - inject_Z f)%Q in
  if ltb r (1 # 2) then f
  else if ltb (1 # 2) r then (f + 1)%Z
  else if Z.even f then f else (f + 1)%Z.

(** [round(x, 3)] *)
Definition round3 (x : Q) : Q := (inject_Z (round_half_even (x * 1000)) / 1000)%Q.

(** ** Keyword extraction *)

(** [http[s]?://\S+|www\.\S+] matches at the start of [s]. *)
Definition url_starts (s : string) : bool :=
  starts_then "http://" not_space s || starts_then "https://" not_space s
  || starts_then "www." not_space s.

(** Some character of [s] before its first whitespace is an ["@"]
    followed by a non-whitespace character. *)
Fixpoint at_inside (s : string) : bool :=
  match s with
  | EmptyString => false
  | String c s' =>
      if is_space c then false
      else (Ascii.eqb c "@" && starts_then "" not_space s') || at_inside s'
  end.

(** [\S+@\S+] matches at the start of [s]. *)
Definition email_starts (s : string) : bool :=
  match s with
  | EmptyString => false
  | String c s' => not_space c && at_inside s'
  end.

(** [re.sub(pattern, '', s)] for a pattern whose matches run to the next
    whitespace; [starts] tells whether a match begins at the start of a
    string, [skipping] is set inside a match. *)
Fixpoint remove_to_space (starts : string → bool) (skipping : bool) (s : string) : string :=
  match s with
  | EmptyString => EmptyString
  | String c s' =>
      if skipping && not_space c then remove_to_space starts true s'
      else if starts s then remove_to_space starts true s'
      else String c (remove_to_space starts false s')
  end.

(** [re.sub(r'[^\w\s-]', ' ', s)] *)
Fixpoint blank_punctuation (s : string) : string :=
  match s with
  | EmptyString => EmptyString
  | String c s' =>
      String (if is_word c || is_space c || Ascii.eqb c "-" then c else " "%char)
             (blank_punctuation s')
  end.

(** [word.endswith('-')] *)
Definition ends_with_hyphen (word : string) : bool := startswith "-" (reverse word).

Section Analyzer.
(** [self.stopwords] *)
Variable stopwords : list string.
(** [datetime.now()], in seconds, read once for a computation. *)
Variable now : Q.
(** [datetime.fromisoformat(s)] as seconds on the scale of [now];
    [None] when it raises [ValueError] or [TypeError], or when the
    subtraction from [now] does. *)
Variable fromisoformat : string → option Q.

(** The condition of the [if] in [_extract_keywords]. *)
Definition keeps (word : string) : bool :=
  let word_for_stopword_check := remove_char "-" word in
  (3 <=? len word) && (len word <=? 50)
  && bool_decide (word_for_stopword_check ∉ stopwords)
  && negb (isdigit word)
  && negb (isdigit word_for_stopword_check)
  && isalpha word_for_stopword_check
  && negb (startswith "-" word)
  && negb (ends_with_hyphen word).

Definition _extract_keywords (text : string) (weight : nat) : list string :=
  if is_empty text then []
  else
    let text := lower text in
    let text := remove_to_space url_starts false text in
    let text := remove_to_space email_starts false text in
    let text := blank_punctuation text in
    let text := collapse is_space text in
    let words := split text in
    flat_map (λ word, if keeps word then replicate weight word else []) words.

(** The score of one timestamp in [_calculate_recency_score]. *)
Definition recency_of (timestamp_str : string) : Q :=
  match fromisoformat timestamp_str with
  | Some timestamp =>
      let hours_ago := hours_since now timestamp in
      Qmax 0 (1 - hours_ago / 24)
  | None => 0%Q                                   (* except (ValueError, TypeError) *)
  end.

Definition _calculate_recency_score (timestamps : list string) : Q :=
  if bool_decide (timestamps = []) then 0%Q
  else
    let scores := foldl (λ scores timestamp_str, scores ++ [recency_of timestamp_str])
                        [] timestamps in
    if bool_decide (length scores = 0) then 0%Q
    else (sum scores / of_nat (length scores))%Q.

Definition _calculate_trend_score (frequency article_count : nat)
    (avg_sentiment recency_score : Q) : Q :=
  let freq_score := Qmin 1 (of_nat frequency / 20) in
  let spread_score := Qmin 1 (of_nat article_count / 10) in
  let sentiment_score := Qabs avg_sentiment in
  let trend_score :=
    (freq_score * (3 # 10) + spread_score * (3 # 10)
     + sentiment_score * (2 # 10) + recency_score * (2 # 10))%Q in
  round3 trend_score.

(** ** Aggregation *)

Definition empty_entry : keyword_entry :=
  {| count := 0; articles := []; sentiments := []; timestamps := [] |}.

Definition make_ref (a : article) : article_ref :=
  {| ref_id := id a; ref_title := title a; ref_source := source a;
     ref_sentiment := sentiment_label a; ref_scraped_date := scraped_date a |}.

(** [all_keywords.count(keyword)] *)
Definition occurrences (keyword : string) (all_keywords : list string) : nat :=
  length (filter (λ k, k = keyword) all_keywords).

(** The body of [for keyword in set(all_keywords)] on one entry. *)
Definition record_article (a : article) (all_keywords : list string)
    (keyword : string) (e : keyword_entry) : keyword_entry :=
  {| count := count e + occurrences keyword all_keywords;
     articles := articles e ++ [make_ref a];
     sentiments := sentiments e ++ [sentiment_score a];
     timestamps := timestamps e ++ [scraped_date a] |}.

(** [keyword_data[keyword]] updated in place; a [defaultdict] makes the
    entry on first use and keeps the keys in the order of first use. *)
Fixpoint update (keyword : string) (f : keyword_entry → keyword_entry)
    (keyword_data : list (string * keyword_entry)) : list (string * keyword_entry) :=
  match keyword_data with
  | [] => [(keyword, f empty_entry)]
  | (k, e) :: rest =>
      if String.eqb k keyword then (k, f e) :: rest
      else (k, e) :: update keyword f rest
  end.

Definition all_keywords_of (a : article) : list string :=
  _extract_keywords (title a) 2 ++ _extract_keywords (prefix 500 (content a)) 1.

(** One pass of [for article in articles].  [set(all_keywords)] is
    visited in the order of first occurrence (Python leaves the order
    open). *)
Definition add_article (keyword_data : list (string * keyword_entry)) (a : article)
  : list (string * keyword_entry) :=
  let all_keywords := all_keywords_of a in
  foldl (λ data keyword, update keyword (record_article a all_keywords keyword) data)
        keyword_data (remove_dups all_keywords).

Definition accumulate (arts : list article) : list (string * keyword_entry) :=
  foldl add_article [] arts.

(** The entry of [keyword], if it has one. *)
Fixpoint lookup_entry (keyword : string) (keyword_data : list (string * keyword_entry))
  : option keyword_entry :=
  match keyword_data with
  | [] => None
  | (k, e) :: rest => if String.eqb k keyword then Some e else lookup_entry keyword rest
  end.

(** The articles that contribute to [keyword], in the order of the query
    result, and the entry they add up to. *)
Definition contributing (keyword : string) (arts : list article) : list article :=
  filter (λ a, keyword ∈ all_keywords_of a) arts.

Definition weighted_count (keyword : string) (arts : list article) : nat :=
  sum_list_with (λ a, occurrences keyword (all_keywords_of a)) (contributing keyword arts).

Definition entry_of (keyword : string) (arts : list article) : keyword_entry :=
  {| count := weighted_count keyword arts;
     articles := make_ref <$> contributing keyword arts;
     sentiments := sentiment_score <$> contributing keyword arts;
     timestamps := scraped_date <$> contributing keyword arts |}.

(** The metrics computed per keyword after the loop. *)
Definition total_articles (e : keyword_entry) : nat :=
  length (remove_dups (ref_id <$> articles e)).

Definition entry_avg_sentiment (e : keyword_entry) : Q :=
  if bool_decide (length (sentiments e) = 0) then 0%Q
  else (sum (sentiments e) / of_nat (length (sentiments e)))%Q.

Definition entry_recency_score (e : keyword_entry) : Q :=
  _calculate_recency_score (timestamps e).

(** [data['articles'].sort(key=lambda x: x['scraped_date'], reverse=True)] *)
Definition sorted_articles (e : keyword_entry) : list article_ref :=
  sort_desc (λ x y, String.ltb (ref_scraped_date x) (ref_scraped_date y)) (articles e).

Definition make_topic (keyword : string) (e : keyword_entry) : TrendingTopic :=
  {| keyword := keyword;
     frequency := count e;
     articles_count := length (sorted_articles e);
     avg_sentiment := entry_avg_sentiment e;
     recent_articles := take 5 (sorted_articles e);
     trend_score :=
       _calculate_trend_score (count e) (total_articles e)
         (entry_avg_sentiment e) (entry_recency_score e) |}.

(** The topics before sorting: the entries that pass
    [if data['count'] >= min_articles]. *)
Definition candidate_topics (min_articles : nat)
    (keyword_data : list (string * keyword_entry)) : list TrendingTopic :=
  flat_map (λ kd, if min_articles <=? count kd.2 then [make_topic kd.1 kd.2] else [])
           keyword_data.

(** [recent] is the outcome of [self._get_recent_articles(cutoff_time)].
    The result comes with the records logged. *)
Definition get_trending_topics (recent : outcome (list article))
    (min_articles max_topics : nat) : list log_record * list TrendingTopic :=
  match recent with
  | Raises message =>                                  (* except Exception as e *)
      ([ErrorGettingTopics message], [])
  | Returns arts =>
      if length arts <? min_articles
      then ([NotEnoughArticles (length arts)], [])
      else
        let keyword_data := accumulate arts in
        let trending_topics := candidate_topics min_articles keyword_data in
        let trending_topics :=
          sort_desc (λ x y, ltb (trend_score x) (trend_score y)) trending_topics in
        ([], take max_topics trending_topics)
  end.

End Analyzer.

(** ** Instances for the examples *)

(** [_get_fallback_stopwords] *)
Definition fallback_stopwords : list string :=
  [ "the"; "a"; "an"; "and"; "or"; "but"; "in"; "on"; "at"; "to"; "for";
    "of"; "with"; "by"; "from"; "up"; "about"; "into"; "through"; "during";
    "before"; "after"; "above"; "below"; "down"; "out"; "off"; "over";
    "under"; "again"; "further"; "then"; "once"; "here"; "there"; "when";
    "where"; "why"; "how"; "all"; "any"; "both"; "each"; "few"; "more";
    "most"; "other"; "some"; "such"; "no"; "nor"; "not"; "only"; "own";
    "same"; "so"; "than"; "too"; "very"; "can"; "will"; "just"; "should";
    "now"; "is"; "are"; "was"; "were"; "been"; "be"; "have"; "has"; "had";
    "do"; "does"; "did"; "say"; "says"; "said"; "get"; "got"; "make"; "made";
    "go"; "went"; "come"; "came"; "take"; "took"; "see"; "saw"; "know"; "knew";
    "think"; "thought"; "look"; "looked"; "use"; "used"; "find"; "found";
    "give"; "gave"; "tell"; "told"; "work"; "worked"; "call"; "called";
    "try"; "tried"; "ask"; "asked"; "need"; "needed"; "feel"; "felt";
    "become"; "became"; "leave"; "left"; "put"; "i"; "me"; "my"; "myself";
    "we"; "our"; "ours"; "ourselves"; "you"; "your"; "yours"; "yourself";
    "yourselves"; "he"; "him"; "his"; "himself"; "she"; "her"; "hers";
    "herself"; "it"; "its"; "itself"; "they"; "them"; "their"; "theirs";
    "themselves"; "what"; "which"; "who"; "whom"; "this"; "that"; "these";
    "those"; "am"; "being"; "having"; "doing"; "would"; "could"; "should";
    "may"; "might"; "must"; "shall"; "one"; "two"; "also"; "back"; "even";
    "still"; "well"; "much"; "many"; "new"; "first"; "last"; "good"; "way" ].

(** The value of a string of decimal digits. *)
Fixpoint digits_from (acc : Z) (s : string) : option Z :=
  match s with
  | EmptyString => Some acc
  | String c s' =>
      if is_digit c then digits_from (10 * acc + Z.of_nat (code c - 48))%Z s'
      else None
  end.

Definition number (s : string) : option Z :=
  if is_empty s then None else digits_from 0 s.

(** The days from 1970-01-01 to the given day of the proleptic Gregorian
    calendar. *)
Definition days_from_civil (y m d : Z) : Z :=
  let y := (if m <=? 2 then y - 1 else y)%Z in
  let era := (y / 400)%Z in
  let yoe := (y - era * 400)%Z in
  let mp := (if m <=? 2 then m + 9 else m - 3)%Z in
  let doy := ((153 * mp + 2) / 5 + d - 1)%Z in
  let doe := (yoe * 365 + yoe / 4 - yoe / 100 + doy)%Z in
  (era * 146097 + doe - 719468)%Z.

(** The characters [s[i:j]]. *)
Definition slice (i j : nat) (s : string) : string := String.substring i (j - i) s.

(** [fromisoformat] on the timestamps SQLite's [CURRENT_TIMESTAMP] writes,
    [YYYY-MM-DD HH:MM:SS], in seconds; other strings count as refused. *)
Definition fromisoformat_sqlite (s : string) : option Q :=
  if (len s =? 19)
     && String.eqb (slice 4 5 s) "-" && String.eqb (slice 7 8 s) "-"
     && String.eqb (slice 10 11 s) " "
     && String.eqb (slice 13 14 s) ":" && String.eqb (slice 16 17 s) ":"
  then
    match number (slice 0 4 s), number (slice 5 7 s), number (slice 8 10 s),
          number (slice 11 13 s), number (slice 14 16 s), number (slice 17 19 s) with
    | Some y, Some m, Some d, Some hh, Some mm, Some ss =>
        if ((1 <=? m) && (m <=? 12) && (1 <=? d) && (d <=? 31)
            && (hh <=? 23) && (mm <=? 59) && (ss <=? 59))%Z
        then Some (inject_Z (days_from_civil y m d * 86400 + hh * 3600 + mm * 60 + ss))
        else None
    | _, _, _, _, _, _ => None
    end
  else None.

End TrendEngine.

(** * Extractor: [BaseScraper.extract_article_content] and [fetch_articles] *)

Module Extractor.
Import PyStr.

(** The fields of [Article] that the scraper sets; the others keep their
    defaults. *)
Record Article : Type := {
  url : string;
  source : string;
  scraped_date : Q;
  title : string;
  content : string;
  published_date : option Q;
  author : string
}.

(** The part of an article an extraction helper works on. *)
Inductive field : Type := TitleField | ContentField | DateField | AuthorField.

(** Everything [fetch_articles] does to the outside world, in order. *)
Inductive event : Type :=
| Started                                  (* info: "Starting to fetch articles from ..." *)
| Fetching (url : string) (e : Fetcher.event)      (* inside fetch_page(url) *)
| ExtractionWarning (what : field)         (* warning: "Error extracting title: ..." etc. *)
| MissingTitleOrContent (url : string)     (* warning: "Missing title or content for ..." *)
| ContentTooShort (url : string) (chars : nat)     (* warning: "Content too short for ..." *)
| FailedMainPage                           (* error: "Failed to fetch main page for ..." *)
| FoundLinks (n : nat)                     (* info: "Found {n} article links" *)
| RateLimit                                (* time.sleep(self.rate_limit) *)
| Extracted (title_start : string)         (* debug: "Successfully extracted article: ..." *)
| FailedArticle (link : string)            (* warning: "Failed to extract article from ..." *)
| Finished (n : nat).                      (* info: "Successfully extracted {n} articles ..." *)

Definition is_rate_limit (e : event) : bool :=
  match e with RateLimit => true | _ => false end.

Definition is_extraction_warning (e : event) : bool :=
  match e with ExtractionWarning _ => true | _ => false end.

Definition rate_limit_sleeps (tr : list event) : nat := length (filter is_rate_limit tr).

(** The URLs requested, in order. *)
Definition requested (tr : list event) : list string :=
  flat_map (λ e, match e with Fetching url (Fetcher.Request _) => [url] | _ => [] end) tr.

(** [p] matches at the start of [s] without regard to case; the rest of
    [s] after the match. *)
Fixpoint after_ignorecase (p s : string) : option string :=
  match p, s with
  | EmptyString, _ => Some s
  | String a p', String b s' =>
      if Ascii.eqb (lower_char a) (lower_char b) then after_ignorecase p' s' else None
  | String _ _, EmptyString => None
  end.

(** [re.sub(r'^\s*phrase\s*', '', content, flags=re.IGNORECASE)].  The
    pattern [^\s*Share this.*?\s*] removes the same text: its lazy [.*?]
    matches nothing. *)
Definition remove_leading (phrase content : string) : string :=
  match after_ignorecase phrase (lstrip content) with
  | Some rest => lstrip rest
  | None => content
  end.

Definition _clean_content (content : string) : string :=
  let content := collapse is_space content in
  let content := remove_leading "Advertisement" content in
  let content := remove_leading "Share this" content in
  strip content.

(** The class [[\w\s:+-]] of [_parse_date]. *)
Definition is_date_char (c : ascii) : bool :=
  is_word c || is_space c || Ascii.eqb c ":" || Ascii.eqb c "+" || Ascii.eqb c "-".

(** [re.sub(r'[^\w\s:+-]', ' ', date_str)] *)
Fixpoint blank_outside_date (s : string) : string :=
  match s with
  | EmptyString => EmptyString
  | String c s' =>
      String (if is_date_char c then c else " "%char) (blank_outside_date s')
  end.

Definition date_formats : list string :=
  [ "%Y-%m-%dT%H:%M:%S%z"; "%Y-%m-%dT%H:%M:%SZ"; "%Y-%m-%d %H:%M:%S";
    "%Y-%m-%d"; "%d %B %Y"; "%B %d, %Y" ].

(** The double quote, for the selector [[rel="author"]]. *)
Definition double_quote : string := String (ascii_of_nat 34) EmptyString.

Definition author_selectors : list string :=
  [ ".author"; ".byline"; "[rel=" +:+ double_quote +:+ "author" +:+ double_quote +:+ "]";
    ".article-author"; ".post-author" ].

Section Scraper.
(** The parsed document type (BeautifulSoup). *)
Context {soup : Type}.
(** [get call url k]: the outcome of the [k]-th request of the [call]-th
    [fetch_page] that [fetch_articles] makes (see [Fetcher.fetch_page]). *)
Variable get : nat → string → nat → option soup.
Variable retry_attempts : nat.
Variable source_name : string.
Variable base_url : string.
(** [self.selectors.get('title', 'h1')], [self.selectors.get('content', 'p')] *)
Variable title_selector : string.
Variable content_selector : string.
(** [soup.select_one(selector)] and [soup.find(name)] with
    [get_text(strip=True)] of the element found: [None] when the call
    raises, [Some None] when nothing matches. *)
Variable select_one_text : string → soup → option (option string).
Variable find_text : string → soup → option (option string).
(** [soup.select(selector)] and [soup.find_all(name)] with
    [get_text(strip=True)] of each element, [None] when the call raises
    ([get_text] itself does not raise on an element that was found). *)
Variable select_texts : string → soup → option (list string).
Variable find_all_texts : string → soup → option (list string).
(** [self.selectors.get('date', 'time')] *)
Variable date_selector : string.
(** [soup.select_one(date_selector)] as the [datetime] attribute of the
    element found ([None] when it has none) and its
    [get_text(strip=True)]: [None] when the call raises, [Some None] when
    nothing matches. *)
Variable select_one_date : string → soup → option (option (option string * string)).
(** [datetime.strptime(date_str, fmt)], [None] when it raises
    [ValueError]. *)
Variable strptime : string → string → option Q.
(** [datetime.now()] in the [call]-th extraction. *)
Variable now : nat → Q.
Variable min_content_length : Z.
(** For [extract_article_links] (see [LinkDiscovery]); [select_links] is
    [soup.select(link_selector)] as the hrefs of the matched elements. *)
Variable urljoin : string → string → option string.
Variable urlparse : string → option (string * string).
Variable max_articles : nat.
Variable select_links : soup → option (list (option string)).

(** Each helper catches its own exceptions, logs a warning and returns
    its default: the result comes with the records logged. *)
Definition _extract_title (doc : soup) : list event * string :=
  match select_one_text title_selector doc with
  | None => ([ExtractionWarning TitleField], "")          (* except Exception *)
  | Some (Some text) => ([], text)
  | Some None =>
      match find_text "title" doc with
      | None => ([ExtractionWarning TitleField], "")      (* except Exception *)
      | Some (Some text) => ([], text)
      | Some None => ([], "")
      end
  end.

(** [if text and len(text) > 20] *)
Definition long_enough (text : string) : bool := 20 <? len text.

Definition _extract_content (doc : soup) : list event * string :=
  let '(warnings, content_parts) :=
    match select_texts content_selector doc with
    | None => ([ExtractionWarning ContentField], [])      (* except Exception *)
    | Some texts =>
        let content_parts := filter (λ text, Is_true (long_enough text)) texts in
        if bool_decide (content_parts = []) then
          match find_all_texts "p" doc with
          | None => ([ExtractionWarning ContentField], [])  (* except Exception *)
          | Some paragraphs =>
              ([], filter (λ text, Is_true (long_enough text)) paragraphs)
          end
        else ([], content_parts)
    end in
  (warnings, _clean_content (join " " content_parts)).

(** [for fmt in date_formats: try: return strptime(...) except ValueError] *)
Fixpoint first_parsed (formats : list string) (date_str : string) : option Q :=
  match formats with
  | [] => None
  | fmt :: rest =>
      match strptime date_str fmt with
      | Some date => Some date
      | None => first_parsed rest date_str
      end
  end.

Definition _parse_date (date_str : string) : option Q :=
  first_parsed date_formats (strip (blank_outside_date date_str)).

Definition _extract_date (doc : soup) : list event * option Q :=
  match select_one_date date_selector doc with
  | None => ([ExtractionWarning DateField], None)         (* except Exception *)
  | Some None => ([], None)
  | Some (Some (datetime_attr, date_text)) =>
      let from_text :=
        if is_empty date_text then None else _parse_date date_text in
      match datetime_attr with
      | Some attr => ([], if is_empty attr then from_text else _parse_date attr)
      | None => ([], from_text)
      end
  end.

(** [for selector in author_selectors], from the selectors that remain. *)
Fixpoint first_author (selectors : list string) (doc : soup) : list event * string :=
  match selectors with
  | [] => ([], "")
  | selector :: rest =>
      match select_one_text selector doc with
      | None => ([ExtractionWarning AuthorField], "")     (* except Exception *)
      | Some (Some text) => ([], text)
      | Some None => first_author rest doc
      end
  end.

Definition _extract_author (doc : soup) : list event * string :=
  first_author author_selectors doc.

(** The [call]-th extraction: the events and the article, if any.  (The
    handler of [extract_article_content] itself is never entered: the
    helpers catch what the document calls raise.) *)
Definition extract_article_content (call : nat) (link : string)
  : list event * option Article :=
  let '(tr, page) := Fetcher.fetch_page (get call) retry_attempts link in
  let tr := Fetching link <$> tr in
  match page with
  | None => (tr, None)
  | Some doc =>
      let '(title_warnings, title) := _extract_title doc in
      let '(content_warnings, content) := _extract_content doc in
      let '(date_warnings, published_date) := _extract_date doc in
      let '(author_warnings, author) := _extract_author doc in
      let tr :=
        tr ++ title_warnings ++ content_warnings ++ date_warnings ++ author_warnings in
      let article :=
        {| url := link; source := source_name; scraped_date := now call;
           title := title; content := content;
           published_date := published_date; author := author |} in
      if is_empty (Extractor.title article) || is_empty (Extractor.content article)
      then (tr ++ [MissingTitleOrContent link], None)
      else if (Z.of_nat (len (Extractor.content article)) <? min_content_length)%Z
      then (tr ++ [ContentTooShort link (len (Extractor.content article))], None)
      else (tr, Some article)
  end.

(** [for i, link in enumerate(article_links)], from index [i] on. *)
Fixpoint visit (i : nat) (article_links : list string)
    (tr : list event) (articles : list Article) : list event * list Article :=
  match article_links with
  | [] => (tr, articles)
  | link :: rest =>
      let tr := if 0 <? i then tr ++ [RateLimit] else tr in
      match extract_article_content (S i) link with
      | (tr', Some article) =>
          visit (S i) rest (tr ++ tr' ++ [Extracted (prefix 50 (title article))])
                (articles ++ [article])
      | (tr', None) =>
          visit (S i) rest (tr ++ tr' ++ [FailedArticle link]) articles
      end
  end.

Definition fetch_articles : list event * list Article :=
  let '(tr, page) := Fetcher.fetch_page (get 0) retry_attempts base_url in
  let tr := Started :: (Fetching base_url <$> tr) in
  match page with
  | None => (tr ++ [FailedMainPage], [])
  | Some doc =>
      let article_links :=
        LinkDiscovery.extract_article_links urljoin urlparse base_url max_articles
          (select_links doc) in
      let '(tr, articles) :=
        visit 0 article_links (tr ++ [FoundLinks (length article_links)]) [] in
      (tr ++ [Finished (length articles)], articles)
  end.

End Scraper.

End Extractor.

(** * Theorems *)

#[local] Set Warnings "-clear-no-such-hyp".

(** ** Fetcher *)

Section FetcherFacts.
Import Fetcher.
Context {soup : Type}.
Variable get : string → nat → option soup.
Variable retry_attempts : nat.

Lemma attempts_from_all_fail url k attempt tr :
  (∀ a, attempt ≤ a → a < attempt + k → get url a = None) →
  attempts_from get retry_attempts url k attempt tr =
    (tr ++ flat_map (failed_attempt retry_attempts) (seq attempt k), None).
Proof.
  revert attempt tr. induction k as [|k IH]; intros attempt tr Hfail; simpl.
  - by rewrite app_nil_r.
  - rewrite Hfail by lia.
    rewrite IH by (intros a ? ?; apply Hfail; lia).
    unfold failed_attempt. f_equal.
    destruct (attempt <? retry_attempts - 1); by rewrite <- !app_assoc.
Qed.

Lemma requests_app tr1 tr2 : requests (tr1 ++ tr2) = requests tr1 + requests tr2.
Proof. unfold requests. by rewrite filter_app, length_app. Qed.

Lemma total_sleep_app tr1 tr2 :
  total_sleep (tr1 ++ tr2) = total_sleep tr1 + total_sleep tr2.
Proof. apply sum_list_with_app. Qed.

Lemma requests_failed_attempt a : requests (failed_attempt retry_attempts a) = 1.
Proof. unfold failed_attempt. by destruct (a <? retry_attempts - 1). Qed.

Lemma total_sleep_failed_attempt a :
  total_sleep (failed_attempt retry_attempts a) =
    if a <? retry_attempts - 1 then 2 ^ a else 0.
Proof.
  unfold failed_attempt, total_sleep.
  destruct (a <? retry_attempts - 1); simpl; lia.
Qed.

Lemma requests_failed_attempts a k :
  requests (flat_map (failed_attempt retry_attempts) (seq a k)) = k.
Proof.
  revert a. induction k as [|k IH]; intros a; [done|].
  cbn [seq flat_map]. by rewrite requests_app, requests_failed_attempt, IH.
Qed.

Lemma sleep_failed_attempts a k :
  a + k = retry_attempts →
  total_sleep (flat_map (failed_attempt retry_attempts) (seq a k)) + 2 ^ a
  = 2 ^ (a + (k - 1)).
Proof.
  revert a. induction k as [|k IH]; intros a Hn.
  - cbn [seq flat_map]. unfold total_sleep. simpl. by rewrite Nat.add_0_r.
  - cbn [seq flat_map]. rewrite total_sleep_app, total_sleep_failed_attempt.
    destruct (Nat.ltb_spec a (retry_attempts - 1)) as [Hlt|Hge].
    + specialize (IH (S a) ltac:(lia)).
      replace (a + (S k - 1)) with (S a + (k - 1)) by lia.
      rewrite Nat.pow_succ_r' in IH. lia.
    + assert (k = 0) as -> by lia. cbn [seq flat_map].
      unfold total_sleep. simpl. by rewrite Nat.add_0_r.
Qed.
End FetcherFacts.

(** C6. When every retrieval attempt fails, [fetch_page] issues exactly
    [retry_attempts] requests, each failed attempt but the last is followed
    by a sleep of [2 ^ attempt] seconds (nothing is slept before attempt 0),
    the last one by the error log only, and the function returns [None]
    instead of raising; the seconds slept add up to [2 ^ (n - 1) - 1], which
    is [1 + 2 = 3] for three attempts. *)
Theorem C6_fetch_page_exhausts_attempts :
  ∀ (soup : Type) (get : string → nat → option soup) (n : nat) (url : string),
    (∀ a, a < n → get url a = None) →
    ∃ tr,
      Fetcher.fetch_page get n url = (tr, None) ∧
      tr = flat_map (Fetcher.failed_attempt n) (seq 0 n) ∧
      Fetcher.requests tr = n ∧
      Fetcher.total_sleep tr = 2 ^ (n - 1) - 1 ∧
      (n = 3 → Fetcher.total_sleep tr = 1 + 2).
Proof.
  intros soup get n url Hfail.
  eexists. split; [|split; [reflexivity|]].
  - unfold Fetcher.fetch_page.
    rewrite attempts_from_all_fail by (intros; apply Hfail; lia). done.
  - split; [apply requests_failed_attempts|].
    pose proof (sleep_failed_attempts n 0 n eq_refl) as Hs. simpl in Hs.
    split; [lia|]. intros ->. simpl in *. lia.
Qed.

Lemma C6_witness :
  ∃ tr,
    Fetcher.fetch_page (λ _ _, @None unit) 3 "https://example.com/test" = (tr, None) ∧
    tr = flat_map (Fetcher.failed_attempt 3) (seq 0 3) ∧
    Fetcher.requests tr = 3 ∧
    Fetcher.total_sleep tr = 2 ^ (3 - 1) - 1 ∧
    (3 = 3 → Fetcher.total_sleep tr = 1 + 2).
Proof.
  apply (C6_fetch_page_exhausts_attempts unit (λ _ _, None) 3 "https://example.com/test").
  intros a _. reflexivity.
Defined.

(** ** Validator *)

Section ValidatorFacts.
Import PyStr Validator.

Lemma is_empty_spec s : is_empty s = true ↔ s = "".
Proof. destruct s; simpl; split; congruence. Qed.

Lemma append_nil_l s : "" +:+ s = s.
Proof. reflexivity. Qed.

Lemma append_cons c s t : String c s +:+ t = String c (s +:+ t).
Proof. reflexivity. Qed.

Lemma startswith_spec p s : startswith p s = true ↔ ∃ post, s = p +:+ post.
Proof.
  revert s. induction p as [|a p IH]; intros s; cbn [startswith].
  - split; [intros _; by exists s | done].
  - destruct s as [|b s].
    + split; [done | intros [post Hpost]; discriminate].
    + destruct (Ascii.eqb_spec a b) as [->|Hne].
      * rewrite IH. split; intros [post Hpost]; exists post;
          rewrite append_cons in *; congruence.
      * split; [done | intros [post Hpost]; rewrite append_cons in Hpost; congruence].
Qed.

(** [indicator in content_lower] is the substring test. *)
Lemma contains_spec p s :
  contains p s = true ↔ ∃ pre post, s = pre +:+ p +:+ post.
Proof.
  induction s as [|c s IH].
  - simpl. rewrite orb_false_r, startswith_spec. split.
    + intros [post Hpost]. by exists "", post.
    + intros [pre [post Hs]]. destruct pre; [by exists post | discriminate].
  - cbn [contains]. rewrite orb_true_iff, startswith_spec, IH. split.
    + intros [[post Hpost] | [pre [post Hs]]].
      * by exists "", post.
      * exists (String c pre), post. rewrite append_cons. by rewrite Hs.
    + intros [pre [post Hs]]. destruct pre as [|c' pre]; rewrite ?append_cons in Hs.
      * left. by exists post.
      * right. exists pre, post. congruence.
Qed.

#[global] Instance substring_dec p s : Decision (substring p s).
Proof.
  refine (cast_if (decide (contains p s = true)));
    abstract (unfold substring; by rewrite <- contains_spec).
Defined.

Lemma spam_count_substring content :
  spam_count content =
    length (filter (λ p, substring p (lower content)) spam_indicators).
Proof.
  unfold spam_count. f_equal. apply list_filter_iff. intros p.
  rewrite Is_true_true. apply contains_spec.
Qed.

(** A run of terminators holds at least one mark. *)
Lemma count_runs_from_le_chars p inside s :
  count_runs_from p inside s ≤ count_chars p s.
Proof.
  revert inside. induction s as [|c s IH]; intros inside; simpl; [done|].
  pose proof (IH true). pose proof (IH false).
  destruct (p c); [destruct inside|]; simpl; lia.
Qed.
End ValidatorFacts.

(** C5 as stated fails: a body whose only punctuation is one run of three
    marks is rejected by the code although none of the listed conditions
    holds of it. *)
Lemma C5_marks_counterexample :
  let title := "Markets rally again" in
  let body := "Stocks rose sharply today across all the major exchanges!!!" in
  Validator.is_quality_content title body 10 = false ∧
  ¬ (title = "" ∨ body = "" ∨ (Z.of_nat (PyStr.len body) < 10)%Z ∨
     length (PyStr.split title) < 3 ∨ 20 < length (PyStr.split title) ∨
     2 < Validator.spam_count body ∨ Validator.terminator_marks body < 3).
Proof.
  split; [reflexivity|].
  intros [H|[H|[H|[H|[H|[H|H]]]]]];
    first [discriminate H | vm_compute in H; first [discriminate H | lia]].
Qed.

(** C5 (amended). The quality check returns [false] exactly when the title
    or the body is empty, the body is shorter than [min_length], the title
    has fewer than 3 or more than 20 whitespace-separated words, more than
    2 of the spam phrases are substrings of the lower-cased body, or the
    body has fewer than 3 maximal runs of the characters [.], [!], [?]
    (matches of [[.!?]+]); and [is_quality_content "Hi" "short" 100] is
    [false]. *)
Theorem C5_is_quality_content_rejects_iff :
  (∀ (title content : string) (min_length : Z),
     Validator.is_quality_content title content min_length = false ↔
       title = "" ∨ content = "" ∨
       (Z.of_nat (PyStr.len content) < min_length)%Z ∨
       length (PyStr.split title) < 3 ∨ 20 < length (PyStr.split title) ∨
       2 < length (filter (λ p, PyStr.substring p (PyStr.lower content))
                          Validator.spam_indicators) ∨
       PyStr.count_runs Validator.is_terminator content < 3) ∧
  Validator.is_quality_content "Hi" "short" 100 = false.
Proof.
  split; [|reflexivity].
  intros title content min_length. unfold Validator.is_quality_content.
  rewrite <- spam_count_substring. fold (Validator.sentence_count content).
  destruct (PyStr.is_empty title) eqn:Ht.
  { apply is_empty_spec in Ht. simpl. tauto. }
  destruct (PyStr.is_empty content) eqn:Hc.
  { apply is_empty_spec in Hc. simpl. tauto. }
  assert (title ≠ "") by (intros ?%is_empty_spec; congruence).
  assert (content ≠ "") by (intros ?%is_empty_spec; congruence).
  simpl.
  destruct (Z.ltb_spec (Z.of_nat (PyStr.len content)) min_length); [tauto|].
  destruct (Nat.ltb_spec (length (PyStr.split title)) 3); [simpl; tauto|].
  destruct (Nat.ltb_spec 20 (length (PyStr.split title))); [simpl; tauto|].
  simpl.
  destruct (Nat.ltb_spec 2 (Validator.spam_count content)); [tauto|].
  destruct (Nat.ltb_spec (Validator.sentence_count content) 3); [tauto|].
  unfold Validator.sentence_count in *.
  split; [done|]. intros [?|[?|[?|[?|[?|[?|?]]]]]]; try done; lia.
Qed.

(** ** Deduplicator *)

Section DeduplicatorFacts.
Import Deduplicator.
Variable thr : Q.
Variable sim : matrix.
Variable n : nat.

Abbreviation similar := (Deduplicator.similar thr sim).

Lemma inner_step_spec i G P j :
  inner_step thr sim i (G, P) j =
    if decide ((j ∉ P) ∧ similar i j) then ({[j]} ∪ G, {[j]} ∪ P) else (G, P).
Proof.
  unfold inner_step, Deduplicator.similar. simpl.
  destruct (decide (j ∈ P)) as [Hin|Hnin].
  - rewrite decide_False; [done | tauto].
  - destruct (Qle_bool thr (sim i j)) eqn:Hle.
    + apply Qle_bool_iff in Hle. by rewrite decide_True.
    + rewrite decide_False; [done|]. intros [_ Hle'%Qle_bool_iff]. congruence.
Qed.

Lemma inner_fold_spec i l : ∀ G P,
  NoDup l →
  ∀ x,
    (x ∈ (foldl (inner_step thr sim i) (G, P) l).1 ↔
       x ∈ G ∨ (x ∈ l ∧ (x ∉ P) ∧ similar i x)) ∧
    (x ∈ (foldl (inner_step thr sim i) (G, P) l).2 ↔
       x ∈ P ∨ (x ∈ l ∧ similar i x)).
Proof.
  induction l as [|j l IH]; intros G P Hnd x.
  - simpl. set_solver.
  - apply NoDup_cons in Hnd as [Hj Hnd]. cbn [foldl].
    rewrite inner_step_spec.
    destruct (decide ((j ∉ P) ∧ similar i j)) as [[HjP Hsim]|Hno].
    + destruct (IH ({[j]} ∪ G) ({[j]} ∪ P) Hnd x) as [-> ->].
      split; [|set_solver].
      split.
      * intros [Hx|(Hx & HxP & Hs)]; [|set_solver].
        apply elem_of_union in Hx as [->%elem_of_singleton|Hx]; set_solver.
      * intros [Hx|(Hx & HxP & Hs)]; [set_solver|].
        apply elem_of_cons in Hx as [->|Hx]; [set_solver|].
        right. split_and!; [done| |done]. set_solver.
    + destruct (IH G P Hnd x) as [-> ->].
      split.
      * split; [set_solver|]. intros [Hx|(Hx & HxP & Hs)]; [set_solver|].
        apply elem_of_cons in Hx as [->|Hx]; [tauto|set_solver].
      * split; [set_solver|]. intros [Hx|(Hx & Hs)]; [set_solver|].
        apply elem_of_cons in Hx as [->|Hx]; [|set_solver].
        destruct (decide (j ∈ P)); [set_solver|tauto].
Qed.

(** The group built for seed [i] and the processed set after it. *)
Lemma inner_loop_spec i P x :
  (x ∈ (inner_loop thr sim n i P).1 ↔
     x = i ∨ (i < x < n ∧ (x ∉ P) ∧ similar i x)) ∧
  (x ∈ (inner_loop thr sim n i P).2 ↔
     x ∈ P ∨ (i < x < n ∧ similar i x)).
Proof.
  unfold inner_loop.
  destruct (inner_fold_spec i (seq (S i) (n - S i)) {[i]} P (NoDup_seq _ _) x)
    as [-> ->].
  rewrite elem_of_singleton, elem_of_seq.
  split; (split; intros [?|?]; [by left | right | by left | right]);
    intuition lia.
Qed.

Lemma two_members (G : gset nat) i j : i ∈ G → j ∈ G → i ≠ j → 2 ≤ size G.
Proof.
  intros Hi Hj Hne.
  assert (({[i]} ∪ {[j]} : gset nat) ⊆ G) as Hsub by set_solver.
  apply subseteq_size in Hsub.
  rewrite size_union, !size_singleton in Hsub by set_solver. lia.
Qed.

Lemma small_group (G : gset nat) i : i ∈ G → size G ≤ 1 → ∀ x, x ∈ G → x = i.
Proof.
  intros Hi Hsz x Hx. destruct (decide (x = i)) as [|Hne]; [done|].
  pose proof (two_members G x i Hx Hi Hne). lia.
Qed.

Lemma seeded_mono k k' c : k ≤ k' → seeded thr sim k c → seeded thr sim k' c.
Proof. intros Hk (s & Hs & Hlt & Hall). exists s. split_and!; [done|lia|done]. Qed.

Lemma outer_step_extends st k :
  ∃ ext, (outer_step thr sim n st k).1 = st.1 ++ ext.
Proof.
  unfold outer_step. destruct (decide (k ∈ st.2)).
  - exists []. by rewrite app_nil_r.
  - destruct (inner_loop thr sim n k st.2) as [G P'].
    destruct (1 <? size G); simpl; [by eexists | exists []; by rewrite app_nil_r].
Qed.

Lemma outer_loop_extends l : ∀ st,
  ∃ ext, (outer_loop thr sim n st l).1 = st.1 ++ ext.
Proof.
  unfold outer_loop. induction l as [|k l IH]; intros st; simpl.
  - exists []. by rewrite app_nil_r.
  - destruct (IH (outer_step thr sim n st k)) as [ext2 ->].
    destruct (outer_step_extends st k) as [ext1 ->].
    exists (ext1 ++ ext2). by rewrite app_assoc.
Qed.

Lemma outer_step_inv st k :
  k < n → loop_inv thr sim n k st → loop_inv thr sim n (S k) (outer_step thr sim n st k).
Proof.
  intros Hk [Hproc Hdisj Hcl]. unfold outer_step.
  destruct (decide (k ∈ st.2)) as [Hin|Hnin].
  { split; [done|done|]. intros c Hc. destruct (Hcl c Hc) as (?&?&?).
    split_and!; [done|done|]. eapply seeded_mono; [|done]. lia. }
  pose proof (inner_loop_spec k st.2) as Hspec.
  destruct (inner_loop thr sim n k st.2) as [G P']. simpl in Hspec.
  assert (k ∈ G) as HkG by (apply Hspec; by left).
  assert (∀ x, x ∈ G → x ∉ st.2) as HGP.
  { intros x [->|(_ & ? & _)]%Hspec; done. }
  destruct (Nat.ltb_spec 1 (size G)) as [Hsz|Hsz]; simpl.
  - split; simpl.
    + intros x. rewrite elem_of_union. setoid_rewrite elem_of_app.
      setoid_rewrite list_elem_of_singleton.
      split.
      * intros [HxP|HxG]; [|by exists G; auto].
        apply Hspec in HxP as [HxP|[Hrange Hs]].
        -- apply Hproc in HxP as (c & ? & ?). exists c. auto.
        -- destruct (decide (x ∈ st.2)) as [HxP|HxP].
           ++ apply Hproc in HxP as (c & ? & ?). exists c. auto.
           ++ exists G. split; [by right|]. apply Hspec. right. done.
      * intros (c & [Hc| ->] & Hx); [|by right].
        left. apply Hspec. left. apply Hproc. by exists c.
    + intros a b c d Ha Hb Hab.
      apply lookup_app_Some in Ha as [Ha|[Hla Ha]];
        apply lookup_app_Some in Hb as [Hb|[Hlb Hb]].
      * by eapply Hdisj.
      * apply list_lookup_singleton_Some in Hb as [_ <-].
        intros x Hxc HxG. apply (HGP x HxG). apply Hproc. exists c.
        split; [|done]. by eapply list_elem_of_lookup_2.
      * apply list_lookup_singleton_Some in Ha as [_ <-].
        intros x HxG Hxd. apply (HGP x HxG). apply Hproc. exists d.
        split; [|done]. by eapply list_elem_of_lookup_2.
      * apply list_lookup_singleton_Some in Ha as [Ha _].
        apply list_lookup_singleton_Some in Hb as [Hb _]. lia.
    + intros c [Hc| ->%list_elem_of_singleton]%elem_of_app.
      * destruct (Hcl c Hc) as (?&?&?).
        split_and!; [done|done|]. eapply seeded_mono; [|done]. lia.
      * split_and!; [lia| |].
        -- intros x [->|([_ ?] & _)]%Hspec; done.
        -- exists k. split_and!; [done|lia|].
           intros x [->|([? _] & _ & ?)]%Hspec; [by left | right; done].
  - assert (∀ x, x ∈ P' ↔ x ∈ st.2) as HP'.
    { intros x. split.
      - intros [HxP|[Hrange Hs]]%Hspec; [done|].
        destruct (decide (x ∈ st.2)) as [|HxP]; [done|].
        assert (x ∈ G) as HxG by (apply Hspec; right; done).
        pose proof (small_group G k HkG Hsz x HxG). lia.
      - intros HxP. apply Hspec. by left. }
    split; simpl.
    + intros x. rewrite HP'. apply Hproc.
    + done.
    + intros c Hc. destruct (Hcl c Hc) as (?&?&?).
      split_and!; [done|done|]. eapply seeded_mono; [|done]. lia.
Qed.

Lemma outer_loop_inv m : ∀ k st,
  k + m ≤ n → loop_inv thr sim n k st →
  loop_inv thr sim n (k + m) (outer_loop thr sim n st (seq k m)).
Proof.
  unfold outer_loop. induction m as [|m IH]; intros k st Hle Hinv; simpl.
  - by rewrite Nat.add_0_r.
  - replace (k + S m) with (S k + m) by lia.
    apply IH; [lia|]. apply outer_step_inv; [lia|done].
Qed.

Lemma loop_inv_init : loop_inv thr sim n 0 ([], ∅).
Proof.
  split; simpl.
  - intros x. split; [set_solver|]. intros (c & Hc & _). by apply elem_of_nil in Hc.
  - intros a b c d Ha. by rewrite lookup_nil in Ha.
  - intros c Hc. by apply elem_of_nil in Hc.
Qed.

(** The greedy step: an unprocessed seed claims every unprocessed later
    index that passes the threshold test against it. *)
Lemma outer_step_claims st i j :
  i ∉ st.2 → j ∉ st.2 → i < j < n → similar i j →
  ∃ c, c ∈ (outer_step thr sim n st i).1 ∧ i ∈ c ∧ j ∈ c.
Proof.
  intros Hi Hj Hij Hs. unfold outer_step. rewrite decide_False by done.
  pose proof (inner_loop_spec i st.2) as Hspec.
  destruct (inner_loop thr sim n i st.2) as [G P']. simpl in Hspec.
  assert (i ∈ G) as HiG by (apply Hspec; by left).
  assert (j ∈ G) as HjG by (apply Hspec; right; done).
  pose proof (two_members G i j HiG HjG ltac:(lia)) as Hsz.
  destruct (Nat.ltb_spec 1 (size G)); [|lia]. simpl.
  exists G. split; [|done]. apply elem_of_app. right. by apply list_elem_of_singleton.
Qed.
End DeduplicatorFacts.

(** C4 as stated fails: similarity is not transitive.  Three documents
    with the unit vectors (1, 0), (4/5, 3/5) and (7/25, 24/25) have
    cosine similarities 0.8 (first and second), 0.8 (second and third)
    and 0.28 (first and third).  The first claims the second, the third
    stays alone, so the second and third, although similar, share no
    cluster. *)
Lemma C4_similar_pair_split_counterexample :
  let rows := [[1; 0]; [4 # 5; 3 # 5]; [7 # 25; 24 # 25]]%Q in
  let sim := Deduplicator.cosine_of_rows rows in
  let clusters :=
    Deduplicator.detect_duplicates (8 # 10) (λ _, Some sim)
      ["first text"; "second text"; "third text"] in
  Deduplicator.similar (8 # 10) sim 1 2 ∧
  clusters = [ {[0; 1]} ] ∧
  ¬ ∃ c, c ∈ clusters ∧ 1 ∈ c ∧ 2 ∈ c.
Proof.
  intros rows sim clusters.
  assert (clusters = [ {[0; 1]} ]) as Hcl by (vm_compute; reflexivity).
  split; [|split; [done|]].
  - unfold Deduplicator.similar. vm_compute. discriminate.
  - rewrite Hcl. intros (c & ->%list_elem_of_singleton & _ & H2). set_solver.
Qed.

(** C4 (amended). The clusters returned by [detect_duplicates] are pairwise
    disjoint sets of input indices, each of size at least 2; when the
    vectorisation succeeds, every member of a cluster other than its
    smallest index (the seed) has similarity at least the threshold to
    the seed; and two texts [i < j] with similarity at least the
    threshold appear together in one returned cluster whenever neither of
    them belongs to a cluster that contains an index smaller than [i]
    (greedy, first seen wins). *)
Theorem C4_detect_duplicates_greedy_clusters :
  ∀ (thr : Q) (similarity : list string → option Deduplicator.matrix)
    (articles : list string),
    let clusters := Deduplicator.detect_duplicates thr similarity articles in
    Deduplicator.pairwise_disjoint clusters ∧
    (∀ c, c ∈ clusters → 2 ≤ size c ∧ ∀ x, x ∈ c → x < length articles) ∧
    (∀ sim, similarity articles = Some sim →
       (∀ c, c ∈ clusters →
          ∃ s, s ∈ c ∧ ∀ x, x ∈ c → x = s ∨ (s < x ∧ Deduplicator.similar thr sim s x)) ∧
       (∀ i j, i < j < length articles → Deduplicator.similar thr sim i j →
          (∀ c, c ∈ clusters → (∃ s, s ∈ c ∧ s < i) → (i ∉ c) ∧ (j ∉ c)) →
          ∃ c, c ∈ clusters ∧ i ∈ c ∧ j ∈ c)).
Proof.
  intros thr similarity articles clusters. subst clusters.
  unfold Deduplicator.detect_duplicates.
  destruct (Nat.ltb_spec (length articles) 2) as [Hshort|Hlong].
  { split_and!.
    - intros a b c d Ha. by rewrite lookup_nil in Ha.
    - intros c Hc. by apply elem_of_nil in Hc.
    - intros sim _. split; [intros c Hc; by apply elem_of_nil in Hc|].
      intros i j Hij. lia. }
  destruct (similarity articles) as [sim|] eqn:Hsim; cycle 1.
  { split_and!.
    - intros a b c d Ha. by rewrite lookup_nil in Ha.
    - intros c Hc. by apply elem_of_nil in Hc.
    - intros sim Hsome. discriminate. }
  set (n := length articles).
  pose proof (outer_loop_inv thr sim n n 0 ([], ∅) ltac:(lia) (loop_inv_init thr sim n))
    as [Hproc Hdisj Hcl].
  simpl in Hproc, Hdisj, Hcl.
  split_and!; [done| |].
  - intros c Hc. destruct (Hcl c Hc) as (?&?&?). done.
  - intros sim' [= <-]. split.
    + intros c Hc. destruct (Hcl c Hc) as (_ & _ & s & Hs & _ & Hall). by exists s.
    + intros i j Hij Hs Hfree.
      assert (seq 0 n = seq 0 i ++ i :: seq (S i) (n - S i)) as Hseq.
      { replace n with (i + S (n - S i)) at 1 by lia. by rewrite seq_app. }
      revert Hfree. rewrite Hseq. unfold Deduplicator.outer_loop.
      rewrite foldl_app. cbn [foldl].
      fold (Deduplicator.outer_loop thr sim n ([], ∅) (seq 0 i)).
      set (st := Deduplicator.outer_loop thr sim n ([], ∅) (seq 0 i)).
      fold (Deduplicator.outer_loop thr sim n
              (Deduplicator.outer_step thr sim n st i) (seq (S i) (n - S i))).
      destruct (outer_loop_extends thr sim n (seq (S i) (n - S i))
                  (Deduplicator.outer_step thr sim n st i)) as [ext2 ->].
      destruct (outer_step_extends thr sim n st i) as [ext1 Hext1].
      intros Hfree.
      pose proof (outer_loop_inv thr sim n i 0 ([], ∅) ltac:(lia)
                    (loop_inv_init thr sim n)) as [Hproc_i _ Hcl_i].
      fold st in Hproc_i, Hcl_i. simpl in Hproc_i, Hcl_i.
      assert (∀ x, x = i ∨ x = j → x ∉ st.2) as Hun.
      { intros x Hx HxP. apply Hproc_i in HxP as (c & Hc & Hxc).
        destruct (Hcl_i c Hc) as (_ & _ & s & Hsc & Hlt & _).
        destruct (Hfree c) as [Hic Hjc].
        - rewrite Hext1. apply elem_of_app. left. apply elem_of_app. by left.
        - by exists s.
        - destruct Hx as [->| ->]; done. }
      destruct (outer_step_claims thr sim n st i j) as (c & Hc & Hic & Hjc);
        [by apply Hun; left | by apply Hun; right | done | done |].
      exists c. split; [|done]. apply elem_of_app. by left.
Qed.

Lemma C4_witness :
  let rows := [[1; 0]; [4 # 5; 3 # 5]; [7 # 25; 24 # 25]]%Q in
  let sim := Deduplicator.cosine_of_rows rows in
  let clusters :=
    Deduplicator.detect_duplicates (8 # 10) (λ _, Some sim)
      ["first text"; "second text"; "third text"] in
  ∃ c, c ∈ clusters ∧ 0 ∈ c ∧ 1 ∈ c.
Proof.
  intros rows sim clusters.
  destruct (C4_detect_duplicates_greedy_clusters (8 # 10) (λ _, Some sim)
              ["first text"; "second text"; "third text"]) as (_ & _ & Hsim).
  destruct (Hsim sim eq_refl) as [_ Hpair].
  apply (Hpair 0 1).
  - simpl. lia.
  - unfold Deduplicator.similar. vm_compute. discriminate.
  - intros c _ (s & _ & Hs). lia.
Defined.

(** ** Stable descending sort *)

Section SortFacts.
Import PyList.
Context {A : Type}.
Variable lt : A → A → bool.

Lemma insert_desc_perm x l : insert_desc lt x l ≡ₚ x :: l.
Proof.
  induction l as [|y l IH]; simpl; [done|].
  destruct (lt x y); [|done]. rewrite IH. apply Permutation_swap.
Qed.

Lemma sort_desc_perm l : sort_desc lt l ≡ₚ l.
Proof.
  induction l as [|x l IH]; simpl; [done|].
  by rewrite insert_desc_perm, IH.
Qed.

Hypothesis lt_asym : ∀ x y, lt x y = true → lt y x = false.

Lemma insert_desc_sorted x l :
  Sorted (λ a b, lt a b = false) l → Sorted (λ a b, lt a b = false) (insert_desc lt x l).
Proof.
  induction 1 as [|y l Hl IH Hhd]; simpl.
  - repeat constructor.
  - destruct (lt x y) eqn:Hxy.
    + constructor; [done|]. destruct Hhd as [|z l Hyz]; simpl.
      * constructor. by apply lt_asym.
      * destruct (lt x z); constructor; [done | by apply lt_asym].
    + constructor; [by constructor | by constructor].
Qed.

Lemma sort_desc_sorted l : Sorted (λ a b, lt a b = false) (sort_desc lt l).
Proof.
  induction l as [|x l IH]; simpl; [constructor|]. by apply insert_desc_sorted.
Qed.
End SortFacts.

Lemma Sorted_weaken {A : Type} (R R' : A → A → Prop) (l : list A) :
  (∀ x y, R x y → R' x y) → Sorted R l → Sorted R' l.
Proof.
  intros Himp. induction 1 as [|x l Hl IH Hhd]; constructor; [done|].
  destruct Hhd; constructor. by apply Himp.
Qed.

(** ** KeywordScorer *)

Section KeywordScorerFacts.
Import PyStr PyList KeywordScorer.

Lemma count_of_absent word word_freq :
  word ∉ word_freq.*1 → count_of word word_freq = 0.
Proof.
  induction word_freq as [|[w c] rest IH]; simpl; [done|].
  intros Hnin. apply not_elem_of_cons in Hnin as [Hne Hnin].
  destruct (String.eqb_spec w word); [congruence | by apply IH].
Qed.

Lemma elem_of_table word c word_freq :
  table_ok word_freq →
  (word, c) ∈ word_freq ↔ count_of word word_freq = c ∧ 0 < c.
Proof.
  induction word_freq as [|[w c'] rest IH]; intros [Hnd Hpos]; simpl.
  - split; [by intros ?%elem_of_nil | lia].
  - simpl in Hnd. apply NoDup_cons in Hnd as [Hw Hnd].
    assert (table_ok rest) as Hok.
    { split; [done|]. intros ???. eapply Hpos. by right. }
    rewrite elem_of_cons. destruct (String.eqb_spec w word) as [->|Hne].
    + split.
      * intros [[= ->]|Hin]; [split; [done|]; eapply Hpos; by left|].
        exfalso. apply Hw. apply list_elem_of_fmap. by exists (word, c).
      * intros [-> _]. by left.
    + rewrite <- (IH Hok). split; [|by right].
      intros [[= ? ?]|?]; [congruence|done].
Qed.

Lemma count_of_bump word v word_freq :
  count_of word (bump v word_freq) =
    count_of word word_freq + (if decide (v = word) then 1 else 0).
Proof.
  induction word_freq as [|[w c] rest IH]; simpl.
  - destruct (String.eqb_spec v word); case_decide; congruence || lia.
  - destruct (String.eqb_spec w v) as [->|Hne]; simpl.
    + destruct (String.eqb_spec v word); case_decide; congruence || lia.
    + rewrite IH. destruct (String.eqb_spec w word) as [->|Hne']; [|done].
      case_decide; [congruence|lia].
Qed.

Lemma bump_keys v word_freq :
  (bump v word_freq).*1 =
    if decide (v ∈ word_freq.*1) then word_freq.*1 else word_freq.*1 ++ [v].
Proof.
  induction word_freq as [|[w c] rest IH].
  - rewrite decide_False; [done | by intros ?%elem_of_nil].
  - cbn [bump]. destruct (String.eqb_spec w v) as [->|Hne]; rewrite !fmap_cons; cbn [fst].
    + rewrite decide_True; [done | by left].
    + rewrite IH. destruct (decide (v ∈ rest.*1)) as [Hin|Hnin].
      * rewrite decide_True; [done | by right].
      * rewrite decide_False; [done|]. intros [?|?]%elem_of_cons; congruence.
Qed.

Lemma bump_ok v word_freq : table_ok word_freq → table_ok (bump v word_freq).
Proof.
  intros [Hnd Hpos]. split.
  - rewrite bump_keys. case_decide; [done|].
    apply NoDup_app. split_and!; [done| |apply NoDup_singleton].
    intros w Hw ->%list_elem_of_singleton. done.
  - clear Hnd. induction word_freq as [|[w c] rest IH]; simpl.
    + intros w c [= -> ->]%list_elem_of_singleton. lia.
    + destruct (String.eqb_spec w v) as [->|Hne].
      * intros w' c' [[= -> ->]|Hin]%elem_of_cons; [lia|]. eapply Hpos. by right.
      * intros w' c' [[= -> ->]|Hin]%elem_of_cons.
        -- eapply Hpos. by left.
        -- eapply IH; [|done]. intros ???. eapply Hpos. by right.
Qed.

Lemma count_words_from words : ∀ word_freq,
  table_ok word_freq →
  table_ok (foldl (λ word_freq word, bump word word_freq) word_freq words) ∧
  ∀ word,
    count_of word (foldl (λ word_freq word, bump word word_freq) word_freq words) =
      count_of word word_freq + occurrences word words.
Proof.
  induction words as [|v words IH]; intros word_freq Hok; simpl.
  - split; [done|]. intros word. unfold occurrences. simpl. lia.
  - destruct (IH (bump v word_freq) (bump_ok _ _ Hok)) as [Hok' Hcount].
    split; [done|]. intros word. rewrite Hcount, count_of_bump.
    unfold occurrences. rewrite filter_cons. case_decide; simpl; lia.
Qed.

(** The frequency table: every counted word with its number of
    occurrences, no word twice. *)
Lemma count_words_spec words :
  NoDup (count_words words).*1 ∧
  ∀ word c, (word, c) ∈ count_words words ↔ c = occurrences word words ∧ 0 < c.
Proof.
  assert (table_ok []) as Hnil.
  { split; [constructor | by intros ?? ?%elem_of_nil]. }
  destruct (count_words_from words [] Hnil) as [Hok Hcount].
  fold (count_words words) in Hok, Hcount.
  split; [apply Hok|]. intros word c.
  rewrite (elem_of_table _ _ _ Hok), Hcount. simpl. intuition congruence.
Qed.

Lemma alpha_tokens_spec text w :
  w ∈ alpha_tokens text ↔
    w ∈ runs is_word text ∧ all_chars is_alpha w = true ∧ 4 ≤ len w.
Proof.
  unfold alpha_tokens, is_alpha_token. rewrite list_elem_of_filter.
  rewrite Is_true_true, andb_true_iff, Nat.leb_le. tauto.
Qed.
End KeywordScorerFacts.

(** C8 as stated fails on its own example: a very short text never reaches
    the fallback.  Whatever the vectoriser would do (here it raises),
    [extract_keywords] returns the empty string for a four-word text,
    while the frequency fallback on the same cleaned text yields four
    keywords. *)
Lemma C8_short_text_counterexample :
  let text := "Breaking news: markets rally" in
  KeywordScorer.extract_keywords (λ _, None) text 10 = ([], "") ∧
  KeywordScorer._extract_keywords_fallback (KeywordScorer.clean_text text) 10
    = "breaking, news, markets, rally".
Proof. split; reflexivity. Qed.

(** C8 (amended). When the cleaned text has at least 10 words and the
    vectoriser raises, [extract_keywords] calls the fallback and returns
    its result: the first [max_keywords] words, joined by [", "], of the
    frequency table of the lower-cased cleaned text.  The table has one
    entry per counted word, with its number of occurrences; the counted
    words are the maximal runs of word characters that consist of at
    least 4 letters and are not in the stop list; the table is in
    descending order of count. *)
Theorem C8_fallback_when_vectoriser_raises :
  ∀ (tfidf : string → option (list (string * Q))) (text : string) (max_keywords : nat),
    10 ≤ length (PyStr.split (KeywordScorer.clean_text text)) →
    tfidf (KeywordScorer.clean_text text) = None →
    let cleaned := KeywordScorer.clean_text text in
    let counted := KeywordScorer.filtered_words cleaned in
    let ranked := KeywordScorer.sorted_words cleaned in
    KeywordScorer.extract_keywords tfidf text max_keywords =
      ([KeywordScorer.FitTransform; KeywordScorer.Fallback],
       PyStr.join ", " (take max_keywords ranked).*1) ∧
    length (take max_keywords ranked) ≤ max_keywords ∧
    NoDup ranked.*1 ∧
    (∀ w c, (w, c) ∈ ranked ↔ c = KeywordScorer.occurrences w counted ∧ 0 < c) ∧
    (∀ w, w ∈ counted ↔
       w ∈ PyStr.runs PyStr.is_word (PyStr.lower cleaned) ∧
       PyStr.all_chars PyStr.is_alpha w = true ∧ 4 ≤ PyStr.len w ∧
       w ∉ KeywordScorer.stop_words) ∧
    Sorted (λ a b, b.2 ≤ a.2) ranked.
Proof.
  intros tfidf text max_keywords Hlen Hraise cleaned counted ranked.
  assert (ranked ≡ₚ KeywordScorer.count_words counted) as Hperm
    by apply sort_desc_perm.
  destruct (count_words_spec counted) as [Hnd Hcount].
  split_and!.
  - unfold KeywordScorer.extract_keywords.
    destruct (Nat.ltb_spec (length (PyStr.split (KeywordScorer.clean_text text))) 10);
      [lia|].
    by rewrite Hraise.
  - rewrite length_take. lia.
  - by rewrite Hperm.
  - intros w c. by rewrite Hperm.
  - intros w. unfold counted, KeywordScorer.filtered_words.
    rewrite list_elem_of_filter, alpha_tokens_spec. tauto.
  - eapply Sorted_weaken; [|apply sort_desc_sorted].
    + intros a b Hab. simpl in Hab. by apply Nat.ltb_ge in Hab.
    + intros x y Hxy. apply Nat.ltb_lt in Hxy. apply Nat.ltb_ge. lia.
Qed.

Lemma C8_witness :
  let text := "Markets rally as markets cheer the central bank decision on interest rates" in
  KeywordScorer.extract_keywords (λ _, None) text 3 =
    ([KeywordScorer.FitTransform; KeywordScorer.Fallback], "markets, rally, cheer").
Proof.
  intros text.
  assert (10 ≤ length (PyStr.split (KeywordScorer.clean_text text))) as Hlen
    by (vm_compute; lia).
  destruct (C8_fallback_when_vectoriser_raises (λ _, None) text 3 Hlen eq_refl)
    as [Hres _].
  rewrite Hres. reflexivity.
Defined.

(** C10. A text whose cleaned form has fewer than 10 whitespace-separated
    words yields the empty string; neither the vectoriser nor the
    frequency fallback is called, and nothing is raised. *)
Theorem C10_short_text_returns_empty :
  ∀ (tfidf : string → option (list (string * Q))) (text : string) (max_keywords : nat),
    length (PyStr.split (KeywordScorer.clean_text text)) < 10 →
    KeywordScorer.extract_keywords tfidf text max_keywords = ([], "").
Proof.
  intros tfidf text max_keywords Hshort. unfold KeywordScorer.extract_keywords.
  by destruct (Nat.ltb_spec (length (PyStr.split (KeywordScorer.clean_text text))) 10);
    [|lia].
Qed.

Lemma C10_witness :
  KeywordScorer.extract_keywords (λ _, None) "<p>Too  short   to tag</p>" 10 = ([], "").
Proof.
  apply C10_short_text_returns_empty. vm_compute. lia.
Defined.

(** ** Link discovery *)

Section LinkDiscoveryFacts.
Import PyStr LinkDiscovery.
Variable urljoin : string → string → option string.
Variable urlparse : string → option (string * string).
Variable base_url : string.
Variable max_articles : nat.

Abbreviation valid := (_is_valid_article_url urlparse base_url).
Abbreviation gather := (LinkDiscovery.gather urljoin urlparse base_url).

Abbreviation discovered := (LinkDiscovery.discovered urljoin urlparse base_url).

Lemma gather_sound elements : ∀ links url,
  url ∈ gather elements links → url ∈ links ∨ discovered elements url.
Proof.
  induction elements as [|[href|] rest IH]; intros links url Hin; simpl in Hin.
  - by left.
  - assert (∀ l, url ∈ gather rest l → url ∈ l ∨ discovered (Some href :: rest) url)
      as IH'.
    { intros l [?|(h & ? & ? & ? & ?)]%IH; [by left|right].
      exists h. split_and!; [by right|done..]. }
    destruct (is_empty href) eqn:Hempty; [by apply IH'|].
    destruct (urljoin base_url href) as [full_url|] eqn:Hjoin; [|by left].
    destruct (valid full_url) eqn:Hvalid; [|by apply IH'].
    apply IH' in Hin as [[Hin| ->%list_elem_of_singleton]%elem_of_app|Hd];
      [by left| |by right].
    right. exists href. split_and!; [by left| |done|done].
    intros ->. discriminate.
  - apply IH in Hin as [?|(h & ? & ? & ? & ?)]; [by left|right].
    exists h. split_and!; [by right|done..].
Qed.

Lemma gather_keeps elements : ∀ links url, url ∈ links → url ∈ gather elements links.
Proof.
  induction elements as [|[href|] rest IH]; intros links url Hin; simpl; [done| |by apply IH].
  destruct (is_empty href); [by apply IH|].
  destruct (urljoin base_url href) as [full_url|]; [|done].
  destruct (valid full_url); apply IH; [|done]. apply elem_of_app. by left.
Qed.

Lemma gather_complete elements :
  (∀ href, Some href ∈ elements → is_Some (urljoin base_url href)) →
  ∀ links url, discovered elements url → url ∈ gather elements links.
Proof.
  induction elements as [|[href|] rest IH]; intros Hjoin links url (h & Hh & Hne & Hu & Hv).
  - by apply elem_of_nil in Hh.
  - assert (∀ l, discovered rest url → url ∈ gather rest l) as IH'.
    { intros l. apply IH. intros ??. apply Hjoin. by right. }
    simpl. apply elem_of_cons in Hh as [[= <-]|Hh].
    + destruct (is_empty h) eqn:Hempty; [by apply is_empty_spec in Hempty|].
      rewrite Hu, Hv. apply gather_keeps. apply elem_of_app. right. by left.
    + assert (discovered rest url) as Hd by (exists h; done).
      destruct (is_empty href); [by apply IH'|].
      destruct (Hjoin href ltac:(by left)) as [full_url ->].
      destruct (valid full_url); by apply IH'.
  - simpl. apply IH; [intros ??; apply Hjoin; by right|].
    apply elem_of_cons in Hh as [?|Hh]; [done|]. by exists h.
Qed.

Lemma gather_length elements : ∀ links,
  length (gather elements links) ≤ length links + length elements.
Proof.
  induction elements as [|[href|] rest IH]; intros links; simpl; [lia| |].
  - destruct (is_empty href); [specialize (IH links); lia|].
    destruct (urljoin base_url href) as [full_url|]; [|lia].
    destruct (valid full_url); [|specialize (IH links); lia].
    specialize (IH (links ++ [full_url])). rewrite length_app in IH. simpl in IH. lia.
  - specialize (IH links). lia.
Qed.

(** [list(set(links))] holds each link once and is no longer than [links]. *)
Lemma distinct_length (links : list string) :
  length (elements (list_to_set links : gset string)) ≤ length links.
Proof.
  apply submseteq_length, NoDup_submseteq; [apply NoDup_elements|].
  intros url. rewrite elem_of_elements, elem_of_list_to_set. done.
Qed.

(** A URL in which one of the patterns occurs is refused. *)
Lemma pattern_rejects url pattern :
  pattern ∈ invalid_patterns → substring pattern (lower url) → valid url = false.
Proof.
  intros Hp Hsub. unfold _is_valid_article_url.
  destruct (urlparse url) as [[scheme netloc]|]; [|done].
  destruct (is_empty scheme || is_empty netloc); [done|].
  destruct (urlparse base_url) as [[? base_netloc]|]; [|done].
  destruct (_ && _); [done|].
  apply negb_false_iff, existsb_exists. exists pattern.
  split; [by apply list_elem_of_In|]. by apply contains_spec.
Qed.

(** The loop does on all the elements what it does on those it reaches,
    and on those [urljoin] never raises. *)
Lemma gather_reached elements : ∀ links,
  gather elements links = gather (LinkDiscovery.reached urljoin base_url elements) links.
Proof.
  induction elements as [|[href|] rest IH]; intros links; simpl; [done| |apply IH].
  destruct (is_empty href) eqn:Hempty; simpl; [by rewrite Hempty|].
  destruct (urljoin base_url href) as [full_url|] eqn:Hjoin; simpl; [|done].
  rewrite Hempty, Hjoin. destruct (valid full_url); apply IH.
Qed.

Lemma reached_resolves elements href :
  Some href ∈ LinkDiscovery.reached urljoin base_url elements → href ≠ "" →
  is_Some (urljoin base_url href).
Proof.
  induction elements as [|[h|] rest IH]; simpl.
  - by intros ?%elem_of_nil.
  - destruct (is_empty h) eqn:Hempty.
    + intros [[= ->]|Hin]%elem_of_cons Hne; [|by apply IH].
      by apply is_empty_spec in Hempty.
    + destruct (urljoin base_url h) as [full_url|] eqn:Hjoin;
        [|by intros ?%elem_of_nil].
      intros [[= ->]|Hin]%elem_of_cons Hne; [by rewrite Hjoin|by apply IH].
  - intros [?|Hin]%elem_of_cons Hne; [done|by apply IH].
Qed.

Lemma reached_all elements :
  (∀ href, Some href ∈ elements → href ≠ "" → is_Some (urljoin base_url href)) →
  LinkDiscovery.reached urljoin base_url elements = elements.
Proof.
  induction elements as [|[h|] rest IH]; intros Hjoin; simpl; [done| |].
  - assert (LinkDiscovery.reached urljoin base_url rest = rest) as ->
      by (apply IH; intros href ?; apply Hjoin; by right).
    destruct (is_empty h) eqn:Hempty; [done|].
    destruct (Hjoin h ltac:(by left)) as [full_url ->]; [|done].
    intros ->. discriminate.
  - f_equal. apply IH. intros href ?. apply Hjoin. by right.
Qed.

Lemma reached_prefix elements :
  ∃ rest, elements = LinkDiscovery.reached urljoin base_url elements ++ rest.
Proof.
  induction elements as [|[h|] tail [rest IH]]; simpl.
  - by exists [].
  - destruct (is_empty h); [exists rest; cbn [app]; by f_equal|].
    destruct (urljoin base_url h); [exists rest; cbn [app]; by f_equal|].
    by exists (Some h :: tail).
  - exists rest. cbn [app]. by f_equal.
Qed.

(** Complete on the elements reached, whatever [urljoin] does later. *)
Lemma gather_complete_reached elements links url :
  discovered (LinkDiscovery.reached urljoin base_url elements) url →
  url ∈ gather elements links.
Proof.
  intros (h & Hh & Hne & Hu & Hv). rewrite gather_reached.
  assert (∀ l (acc : list string),
            (∀ href, Some href ∈ l → href ≠ "" → is_Some (urljoin base_url href)) →
            Some h ∈ l → url ∈ gather l acc) as Hgen.
  { induction l as [|[href|] rest IH]; intros acc Hjoin Hin.
    - by apply elem_of_nil in Hin.
    - simpl. apply elem_of_cons in Hin as [[= <-]|Hin].
      + destruct (is_empty h) eqn:Hempty; [by apply is_empty_spec in Hempty|].
        rewrite Hu, Hv. apply gather_keeps. apply elem_of_app. right. by left.
      + assert (∀ acc', url ∈ gather rest acc') as IH'
          by (intros acc'; apply IH; [intros ? ? ?; apply Hjoin; [by right|done]|done]).
        destruct (is_empty href) eqn:Hempty; [apply IH'|].
        destruct (Hjoin href ltac:(by left)) as [full_url ->].
        { intros ->. discriminate. }
        destruct (valid full_url); apply IH'.
    - simpl. apply elem_of_cons in Hin as [?|Hin]; [done|].
      apply IH; [intros ? ? ?; apply Hjoin; [by right|done]|done]. }
  apply Hgen; [|done]. intros href. apply reached_resolves.
Qed.

Lemma valid_has_scheme_and_host url :
  valid url = true →
  ∃ scheme netloc, urlparse url = Some (scheme, netloc) ∧ scheme ≠ "" ∧ netloc ≠ "".
Proof.
  unfold _is_valid_article_url.
  destruct (urlparse url) as [[scheme netloc]|]; [|done].
  destruct (is_empty scheme) eqn:Hs; [done|].
  destruct (is_empty netloc) eqn:Hn; [done|]. intros _.
  exists scheme, netloc. split_and!; [done|..]; intros ->; discriminate.
Qed.
End LinkDiscoveryFacts.

(** C9 as stated fails: the cap is applied to the matched elements before
    their links are resolved, filtered and deduplicated, not to the final
    list.  With [max_articles = 1] and a video link ahead of an article
    link the code returns nothing, while the specified pipeline returns
    the article link. *)
Lemma C9_cap_before_filter_counterexample :
  let hrefs := [Some "https://example.com/video/clip";
                Some "https://example.com/news/story"] in
  LinkDiscovery.extract_article_links LinkDiscovery.urljoin_absolute
    LinkDiscovery.urlparse_simple "https://example.com" 1 (Some hrefs) = [] ∧
  LinkDiscovery.discovery_as_specified LinkDiscovery.urljoin_absolute
    LinkDiscovery.urlparse_simple "https://example.com" 1 hrefs
    = ["https://example.com/news/story"].
Proof. split; vm_compute; reflexivity. Qed.

(** C9 (amended). Link discovery returns, each once and in an order of the
    implementation's choosing, the links that pass the validity rule among
    the resolved non-empty hrefs of the elements it examines.  The
    elements examined are the first [max_articles] elements matching the
    selector, up to the first one (if any) whose non-empty href [urljoin]
    cannot resolve: that element ends the loop.  When [urljoin] resolves
    every such href they are all of the first [max_articles] elements;
    when the selector is refused there are none.  Hence no returned link
    is refused by the validity rule (none contains a refused pattern such
    as [/video/], [javascript:] or [mailto:], each has a scheme and a
    host), the list holds no duplicates and at most [max_articles]
    links. *)
Theorem C9_extract_article_links_valid_distinct_capped :
  ∀ (urljoin : string → string → option string)
    (urlparse : string → option (string * string))
    (base_url : string) (max_articles : nat)
    (selected : option (list (option string))),
    let valid := LinkDiscovery._is_valid_article_url urlparse base_url in
    let result :=
      LinkDiscovery.extract_article_links urljoin urlparse base_url max_articles selected in
    let examined := LinkDiscovery.examined urljoin base_url max_articles selected in
    NoDup result ∧
    length result ≤ max_articles ∧
    (∀ url, valid url = false → url ∉ result) ∧
    (∀ url pattern,
       pattern ∈ LinkDiscovery.invalid_patterns →
       PyStr.substring pattern (PyStr.lower url) → url ∉ result) ∧
    (∀ url, url ∈ result →
       ∃ scheme netloc, urlparse url = Some (scheme, netloc) ∧ scheme ≠ "" ∧ netloc ≠ "") ∧
    (∀ url, url ∈ result ↔
       ∃ href, Some href ∈ examined ∧ href ≠ "" ∧
               urljoin base_url href = Some url ∧ valid url = true) ∧
    (∀ elements,
       selected = Some elements →
       (∃ rest, take max_articles elements = examined ++ rest) ∧
       (∀ href, Some href ∈ examined → href ≠ "" → is_Some (urljoin base_url href)) ∧
       ((∀ href, Some href ∈ take max_articles elements → href ≠ "" →
                 is_Some (urljoin base_url href)) →
        examined = take max_articles elements)) ∧
    (selected = None → examined = [] ∧ result = []).
Proof.
  intros urljoin urlparse base_url max_articles selected valid result examined.
  subst valid.
  assert (∀ url, url ∈ result →
            LinkDiscovery._is_valid_article_url urlparse base_url url = true) as Hvalid.
  { intros url. unfold result, LinkDiscovery.extract_article_links.
    rewrite elem_of_elements, elem_of_list_to_set.
    destruct selected as [elements|]; [|by intros ?%elem_of_nil].
    intros [?%elem_of_nil|(h & _ & _ & _ & Hv)]%gather_sound; done. }
  split_and!.
  - apply NoDup_elements.
  - unfold result, LinkDiscovery.extract_article_links.
    etrans; [apply distinct_length|].
    destruct selected as [elements|]; [|simpl; lia].
    etrans; [apply gather_length|]. rewrite length_take. simpl. lia.
  - intros url Hno Hin. apply Hvalid in Hin. congruence.
  - intros url pattern Hp Hsub Hin. apply Hvalid in Hin.
    pose proof (pattern_rejects urlparse base_url url pattern Hp Hsub). congruence.
  - intros url Hin. by apply valid_has_scheme_and_host with base_url, Hvalid.
  - intros url. unfold result, examined, LinkDiscovery.extract_article_links,
      LinkDiscovery.examined.
    rewrite elem_of_elements, elem_of_list_to_set.
    destruct selected as [elements|].
    + split.
      * rewrite gather_reached.
        intros [?%elem_of_nil|Hd]%gather_sound; done.
      * intros Hd. by apply gather_complete_reached.
    + split; [by intros ?%elem_of_nil|]. by intros (h & ?%elem_of_nil & _).
  - intros elements ->. unfold examined, LinkDiscovery.examined. split_and!.
    + apply reached_prefix.
    + intros href. apply reached_resolves.
    + apply reached_all.
  - intros ->. split; [done|].
    unfold result, LinkDiscovery.extract_article_links.
    by rewrite list_to_set_nil, elements_empty.
Qed.

Lemma C9_witness :
  let urljoin base href :=
    if PyStr.contains "[" href then None else Some href in
  let selected :=
    Some [Some "https://example.com/video/clip";
          Some "https://example.com/news/story";
          Some "http://[bad";
          Some "https://example.com/news/later"] in
  LinkDiscovery.examined urljoin "https://example.com" 4 selected
    = [Some "https://example.com/video/clip"; Some "https://example.com/news/story"] ∧
  "https://example.com/news/story" ∈
    LinkDiscovery.extract_article_links urljoin LinkDiscovery.urlparse_simple
      "https://example.com" 4 selected ∧
  "https://example.com/news/later" ∉
    LinkDiscovery.extract_article_links urljoin LinkDiscovery.urlparse_simple
      "https://example.com" 4 selected.
Proof.
  intros urljoin selected.
  destruct (C9_extract_article_links_valid_distinct_capped
              urljoin LinkDiscovery.urlparse_simple "https://example.com" 4 selected)
    as (_ & _ & _ & _ & _ & Hiff & _ & _).
  assert (LinkDiscovery.examined urljoin "https://example.com" 4 selected
          = [Some "https://example.com/video/clip"; Some "https://example.com/news/story"])
    as Hexamined by reflexivity.
  split; [exact Hexamined|]. split.
  - apply Hiff. exists "https://example.com/news/story".
    split; [rewrite Hexamined; apply list_elem_of_further, list_elem_of_here|].
    split; [discriminate|].
    split; [reflexivity|].
    vm_compute; reflexivity.
  - intros (href & Hin & _ & Hjoin & _)%Hiff. rewrite Hexamined in Hin.
    apply elem_of_cons in Hin as [[= ->]|Hin]; [vm_compute in Hjoin; discriminate Hjoin|].
    apply elem_of_cons in Hin as [[= ->]|Hin]; [vm_compute in Hjoin; discriminate Hjoin|].
    by apply elem_of_nil in Hin.
Defined.

(** ** TrendEngine: recency *)

Section RecencyFacts.
Import TrendEngine.
Variable now : Q.
Variable fromisoformat : string → option Q.

Abbreviation recency_of := (TrendEngine.recency_of now fromisoformat).

Lemma scores_loop (timestamps : list string) : ∀ scores,
  foldl (λ scores timestamp_str, scores ++ [recency_of timestamp_str]) scores timestamps
  = scores ++ (recency_of <$> timestamps).
Proof.
  induction timestamps as [|ts timestamps IH]; intros scores; simpl.
  - by rewrite app_nil_r.
  - rewrite IH. by rewrite <- app_assoc.
Qed.

Lemma sum_from (l : list Q) : ∀ a, (foldl Qplus a l == a + total l)%Q.
Proof.
  induction l as [|x l IH]; intros a; simpl.
  - ring.
  - rewrite IH. ring.
Qed.

Lemma sum_total (l : list Q) : (sum l == total l)%Q.
Proof. unfold sum. rewrite sum_from. ring. Qed.

Lemma recency_score_mean (timestamps : list string) :
  timestamps ≠ [] →
  (_calculate_recency_score now fromisoformat timestamps
   == mean (recency_of <$> timestamps))%Q.
Proof.
  intros Hne. unfold _calculate_recency_score, mean.
  rewrite bool_decide_false by done. rewrite scores_loop. simpl.
  rewrite bool_decide_false.
  - by rewrite sum_total.
  - rewrite length_fmap. by destruct timestamps.
Qed.

Lemma hours_over_day (hours : Q) : (hours / 24 == hours * (1 # 24))%Q.
Proof. reflexivity. Qed.

Lemma recency_of_parsed ts t :
  fromisoformat ts = Some t →
  recency_of ts = Qmax 0 (1 - hours_since now t / 24).
Proof. unfold TrendEngine.recency_of, hours_since. by intros ->. Qed.

Lemma decay_now (hours : Q) : (hours == 0 → Qmax 0 (1 - hours / 24) == 1)%Q.
Proof.
  intros H0. rewrite Q.max_r; rewrite hours_over_day, H0; [ring|].
  discriminate.
Qed.

Lemma decay_old (hours : Q) : (24 <= hours → Qmax 0 (1 - hours / 24) == 0)%Q.
Proof.
  intros Hold. apply Q.max_l. rewrite hours_over_day. lra.
Qed.

Lemma decay_linear (hours : Q) : (hours <= 24 → Qmax 0 (1 - hours / 24) == 1 - hours / 24)%Q.
Proof.
  intros Hyoung. apply Q.max_r. rewrite hours_over_day. lra.
Qed.
End RecencyFacts.

(** C3. For a non-empty list of timestamps the recency score is the mean
    of the scores of the timestamps, where a timestamp that does not
    parse scores 0 and one that parses scores
    [max(0, 1 - hours_since / 24)]: 1 when it equals the current time, 0
    when it is 24 hours old or older, and [1 - hours_since / 24] in
    between. *)
Theorem C3_recency_score_mean_of_linear_decay :
  ∀ (now : Q) (fromisoformat : string → option Q) (timestamps : list string),
    timestamps ≠ [] →
    let score := TrendEngine.recency_of now fromisoformat in
    (TrendEngine._calculate_recency_score now fromisoformat timestamps
     == TrendEngine.mean (score <$> timestamps))%Q ∧
    (∀ ts, fromisoformat ts = None → score ts = 0%Q) ∧
    (∀ ts t, fromisoformat ts = Some t →
       let hours := TrendEngine.hours_since now t in
       score ts = Qmax 0 (1 - hours / 24) ∧
       (t == now → score ts == 1)%Q ∧
       (24 <= hours → score ts == 0)%Q ∧
       (0 <= hours <= 24 → score ts == 1 - hours / 24)%Q).
Proof.
  intros now fromisoformat timestamps Hne score. split_and!.
  - by apply recency_score_mean.
  - intros ts Hts. unfold score, TrendEngine.recency_of. by rewrite Hts.
  - intros ts t Hts hours. unfold score.
    rewrite (recency_of_parsed now fromisoformat ts t Hts). fold hours.
    split_and!; [done| | |].
    + intros Ht. apply decay_now. unfold hours, TrendEngine.hours_since.
      rewrite Ht. unfold Qdiv. ring.
    + apply decay_old.
    + intros [_ Hle]. by apply decay_linear.
Qed.

Lemma C3_witness :
  (TrendEngine._calculate_recency_score 1709294400 TrendEngine.fromisoformat_sqlite
     ["2024-03-01 12:00:00"; "2024-03-01 00:00:00"; "2024-02-29 12:00:00"; "not a date"]
   == 3 # 8)%Q.
Proof.
  destruct (C3_recency_score_mean_of_linear_decay 1709294400
              TrendEngine.fromisoformat_sqlite
              ["2024-03-01 12:00:00"; "2024-03-01 00:00:00"; "2024-02-29 12:00:00";
               "not a date"]) as [Hmean _].
  - discriminate.
  - rewrite Hmean. vm_compute. reflexivity.
Defined.

(** ** TrendEngine: the two empty results *)

(** C7 as stated fails: the value returned for too few articles is the
    value returned after a fault, the empty list; nothing in it tells the
    two apart. *)
Lemma C7_same_empty_result_counterexample :
  let analyse recent :=
    TrendEngine.get_trending_topics TrendEngine.fallback_stopwords 1709294400
      TrendEngine.fromisoformat_sqlite recent 3 10 in
  (analyse (TrendEngine.Returns [])).2 = [] ∧
  (analyse (TrendEngine.Raises "database is locked")).2 = [] ∧
  (analyse (TrendEngine.Returns [])).2
    = (analyse (TrendEngine.Raises "database is locked")).2.
Proof. split_and!; reflexivity. Qed.

(** C7 (amended). With fewer than [min_articles] recent articles
    [get_trending_topics] returns the empty list and logs a warning; when
    an exception is raised inside the [try] block it returns the empty
    list too and logs an error: the exception is not propagated, and the
    two returned values are equal (only the log records differ). *)
Theorem C7_too_few_and_fault_both_return_empty :
  ∀ (stopwords : list string) (now : Q) (fromisoformat : string → option Q)
    (arts : list TrendEngine.article) (message : string)
    (min_articles max_topics : nat),
    length arts < min_articles →
    let analyse recent :=
      TrendEngine.get_trending_topics stopwords now fromisoformat recent
        min_articles max_topics in
    analyse (TrendEngine.Returns arts)
      = ([TrendEngine.NotEnoughArticles (length arts)], []) ∧
    analyse (TrendEngine.Raises message)
      = ([TrendEngine.ErrorGettingTopics message], []) ∧
    (analyse (TrendEngine.Returns arts)).2 = (analyse (TrendEngine.Raises message)).2 ∧
    (analyse (TrendEngine.Returns arts)).1 ≠ (analyse (TrendEngine.Raises message)).1.
Proof.
  intros stopwords now fromisoformat arts message min_articles max_topics Hfew analyse.
  unfold analyse, TrendEngine.get_trending_topics.
  destruct (Nat.ltb_spec (length arts) min_articles); [|lia].
  split_and!; [done|done|done|]. simpl. discriminate.
Qed.

Lemma C7_witness :
  let arts :=
    [ TrendEngine.Build_article 1 "Election results"
        "Voters await the election outcome." "Example News"
        "2024-03-01 11:00:00" 0 "neutral" ] in
  TrendEngine.get_trending_topics TrendEngine.fallback_stopwords 1709294400
    TrendEngine.fromisoformat_sqlite (TrendEngine.Returns arts) 3 10
  = ([TrendEngine.NotEnoughArticles 1], []).
Proof.
  intros arts.
  assert (length arts < 3) as Hfew by (simpl; lia).
  destruct (C7_too_few_and_fault_both_return_empty TrendEngine.fallback_stopwords
              1709294400 TrendEngine.fromisoformat_sqlite arts "database is locked"
              3 10 Hfew) as [Hreturn _].
  exact Hreturn.
Defined.

(** ** TrendEngine: the trending filter *)

(** C1 fails on the code.  Of three recent articles one has "election" in
    its title (weight 2) and once in its body (weight 1): the weighted
    count 3 passes [data['count'] >= min_articles] with [min_articles = 3]
    and the keyword is returned as a topic, although a single article
    contributes to it. *)
Lemma C1_weighted_count_passes_filter :
  let arts :=
    [ TrendEngine.Build_article 1 "Election results"
        "Voters await the election outcome." "Example News"
        "2024-03-01 11:00:00" 0 "neutral";
      TrendEngine.Build_article 2 "Storm warning"
        "Heavy rain is expected tonight." "Example News"
        "2024-03-01 10:00:00" 0 "neutral";
      TrendEngine.Build_article 3 "Transfer rumours"
        "The club denies any talks." "Example News"
        "2024-03-01 09:00:00" 0 "neutral" ] in
  let topics :=
    (TrendEngine.get_trending_topics TrendEngine.fallback_stopwords 1709294400
       TrendEngine.fromisoformat_sqlite (TrendEngine.Returns arts) 3 10).2 in
  (λ t, (TrendEngine.keyword t, TrendEngine.frequency t, TrendEngine.articles_count t))
    <$> topics = [("election", 3, 1)] ∧
  ¬ Forall (λ t, 3 ≤ TrendEngine.articles_count t) topics.
Proof.
  intros arts topics.
  assert ((λ t, (TrendEngine.keyword t, TrendEngine.frequency t,
                 TrendEngine.articles_count t)) <$> topics = [("election", 3, 1)])
    as Hshape by (vm_compute; reflexivity).
  split; [done|].
  destruct topics as [|t [|]]; try discriminate Hshape.
  injection Hshape as _ _ Hcount.
  intros Hall. apply Forall_cons in Hall as [Hle _]. lia.
Qed.

(** ** TrendEngine: aggregation *)

Section AggregationFacts.
Import TrendEngine.
Variable stopwords : list string.

Abbreviation all_keywords_of := (TrendEngine.all_keywords_of stopwords).
Abbreviation add_article := (TrendEngine.add_article stopwords).
Abbreviation accumulate := (TrendEngine.accumulate stopwords).
Abbreviation contributing := (TrendEngine.contributing stopwords).
Abbreviation entry_of := (TrendEngine.entry_of stopwords).

Lemma lookup_update k k' f data :
  lookup_entry k (update k' f data) =
    if decide (k = k') then Some (f (default empty_entry (lookup_entry k data)))
    else lookup_entry k data.
Proof.
  induction data as [|[k0 e0] rest IH]; simpl.
  - destruct (String.eqb_spec k' k); case_decide; congruence.
  - destruct (String.eqb_spec k0 k') as [->|Hne]; simpl.
    + destruct (String.eqb_spec k' k); case_decide; simpl; congruence.
    + rewrite IH. destruct (String.eqb_spec k0 k) as [->|Hne']; [|done].
      by rewrite decide_False.
Qed.

Lemma update_keys k f data :
  (update k f data).*1 = if decide (k ∈ data.*1) then data.*1 else data.*1 ++ [k].
Proof.
  induction data as [|[k0 e0] rest IH].
  - rewrite decide_False; [done | by intros ?%elem_of_nil].
  - cbn [update]. destruct (String.eqb_spec k0 k) as [->|Hne]; rewrite !fmap_cons; cbn [fst].
    + rewrite decide_True; [done | by left].
    + rewrite IH. destruct (decide (k ∈ rest.*1)) as [Hin|Hnin].
      * rewrite decide_True; [done | by right].
      * rewrite decide_False; [done|]. intros [?|?]%elem_of_cons; congruence.
Qed.

Lemma update_NoDup k f data : NoDup data.*1 → NoDup (update k f data).*1.
Proof.
  intros Hnd. rewrite update_keys. case_decide; [done|].
  apply NoDup_app. split_and!; [done| |apply NoDup_singleton].
  by intros w Hw ->%list_elem_of_singleton.
Qed.

Lemma lookup_absent k data : k ∉ data.*1 → lookup_entry k data = None.
Proof.
  induction data as [|[k0 e0] rest IH]; simpl; [done|].
  intros [Hne Hnin]%not_elem_of_cons.
  destruct (String.eqb_spec k0 k); [congruence | by apply IH].
Qed.

Lemma elem_of_lookup k e data :
  NoDup data.*1 → (k, e) ∈ data ↔ lookup_entry k data = Some e.
Proof.
  induction data as [|[k0 e0] rest IH]; simpl; intros Hnd.
  - split; [by intros ?%elem_of_nil | done].
  - apply NoDup_cons in Hnd as [Hk0 Hnd]. rewrite elem_of_cons.
    destruct (String.eqb_spec k0 k) as [->|Hne].
    + split; [|intros [= ->]; by left].
      intros [[= ->]|Hin]; [done|]. exfalso. apply Hk0.
      apply list_elem_of_fmap. by exists (k, e).
    + rewrite <- (IH Hnd). split; [|by right].
      intros [[= ? ?]|?]; [congruence|done].
Qed.

(** The inner loop over the distinct keywords of one article. *)
Lemma record_loop (g : string → keyword_entry → keyword_entry) ks : ∀ data k,
  NoDup ks →
  lookup_entry k (foldl (λ data keyword, update keyword (g keyword) data) data ks) =
    if decide (k ∈ ks) then Some (g k (default empty_entry (lookup_entry k data)))
    else lookup_entry k data.
Proof.
  induction ks as [|k0 ks IH]; intros data k Hnd; cbn [foldl].
  - rewrite decide_False; [done | by intros ?%elem_of_nil].
  - apply NoDup_cons in Hnd as [Hk0 Hnd]. rewrite (IH _ _ Hnd), lookup_update.
    destruct (decide (k = k0)) as [->|Hne].
    + rewrite decide_False by done. rewrite decide_True; [done | by left].
    + destruct (decide (k ∈ ks)) as [Hin|Hnin].
      * rewrite decide_True; [done | by right].
      * rewrite decide_False; [done|]. intros [?|?]%elem_of_cons; congruence.
Qed.

Lemma record_loop_NoDup (g : string → keyword_entry → keyword_entry) ks : ∀ data,
  NoDup data.*1 →
  NoDup (foldl (λ data keyword, update keyword (g keyword) data) data ks).*1.
Proof.
  induction ks as [|k0 ks IH]; intros data Hnd; simpl; [done|].
  apply IH. by apply update_NoDup.
Qed.

Lemma add_article_lookup data a k :
  lookup_entry k (add_article data a) =
    if decide (k ∈ all_keywords_of a)
    then Some (record_article a (all_keywords_of a) k
                 (default empty_entry (lookup_entry k data)))
    else lookup_entry k data.
Proof.
  unfold TrendEngine.add_article. rewrite record_loop by apply NoDup_remove_dups.
  destruct (decide (k ∈ all_keywords_of a)) as [Hin|Hnin].
  - rewrite decide_True; [done | by apply elem_of_remove_dups].
  - rewrite decide_False; [done | by rewrite elem_of_remove_dups].
Qed.

Lemma accumulate_snoc arts a :
  accumulate (arts ++ [a]) = add_article (accumulate arts) a.
Proof. unfold TrendEngine.accumulate. by rewrite foldl_app. Qed.

Lemma accumulate_NoDup arts : NoDup (accumulate arts).*1.
Proof.
  induction arts as [|a arts IH] using rev_ind; [constructor|].
  rewrite accumulate_snoc. by apply record_loop_NoDup.
Qed.

Lemma contributing_snoc k arts a :
  contributing k (arts ++ [a]) =
    contributing k arts ++ (if decide (k ∈ all_keywords_of a) then [a] else []).
Proof.
  unfold TrendEngine.contributing. by rewrite filter_app.
Qed.

Lemma entry_of_snoc k arts a :
  k ∈ all_keywords_of a →
  entry_of k (arts ++ [a]) = record_article a (all_keywords_of a) k (entry_of k arts).
Proof.
  intros Hin. unfold TrendEngine.entry_of, record_article, weighted_count.
  rewrite contributing_snoc. destruct (decide (k ∈ all_keywords_of a)); [|done].
  rewrite !fmap_app, sum_list_with_app. simpl. f_equal. lia.
Qed.

Lemma entry_of_skip k arts a :
  k ∉ all_keywords_of a → entry_of k (arts ++ [a]) = entry_of k arts.
Proof.
  intros Hnin. unfold TrendEngine.entry_of, weighted_count.
  rewrite contributing_snoc. destruct (decide (k ∈ all_keywords_of a)); [done|].
  by rewrite app_nil_r.
Qed.

Lemma entry_of_none k arts : contributing k arts = [] → entry_of k arts = empty_entry.
Proof.
  intros Hnone. unfold TrendEngine.entry_of, weighted_count. by rewrite Hnone.
Qed.

(** What the loop over the articles leaves in [keyword_data]. *)
Lemma accumulate_lookup arts k :
  lookup_entry k (accumulate arts) =
    if decide (contributing k arts = []) then None else Some (entry_of k arts).
Proof.
  induction arts as [|a arts IH] using rev_ind; [done|].
  rewrite accumulate_snoc, add_article_lookup, IH.
  assert (default empty_entry
            (if decide (contributing k arts = []) then None else Some (entry_of k arts))
          = entry_of k arts) as ->.
  { case_decide; [by rewrite entry_of_none | done]. }
  destruct (decide (k ∈ all_keywords_of a)) as [Hin|Hnin].
  - rewrite decide_False.
    + by rewrite entry_of_snoc.
    + rewrite contributing_snoc. destruct (decide (k ∈ all_keywords_of a)); [|done].
      intros Happ. by apply app_nil in Happ as [_ ?].
  - rewrite entry_of_skip by done.
    assert (contributing k (arts ++ [a]) = contributing k arts) as ->; [|done].
    rewrite contributing_snoc. destruct (decide (k ∈ all_keywords_of a)); [done|].
    by rewrite app_nil_r.
Qed.

Lemma accumulate_spec arts k e :
  (k, e) ∈ accumulate arts ↔ contributing k arts ≠ [] ∧ e = entry_of k arts.
Proof.
  rewrite (elem_of_lookup _ _ _ (accumulate_NoDup arts)), accumulate_lookup.
  case_decide; split; try done.
  - by intros [? _].
  - by intros [= <-].
  - by intros [_ ->].
Qed.
End AggregationFacts.

(** ** TrendEngine: the trend score *)

Section ScoreFacts.
Import TrendEngine PyFloat.

Lemma ltb_false (x y : Q) : ltb x y = false → (y <= x)%Q.
Proof.
  unfold ltb. intros H. apply negb_false_iff in H. by apply Qle_bool_iff.
Qed.

Lemma round_half_even_bounds (y : Q) :
  (0 <= y <= 1000)%Q → (0 ≤ round_half_even y ≤ 1000)%Z.
Proof.
  intros [Hlo Hhi]. unfold round_half_even.
  pose proof (Qfloor_le y) as Hfloor.
  pose proof (Qfloor_resp_le _ _ Hlo) as Hf0.
  pose proof (Qfloor_resp_le _ _ Hhi) as Hf1.
  change (Qfloor 0) with 0%Z in Hf0. change (Qfloor 1000) with 1000%Z in Hf1.
  set (f := Qfloor y) in *.
  assert ((1 # 2 <= y - inject_Z f)%Q → (f + 1 ≤ 1000)%Z) as Hup.
  { intros Hhalf. assert (inject_Z f < inject_Z 1000)%Q as Hlt.
    { change (inject_Z 1000) with 1000%Q. lra. }
    rewrite <- Zlt_Qlt in Hlt. lia. }
  destruct (ltb (y - inject_Z f) (1 # 2)) eqn:H1; [lia|].
  apply ltb_false in H1. specialize (Hup H1).
  destruct (ltb (1 # 2) (y - inject_Z f)); [lia|].
  destruct (Z.even f); lia.
Qed.

Lemma round3_bounds (x : Q) : (0 <= x <= 1)%Q → (0 <= round3 x <= 1)%Q.
Proof.
  intros [Hlo Hhi]. unfold round3.
  destruct (round_half_even_bounds (x * 1000)) as [Hn0 Hn1]; [lra|].
  rewrite Zle_Qle in Hn0, Hn1.
  change (inject_Z 0) with 0%Q in Hn0. change (inject_Z 1000) with 1000%Q in Hn1.
  split.
  - apply Qle_shift_div_l; [reflexivity|]. lra.
  - apply Qle_shift_div_r; [reflexivity|]. lra.
Qed.

Lemma of_nat_succ (n : nat) : (of_nat (S n) == of_nat n + 1)%Q.
Proof.
  unfold of_nat. rewrite Nat2Z.inj_succ, <- Z.add_1_r, inject_Z_plus. reflexivity.
Qed.

Lemma of_nat_nonneg (n : nat) : (0 <= of_nat n)%Q.
Proof.
  unfold of_nat. change 0%Q with (inject_Z 0). rewrite <- Zle_Qle. lia.
Qed.

Lemma of_nat_pos (n : nat) : 0 < n → (0 < of_nat n)%Q.
Proof.
  intros Hn. unfold of_nat. change 0%Q with (inject_Z 0). rewrite <- Zlt_Qlt. lia.
Qed.

(** A total lies between the number of elements times the bounds of the
    elements; with the bounds -1 and 1, and 0 and 1. *)
Lemma total_within_unit (l : list Q) :
  Forall (λ x, (-1 <= x <= 1)%Q) l →
  (- of_nat (length l) <= total l <= of_nat (length l))%Q.
Proof.
  induction 1 as [|x l [Hlo Hhi] Hl IH]; simpl.
  - change (of_nat 0) with 0%Q. lra.
  - rewrite of_nat_succ. lra.
Qed.

Lemma total_within_zero_one (l : list Q) :
  Forall (λ x, (0 <= x <= 1)%Q) l → (0 <= total l <= of_nat (length l))%Q.
Proof.
  induction 1 as [|x l [Hlo Hhi] Hl IH]; simpl.
  - change (of_nat 0) with 0%Q. lra.
  - rewrite of_nat_succ. lra.
Qed.

Lemma quotient_within (t n a b : Q) :
  (0 < n → a * n <= t <= b * n → a <= t / n <= b)%Q.
Proof.
  intros Hn [Hlo Hhi]. split.
  - by apply Qle_shift_div_l.
  - by apply Qle_shift_div_r.
Qed.

Lemma avg_sentiment_bounds (e : keyword_entry) :
  Forall (λ x, (-1 <= x <= 1)%Q) (sentiments e) →
  (Qabs (entry_avg_sentiment e) <= 1)%Q.
Proof.
  intros Hall. unfold entry_avg_sentiment. apply Qabs_Qle_condition.
  case_bool_decide as Hlen; [lra|].
  rewrite sum_total. apply quotient_within.
  - apply of_nat_pos. lia.
  - pose proof (total_within_unit _ Hall). lra.
Qed.

Variable now : Q.
Variable fromisoformat : string → option Q.

Lemma recency_of_bounds ts :
  (∀ t, fromisoformat ts = Some t → (t <= now)%Q) →
  (0 <= recency_of now fromisoformat ts <= 1)%Q.
Proof.
  intros Hpast. unfold recency_of.
  destruct (fromisoformat ts) as [t|]; [|lra].
  specialize (Hpast t eq_refl). split; [apply Q.le_max_l|].
  apply Q.max_lub; [lra|].
  assert (0 <= hours_since now t / 24)%Q; [|lra].
  unfold hours_since. apply Qle_shift_div_l; [reflexivity|].
  apply Qle_shift_div_l; [reflexivity|]. lra.
Qed.

Lemma recency_score_bounds (timestamps : list string) :
  (∀ ts t, ts ∈ timestamps → fromisoformat ts = Some t → (t <= now)%Q) →
  (0 <= _calculate_recency_score now fromisoformat timestamps <= 1)%Q.
Proof.
  intros Hpast. destruct (decide (timestamps = [])) as [->|Hne].
  { unfold _calculate_recency_score. rewrite bool_decide_true by done. lra. }
  rewrite (recency_score_mean now fromisoformat timestamps Hne).
  unfold mean. apply quotient_within.
  - apply of_nat_pos. rewrite length_fmap. destruct timestamps; [done|simpl; lia].
  - assert (Forall (λ x, (0 <= x <= 1)%Q) (recency_of now fromisoformat <$> timestamps))
      as Hall.
    { apply Forall_fmap, Forall_forall. intros ts Hts. apply recency_of_bounds.
      intros t. by apply Hpast. }
    pose proof (total_within_zero_one _ Hall). lra.
Qed.

Lemma trend_score_bounds (frequency article_count : nat) (avg recency : Q) :
  (Qabs avg <= 1)%Q → (0 <= recency <= 1)%Q →
  (0 <= _calculate_trend_score frequency article_count avg recency <= 1)%Q.
Proof.
  intros Havg Hrec. unfold _calculate_trend_score. apply round3_bounds.
  pose proof (Qabs_nonneg avg).
  assert (∀ n d, (0 < d)%Q → (0 <= Qmin 1 (of_nat n / d) <= 1)%Q) as Hmin.
  { intros n d Hd. split; [|apply Q.le_min_l].
    apply Q.min_glb; [lra|]. apply Qle_shift_div_l; [done|].
    pose proof (of_nat_nonneg n). lra. }
  pose proof (Hmin frequency 20%Q eq_refl). pose proof (Hmin article_count 10%Q eq_refl).
  lra.
Qed.
End ScoreFacts.

Section TopicFacts.
Import TrendEngine.
Variable stopwords : list string.
Variable now : Q.
Variable fromisoformat : string → option Q.

(** A returned topic is made from an entry of [keyword_data] that passes
    the filter. *)
Lemma returned_topic_entry arts min_articles max_topics topic :
  topic ∈ (get_trending_topics stopwords now fromisoformat (Returns arts)
             min_articles max_topics).2 →
  ∃ k e, (k, e) ∈ accumulate stopwords arts ∧ min_articles ≤ count e ∧
         topic = make_topic now fromisoformat k e.
Proof.
  unfold get_trending_topics.
  destruct (length arts <? min_articles); simpl; [by intros ?%elem_of_nil|].
  intros Hin.
  assert (topic ∈ candidate_topics now fromisoformat min_articles
                    (accumulate stopwords arts)) as Hcand.
  { rewrite <- (sort_desc_perm
                  (λ x y, PyFloat.ltb (trend_score x) (trend_score y))
                  (candidate_topics now fromisoformat min_articles
                     (accumulate stopwords arts))).
    rewrite <- (take_drop max_topics). apply elem_of_app. by left. }
  unfold candidate_topics in Hcand.
  apply list_elem_of_In, in_flat_map in Hcand as ([k e] & Hke & Hmade).
  exists k, e. simpl in Hmade.
  destruct (Nat.leb_spec min_articles (count e)); [|done].
  destruct Hmade as [<-|[]]. split_and!; [by apply list_elem_of_In|done|done].
Qed.
End TopicFacts.


(** C2 as stated fails: a contributing timestamp later than the clock
    reading gives a recency score above 1.  Ten articles titled
    "Election", each with sentiment 1 and stamped six hours ahead of the
    clock, give the topic the score 0.3 + 0.3 + 0.2 + 0.2 * 1.25 = 1.05. *)
Lemma C2_future_timestamp_counterexample :
  let arts :=
    (λ i, TrendEngine.Build_article i "Election" "Polls close tonight."
            "Example News" "2024-03-01 18:00:00" 1 "positive") <$> seq 1 10 in
  let topics :=
    (TrendEngine.get_trending_topics TrendEngine.fallback_stopwords 1709294400
       TrendEngine.fromisoformat_sqlite (TrendEngine.Returns arts) 3 10).2 in
  Forall (λ a, (-1 <= TrendEngine.sentiment_score a <= 1)%Q) arts ∧
  (λ t, (TrendEngine.keyword t, Qred (TrendEngine.trend_score t))) <$> topics
    = [("election", 21 # 20); ("polls", 9 # 10); ("close", 9 # 10); ("tonight", 9 # 10)]%Q ∧
  ¬ Forall (λ t, (0 <= TrendEngine.trend_score t <= 1)%Q) topics.
Proof.
  intros arts topics.
  assert ((λ t, (TrendEngine.keyword t, Qred (TrendEngine.trend_score t))) <$> topics
          = [("election", 21 # 20); ("polls", 9 # 10); ("close", 9 # 10);
             ("tonight", 9 # 10)]%Q) as Hshape by (vm_compute; reflexivity).
  split_and!; [|done|].
  - apply Forall_fmap, Forall_forall. intros i _. simpl. lra.
  - destruct topics as [|t rest]; [discriminate Hshape|].
    injection Hshape as _ Hscore _.
    intros [[_ Hle] _]%Forall_cons.
    rewrite <- (Qred_correct (TrendEngine.trend_score t)), Hscore in Hle. lra.
Qed.

(** C2 (amended). The trend score of a returned topic is
    [round(0.3 * min(1, count / 20) + 0.3 * min(1, distinct / 10)
           + 0.2 * abs(mean sentiment) + 0.2 * recency, 3)]
    over the articles that contribute to its keyword: [count] is their
    total weighted keyword count, [distinct] the number of their distinct
    ids.  When every contributing sentiment score lies in [-1, 1] and no
    contributing timestamp is later than the clock reading, the score lies
    in [0, 1]. *)
Theorem C2_trend_score_formula_and_bounds :
  ∀ (stopwords : list string) (now : Q) (fromisoformat : string → option Q)
    (arts : list TrendEngine.article) (min_articles max_topics : nat)
    (topic : TrendEngine.TrendingTopic),
    topic ∈ (TrendEngine.get_trending_topics stopwords now fromisoformat
               (TrendEngine.Returns arts) min_articles max_topics).2 →
    let cs := TrendEngine.contributing stopwords (TrendEngine.keyword topic) arts in
    let weighted := TrendEngine.weighted_count stopwords (TrendEngine.keyword topic) arts in
    cs ≠ [] ∧
    min_articles ≤ weighted ∧
    TrendEngine.trend_score topic =
      TrendEngine.round3
        (Qmin 1 (TrendEngine.of_nat weighted / 20) * (3 # 10)
         + Qmin 1 (TrendEngine.of_nat (length (remove_dups (TrendEngine.id <$> cs))) / 10)
           * (3 # 10)
         + Qabs (TrendEngine.sum (TrendEngine.sentiment_score <$> cs)
                 / TrendEngine.of_nat (length cs)) * (2 # 10)
         + TrendEngine._calculate_recency_score now fromisoformat
             (TrendEngine.scraped_date <$> cs) * (2 # 10))%Q ∧
    ((∀ a, a ∈ cs → (-1 <= TrendEngine.sentiment_score a <= 1)%Q) →
     (∀ a t, a ∈ cs → fromisoformat (TrendEngine.scraped_date a) = Some t → (t <= now)%Q) →
     (0 <= TrendEngine.trend_score topic <= 1)%Q).
Proof.
  intros stopwords now fromisoformat arts min_articles max_topics topic Hin.
  apply returned_topic_entry in Hin as (k & e & Hke & Hmin & ->).
  apply accumulate_spec in Hke as [Hcs ->]. intros cs weighted.
  simpl in cs, weighted, Hmin. subst cs weighted.
  split_and!; [done|done| |].
  - unfold TrendEngine.make_topic. cbn [TrendEngine.trend_score].
    unfold TrendEngine._calculate_trend_score, TrendEngine.total_articles,
      TrendEngine.entry_avg_sentiment, TrendEngine.entry_recency_score,
      TrendEngine.entry_of.
    cbn [TrendEngine.count TrendEngine.articles TrendEngine.sentiments
         TrendEngine.timestamps].
    rewrite <- list_fmap_compose, length_fmap.
    rewrite bool_decide_false; [done|].
    by destruct (TrendEngine.contributing stopwords k arts).
  - intros Hsent Hpast. unfold TrendEngine.make_topic. cbn [TrendEngine.trend_score].
    apply trend_score_bounds.
    + apply avg_sentiment_bounds. unfold TrendEngine.entry_of.
      cbn [TrendEngine.sentiments]. apply Forall_fmap, Forall_forall. apply Hsent.
    + apply recency_score_bounds. unfold TrendEngine.entry_of.
      cbn [TrendEngine.timestamps].
      intros ts t (a & -> & Ha)%list_elem_of_fmap. by apply Hpast.
Qed.

Lemma C2_witness :
  let arts :=
    [ TrendEngine.Build_article 1 "Election results"
        "Voters await the election outcome." "Example News"
        "2024-03-01 11:00:00" (1 # 2) "positive";
      TrendEngine.Build_article 2 "Election night"
        "Counting goes on." "Example News"
        "2024-03-01 10:00:00" (-1 # 4) "negative" ] in
  ∃ topic,
    topic ∈ (TrendEngine.get_trending_topics TrendEngine.fallback_stopwords 1709294400
               TrendEngine.fromisoformat_sqlite (TrendEngine.Returns arts) 2 10).2 ∧
    (0 <= TrendEngine.trend_score topic <= 1)%Q.
Proof.
  intros arts.
  destruct (TrendEngine.get_trending_topics TrendEngine.fallback_stopwords 1709294400
              TrendEngine.fromisoformat_sqlite (TrendEngine.Returns arts) 2 10).2
    as [|topic rest] eqn:E; [vm_compute in E; discriminate E|].
  exists topic. split; [left|].
  assert (topic ∈ (TrendEngine.get_trending_topics TrendEngine.fallback_stopwords
                     1709294400 TrendEngine.fromisoformat_sqlite
                     (TrendEngine.Returns arts) 2 10).2) as Hin
    by (rewrite E; left).
  destruct (C2_trend_score_formula_and_bounds _ _ _ _ _ _ _ Hin) as (_ & _ & _ & Hbound).
  assert (Forall (λ a, (-1 <= TrendEngine.sentiment_score a <= 1)%Q ∧
                       ∀ t, TrendEngine.fromisoformat_sqlite (TrendEngine.scraped_date a)
                            = Some t → (t <= 1709294400)%Q) arts) as Hall.
  { repeat constructor; simpl; try lra;
      intros t Ht; vm_compute in Ht; injection Ht as <-; lra. }
  rewrite Forall_forall in Hall.
  apply Hbound.
  - intros a [_ Ha]%list_elem_of_filter. by apply Hall.
  - intros a t [_ Ha]%list_elem_of_filter. by apply Hall.
Defined.

(** * Further properties *)

(** ** Fetcher: a retrieval that succeeds *)

Section FetcherSuccessFacts.
Import Fetcher.
Context {soup : Type}.
Variable get : string → nat → option soup.
Variable retry_attempts : nat.

Lemma attempts_from_first_success url doc k : ∀ m attempt tr,
  (∀ a, attempt ≤ a → a < attempt + k → get url a = None) →
  get url (attempt + k) = Some doc →
  attempts_from get retry_attempts url (k + S m) attempt tr =
    (tr ++ flat_map (failed_attempt retry_attempts) (seq attempt k)
        ++ [Request (attempt + k)], Some doc).
Proof.
  induction k as [|k IH]; intros m attempt tr Hfail Hok; simpl.
  - rewrite Nat.add_0_r in Hok. rewrite Hok. by rewrite Nat.add_0_r.
  - rewrite Hfail by lia.
    rewrite IH; [|intros a ? ?; apply Hfail; lia|by replace (S attempt + k) with (attempt + S k) by lia].
    replace (S attempt + k) with (attempt + S k) by lia.
    unfold failed_attempt. f_equal.
    destruct (attempt <? retry_attempts - 1); by rewrite <- !app_assoc.
Qed.

Lemma sleep_before_last a k :
  a + k ≤ retry_attempts - 1 →
  total_sleep (flat_map (failed_attempt retry_attempts) (seq a k)) + 2 ^ a = 2 ^ (a + k).
Proof.
  revert a. induction k as [|k IH]; intros a Hle.
  - cbn [seq flat_map]. unfold total_sleep. simpl. by rewrite Nat.add_0_r.
  - cbn [seq flat_map]. rewrite total_sleep_app, total_sleep_failed_attempt.
    destruct (Nat.ltb_spec a (retry_attempts - 1)); [|lia].
    specialize (IH (S a) ltac:(lia)).
    replace (a + S k) with (S a + k) by lia.
    rewrite Nat.pow_succ_r' in IH. lia.
Qed.

Lemma no_error_before_last a k :
  a + k ≤ retry_attempts - 1 →
  LogError ∉ flat_map (failed_attempt retry_attempts) (seq a k).
Proof.
  revert a. induction k as [|k IH]; intros a Hle; cbn [seq flat_map].
  - by intros ?%elem_of_nil.
  - intros [Hin|Hin]%elem_of_app; [|by apply (IH (S a) ltac:(lia))].
    unfold failed_attempt in Hin.
    destruct (Nat.ltb_spec a (retry_attempts - 1)); [|lia].
    repeat (apply elem_of_cons in Hin as [Heq|Hin]; [discriminate Heq|]).
    by apply elem_of_nil in Hin.
Qed.
End FetcherSuccessFacts.

(** X1. When the first [k] attempts fail and attempt [k] (with
    [k < retry_attempts]) succeeds, [fetch_page] returns that document
    after exactly [k + 1] requests, the last event being the successful
    request; it has slept [2 ^ k - 1] seconds in all (1, 2, 4, ... after
    the failures) and logged no final error. *)
Theorem X1_fetch_page_first_success :
  ∀ (soup : Type) (get : string → nat → option soup) (n : nat) (url : string)
    (k : nat) (doc : soup),
    k < n →
    (∀ a, a < k → get url a = None) →
    get url k = Some doc →
    ∃ tr,
      Fetcher.fetch_page get n url = (tr, Some doc) ∧
      Fetcher.requests tr = k + 1 ∧
      Fetcher.total_sleep tr = 2 ^ k - 1 ∧
      last tr = Some (Fetcher.Request k) ∧
      Fetcher.LogError ∉ tr.
Proof.
  intros soup get n url k doc Hk Hfail Hok.
  eexists. split.
  - unfold Fetcher.fetch_page. replace n with (k + S (n - S k)) at 2 by lia.
    rewrite attempts_from_first_success with (doc := doc); [done| |done].
    intros a _ Ha. apply Hfail. lia.
  - simpl. split_and!.
    + rewrite requests_app, requests_failed_attempts. unfold Fetcher.requests. simpl. lia.
    + rewrite total_sleep_app.
      pose proof (sleep_before_last n 0 k ltac:(lia)) as Hs. simpl in Hs.
      unfold Fetcher.total_sleep at 2. simpl. lia.
    + by rewrite last_snoc.
    + intros [Hin|Hin]%elem_of_app.
      * by apply (no_error_before_last n 0 k ltac:(lia)).
      * apply list_elem_of_singleton in Hin. discriminate Hin.
Qed.

Lemma X1_witness :
  ∃ tr,
    Fetcher.fetch_page (λ _ a, if a <? 2 then None else Some "page") 3
      "https://example.com/" = (tr, Some "page") ∧
    Fetcher.requests tr = 2 + 1 ∧
    Fetcher.total_sleep tr = 2 ^ 2 - 1 ∧
    last tr = Some (Fetcher.Request 2) ∧
    Fetcher.LogError ∉ tr.
Proof.
  apply (X1_fetch_page_first_success string
           (λ _ a, if a <? 2 then None else Some "page") 3 "https://example.com/" 2 "page").
  - lia.
  - intros a Ha. by destruct (Nat.ltb_spec a 2); [|lia].
  - reflexivity.
Defined.

(** ** Deduplicator: the two extremes *)

Section DeduplicatorExtremes.
Import Deduplicator.
Variable thr : Q.
Variable sim : matrix.
Variable n : nat.

Lemma outer_loop_skips l : ∀ st,
  (∀ i, i ∈ l → i ∈ st.2) → outer_loop thr sim n st l = st.
Proof.
  unfold outer_loop. induction l as [|i l IH]; intros st Hall; simpl; [done|].
  assert (outer_step thr sim n st i = st) as ->.
  { unfold outer_step. rewrite decide_True; [done|]. apply Hall. by left. }
  apply IH. intros j Hj. apply Hall. by right.
Qed.

Lemma outer_loop_cons st i l :
  outer_loop thr sim n st (i :: l) = outer_loop thr sim n (outer_step thr sim n st i) l.
Proof. reflexivity. Qed.

Lemma large_cluster_has_other (c : gset nat) s :
  2 ≤ size c → ∃ x, x ∈ c ∧ x ≠ s.
Proof.
  intros Hsz. destruct (decide (∃ x, x ∈ c ∧ x ≠ s)) as [|Hnone]; [done|].
  assert (c ⊆ {[s]}) as Hsub.
  { intros x Hx. apply elem_of_singleton.
    destruct (decide (x = s)); [done|]. exfalso. apply Hnone. by exists x. }
  apply subseteq_size in Hsub. rewrite size_singleton in Hsub. lia.
Qed.

Lemma no_similar_pair_no_cluster :
  (∀ i j, i < j < n → ¬ similar thr sim i j) →
  (outer_loop thr sim n ([], ∅) (seq 0 n)).1 = [].
Proof.
  intros Hnone.
  pose proof (outer_loop_inv thr sim n n 0 ([], ∅) ltac:(lia) (loop_inv_init thr sim n))
    as [_ _ Hcl].
  simpl in Hcl.
  destruct (outer_loop thr sim n ([], ∅) (seq 0 n)).1 as [|c rest]; [done|].
  destruct (Hcl c ltac:(by left)) as (Hsz & Hlt & s & Hs & _ & Hall).
  destruct (large_cluster_has_other c s Hsz) as (x & Hx & Hne).
  destruct (Hall x Hx) as [->|[Hsx Hsim]]; [done|].
  exfalso. apply (Hnone s x); [|done]. split; [done|]. by apply Hlt.
Qed.

Lemma all_similar_one_cluster :
  2 ≤ n →
  (∀ i j, i < j < n → similar thr sim i j) →
  (outer_loop thr sim n ([], ∅) (seq 0 n)).1 = [list_to_set (seq 0 n)].
Proof.
  intros Hn Hall. destruct n as [|m] eqn:En; [lia|]. rewrite <- En in *.
  assert (seq 0 n = 0 :: seq 1 (n - 1)) as Hseq
    by (rewrite En; simpl; by rewrite Nat.sub_0_r).
  rewrite Hseq at 1. rewrite outer_loop_cons.
  assert (outer_step thr sim n ([], ∅) 0 =
            ([list_to_set (seq 0 n)], list_to_set (seq 0 n))) as ->.
  { unfold outer_step. rewrite decide_False by set_solver. cbn [fst snd].
    pose proof (inner_loop_spec thr sim n 0 ∅) as Hspec.
    destruct (inner_loop thr sim n 0 ∅) as [G P']. simpl in Hspec.
    assert (G = list_to_set (seq 0 n)) as ->.
    { apply set_eq. intros x. rewrite elem_of_list_to_set, elem_of_seq.
      destruct (Hspec x) as [-> _]. split.
      - intros [->|[? _]]; lia.
      - intros [_ Hx]. destruct (decide (x = 0)) as [|Hne]; [by left|right].
        split_and!; [lia|lia|set_solver|apply Hall; lia]. }
    assert (P' ∪ list_to_set (seq 0 n) = list_to_set (seq 0 n)) as HP.
    { apply set_eq. intros x. rewrite elem_of_union, elem_of_list_to_set, elem_of_seq.
      destruct (Hspec x) as [_ ->]. split; [|by right].
      intros [[Hx|[? _]]|?]; [by apply not_elem_of_empty in Hx|lia|done]. }
    assert (2 ≤ size (list_to_set (seq 0 n) : gset nat)) as Hsz.
    { apply (two_members _ 0 1); [| |done];
        rewrite elem_of_list_to_set, elem_of_seq; lia. }
    destruct (Nat.ltb_spec 1 (size (list_to_set (seq 0 n) : gset nat))); [|lia].
    by rewrite HP. }
  rewrite outer_loop_skips; [done|].
  intros i Hi. simpl. rewrite elem_of_list_to_set, elem_of_seq.
  apply elem_of_seq in Hi. lia.
Qed.
End DeduplicatorExtremes.

(** X2. [detect_duplicates] reports no duplicates when it is given fewer
    than two texts, when the vectoriser raises, or when no two texts
    reach the duplicate threshold. *)
Theorem X2_detect_duplicates_nothing_to_report :
  ∀ (thr : Q) (similarity : list string → option Deduplicator.matrix)
    (articles : list string),
    length articles < 2 ∨
    similarity articles = None ∨
    (∃ sim, similarity articles = Some sim ∧
            ∀ i j, i < j < length articles → ¬ Deduplicator.similar thr sim i j) →
    Deduplicator.detect_duplicates thr similarity articles = [].
Proof.
  intros thr similarity articles Hcase. unfold Deduplicator.detect_duplicates.
  destruct (Nat.ltb_spec (length articles) 2) as [|Hlong]; [done|].
  destruct Hcase as [?|[->|(sim & -> & Hnone)]]; [lia|done|].
  by apply no_similar_pair_no_cluster.
Qed.

Lemma X2_witness :
  Deduplicator.detect_duplicates (8 # 10)
    (λ _, Some (Deduplicator.cosine_of_rows [[1; 0; 0]; [0; 1; 0]; [0; 0; 1]]%Q))
    ["first text"; "second text"; "third text"] = [].
Proof.
  apply X2_detect_duplicates_nothing_to_report. right. right.
  eexists. split; [reflexivity|].
  intros i j Hij. unfold Deduplicator.similar. simpl in Hij.
  assert (i = 0 ∧ j = 1 ∨ i = 0 ∧ j = 2 ∨ i = 1 ∧ j = 2) as [[-> ->]|[[-> ->]|[-> ->]]]
    by lia; apply Qlt_not_le; vm_compute; reflexivity.
Defined.

(** X3. When every pair of texts reaches the duplicate threshold, the
    result is a single cluster that holds every index of the batch. *)
Theorem X3_detect_duplicates_all_similar :
  ∀ (thr : Q) (similarity : list string → option Deduplicator.matrix)
    (articles : list string) (sim : Deduplicator.matrix),
    2 ≤ length articles →
    similarity articles = Some sim →
    (∀ i j, i < j < length articles → Deduplicator.similar thr sim i j) →
    Deduplicator.detect_duplicates thr similarity articles
      = [list_to_set (seq 0 (length articles))].
Proof.
  intros thr similarity articles sim Hlen Hsim Hall.
  unfold Deduplicator.detect_duplicates.
  destruct (Nat.ltb_spec (length articles) 2); [lia|].
  rewrite Hsim. by apply all_similar_one_cluster.
Qed.

Lemma X3_witness :
  Deduplicator.detect_duplicates (8 # 10)
    (λ _, Some (Deduplicator.cosine_of_rows [[1; 0]; [1; 0]; [4 # 5; 3 # 5]]%Q))
    ["first text"; "first text"; "third text"]
  = [list_to_set (seq 0 (length ["first text"; "first text"; "third text"]))].
Proof.
  apply (X3_detect_duplicates_all_similar (8 # 10) _ _
           (Deduplicator.cosine_of_rows [[1; 0]; [1; 0]; [4 # 5; 3 # 5]]%Q)).
  - simpl. lia.
  - reflexivity.
  - intros i j Hij. unfold Deduplicator.similar. simpl in Hij.
    assert (i = 0 ∧ j = 1 ∨ i = 0 ∧ j = 2 ∨ i = 1 ∧ j = 2) as [[-> ->]|[[-> ->]|[-> ->]]]
      by lia; vm_compute; discriminate.
Defined.

(** ** KeywordScorer: the vectoriser path *)

Section StronglySortedFacts.
Context {A : Type} (R : relation A).

Lemma StronglySorted_sublist (l1 l2 : list A) :
  l1 `sublist_of` l2 → StronglySorted R l2 → StronglySorted R l1.
Proof.
  induction 1 as [|x l1 l2 Hsub IH|x l1 l2 Hsub IH]; intros Hs.
  - constructor.
  - apply StronglySorted_inv in Hs as [Hs Hall]. constructor; [by apply IH|].
    apply Forall_forall. intros y Hy. rewrite Forall_forall in Hall.
    apply Hall. by apply (elem_of_sublist l1).
  - apply StronglySorted_inv in Hs as [Hs _]. by apply IH.
Qed.
End StronglySortedFacts.

Section KeywordScorerPrimary.
Import PyList PyFloat KeywordScorer.

#[local] Instance by_weight_trans : Transitive KeywordScorer.by_weight.
Proof. intros a b c Hab Hbc. unfold KeywordScorer.by_weight in *. by apply Qle_trans with (b.2). Qed.

Lemma ltb_asym (x y : Q) : ltb x y = true → ltb y x = false.
Proof.
  unfold ltb. intros H. apply negb_true_iff in H. apply negb_false_iff, Qle_bool_iff.
  destruct (Qlt_le_dec x y) as [Hlt|Hle]; [by apply Qlt_le_weak|].
  apply Qle_bool_iff in Hle. congruence.
Qed.

Lemma sort_by_weight_sorted (scores : list (string * Q)) :
  StronglySorted KeywordScorer.by_weight (sort_desc (λ x y, ltb x.2 y.2) scores).
Proof.
  apply Sorted_StronglySorted; [apply _|].
  eapply Sorted_weaken; [|apply sort_desc_sorted].
  - intros a b Hab. by apply ltb_false.
  - intros a b. apply ltb_asym.
Qed.
End KeywordScorerPrimary.

(** X4. On a text of at least ten words for which the vectoriser
    succeeds, [extract_keywords] makes that one call (the regex fallback
    is not used) and joins the names of a list of features that: has at
    most [max_keywords] members; takes them from the vectoriser's
    features; holds only positive weights; is in descending order of
    weight; and leaves out a positively weighted feature only when every
    chosen one weighs at least as much. *)
Theorem X4_extract_keywords_vectoriser_path :
  ∀ (tfidf : string → option (list (string * Q))) (text : string)
    (max_keywords : nat) (scores : list (string * Q)),
    10 ≤ length (PyStr.split (KeywordScorer.clean_text text)) →
    tfidf (KeywordScorer.clean_text text) = Some scores →
    ∃ keywords : list (string * Q),
      KeywordScorer.extract_keywords tfidf text max_keywords
        = ([KeywordScorer.FitTransform], PyStr.join ", " keywords.*1) ∧
      length keywords ≤ max_keywords ∧
      keywords ⊆ scores ∧
      Forall (λ kw, (0 < kw.2)%Q) keywords ∧
      StronglySorted KeywordScorer.by_weight keywords ∧
      ∀ kw other, kw ∈ keywords → other ∈ scores → other ∉ keywords →
                  (0 < other.2)%Q → (other.2 <= kw.2)%Q.
Proof.
  intros tfidf text max_keywords scores Hlen Htfidf.
  set (sorted := PyList.sort_desc (λ x y, PyFloat.ltb x.2 y.2) scores).
  exists (filter (λ kw, (0 < kw.2)%Q) (take max_keywords sorted)).
  pose proof (sort_by_weight_sorted scores) as Hsorted. fold sorted in Hsorted.
  assert (sorted ≡ₚ scores) as Hperm by apply sort_desc_perm.
  split_and!.
  - unfold KeywordScorer.extract_keywords.
    destruct (Nat.ltb_spec (length (PyStr.split (KeywordScorer.clean_text text))) 10);
      [lia|]. by rewrite Htfidf.
  - etrans; [apply length_filter|]. rewrite length_take. lia.
  - intros kw Hkw. rewrite <- Hperm.
    apply list_elem_of_filter in Hkw as [_ Hkw].
    by apply (elem_of_sublist _ _ _ Hkw), sublist_take.
  - apply Forall_forall. by intros kw [Hpos _]%list_elem_of_filter.
  - eapply StronglySorted_sublist; [|exact Hsorted].
    etrans; [apply sublist_filter|apply sublist_take].
  - intros kw other Hkw Hother Hout Hpos.
    apply list_elem_of_filter in Hkw as [_ Hkw].
    rewrite <- Hperm, <- (take_drop max_keywords sorted) in Hother.
    apply elem_of_app in Hother as [Hin|Hin].
    + exfalso. apply Hout. by apply list_elem_of_filter.
    + rewrite <- (take_drop max_keywords sorted) in Hsorted.
      by apply (StronglySorted_app_1_elem_of _ _ _ kw other) in Hsorted.
Qed.

Lemma X4_witness :
  ∃ keywords : list (string * Q),
    KeywordScorer.extract_keywords
      (λ _, Some [("markets", 1 # 2); ("the", 0); ("rally", 7 # 10); ("shares", 1 # 2)]%Q)
      "Markets rally as shares climb and the markets close at a record"
      2
      = ([KeywordScorer.FitTransform], PyStr.join ", " keywords.*1) ∧
    length keywords ≤ 2 ∧
    keywords ⊆ [("markets", 1 # 2); ("the", 0); ("rally", 7 # 10); ("shares", 1 # 2)]%Q ∧
    Forall (λ kw, (0 < kw.2)%Q) keywords ∧
    StronglySorted KeywordScorer.by_weight keywords ∧
    ∀ kw other, kw ∈ keywords →
                other ∈ [("markets", 1 # 2); ("the", 0); ("rally", 7 # 10); ("shares", 1 # 2)]%Q →
                other ∉ keywords →
                (0 < other.2)%Q → (other.2 <= kw.2)%Q.
Proof.
  apply X4_extract_keywords_vectoriser_path.
  - vm_compute. lia.
  - reflexivity.
Defined.

(** ** TrendEngine: the list of topics *)

Section KeyOrderFacts.
Import PyList PyFloat.
Context {A : Type} (key : A → Q).

Lemma sort_desc_by_key (l : list A) :
  StronglySorted (λ a b, (key b <= key a)%Q) (sort_desc (λ x y, ltb (key x) (key y)) l).
Proof.
  assert (Transitive (λ a b : A, (key b <= key a)%Q)) as Htrans
    by (intros a b c Hab Hbc; by apply Qle_trans with (key b)).
  apply (Sorted_StronglySorted _). eapply Sorted_weaken; [|apply sort_desc_sorted].
  - intros a b Hab. by apply ltb_false.
  - intros a b. apply ltb_asym.
Qed.
End KeyOrderFacts.

Section TopicListFacts.
Import PyList PyFloat TrendEngine.
Variable stopwords : list string.
Variable now : Q.
Variable fromisoformat : string → option Q.

Lemma candidate_keywords min_articles (data : list (string * keyword_entry)) :
  keyword <$> candidate_topics now fromisoformat min_articles data `sublist_of` data.*1.
Proof.
  unfold candidate_topics. induction data as [|[k e] data IH]; simpl; [done|].
  destruct (min_articles <=? count e); simpl; by constructor.
Qed.

Lemma candidate_of_entry min_articles (data : list (string * keyword_entry)) k e :
  (k, e) ∈ data → min_articles ≤ count e →
  make_topic now fromisoformat k e ∈ candidate_topics now fromisoformat min_articles data.
Proof.
  intros Hin Hmin. unfold candidate_topics.
  apply list_elem_of_In, in_flat_map. exists (k, e). split; [by apply list_elem_of_In|].
  simpl. destruct (Nat.leb_spec min_articles (count e)); [by left|lia].
Qed.

Lemma topics_unfold arts min_articles max_topics :
  min_articles ≤ length arts →
  (get_trending_topics stopwords now fromisoformat (Returns arts) min_articles max_topics).2
  = take max_topics
      (sort_desc (λ x y, ltb (trend_score x) (trend_score y))
         (candidate_topics now fromisoformat min_articles (accumulate stopwords arts))).
Proof.
  intros Hlen. unfold get_trending_topics.
  by destruct (Nat.ltb_spec (length arts) min_articles); [lia|].
Qed.
End TopicListFacts.

(** X5. The list [get_trending_topics] returns has at most [max_topics]
    topics, is in descending order of trend score, and names no keyword
    twice. *)
Theorem X5_topics_capped_ranked_distinct :
  ∀ (stopwords : list string) (now : Q) (fromisoformat : string → option Q)
    (recent : TrendEngine.outcome (list TrendEngine.article))
    (min_articles max_topics : nat),
    let topics :=
      (TrendEngine.get_trending_topics stopwords now fromisoformat recent
         min_articles max_topics).2 in
    length topics ≤ max_topics ∧
    StronglySorted (λ a b, (TrendEngine.trend_score b <= TrendEngine.trend_score a)%Q)
      topics ∧
    NoDup (TrendEngine.keyword <$> topics).
Proof.
  intros stopwords now fromisoformat recent min_articles max_topics.
  destruct recent as [arts|message]; simpl.
  2: { split_and!; [lia|constructor|constructor]. }
  destruct (length arts <? min_articles); simpl.
  { split_and!; [lia|constructor|constructor]. }
  split_and!.
  - rewrite length_take. lia.
  - eapply StronglySorted_sublist; [apply sublist_take|].
    apply (sort_desc_by_key TrendEngine.trend_score).
  - eapply sublist_NoDup; [|apply fmap_sublist, sublist_take].
    rewrite sort_desc_perm.
    eapply sublist_NoDup; [|apply candidate_keywords]. apply accumulate_NoDup.
Qed.

(** X6. No keyword is passed over for a weaker one.  When the query
    returned at least [min_articles] articles, a keyword that occurs in
    some article and whose weighted count reaches [min_articles] is
    either the keyword of a returned topic, or the list is full
    ([max_topics] topics) and every returned topic scores at least as
    much as that keyword's topic would. *)
Theorem X6_topics_are_the_top_ranked :
  ∀ (stopwords : list string) (now : Q) (fromisoformat : string → option Q)
    (arts : list TrendEngine.article) (min_articles max_topics : nat) (k : string),
    min_articles ≤ length arts →
    TrendEngine.contributing stopwords k arts ≠ [] →
    min_articles ≤ TrendEngine.weighted_count stopwords k arts →
    let topics :=
      (TrendEngine.get_trending_topics stopwords now fromisoformat
         (TrendEngine.Returns arts) min_articles max_topics).2 in
    let missed :=
      TrendEngine.make_topic now fromisoformat k (TrendEngine.entry_of stopwords k arts) in
    missed ∈ topics ∨
    (length topics = max_topics ∧
     ∀ topic, topic ∈ topics →
              (TrendEngine.trend_score missed <= TrendEngine.trend_score topic)%Q).
Proof.
  intros stopwords now fromisoformat arts min_articles max_topics k Hlen Hcs Hmin
    topics missed.
  subst topics. rewrite topics_unfold by done.
  set (cand := TrendEngine.candidate_topics now fromisoformat min_articles
                 (TrendEngine.accumulate stopwords arts)).
  set (sorted := PyList.sort_desc _ cand).
  assert (missed ∈ sorted) as Hin.
  { unfold sorted. rewrite sort_desc_perm. apply candidate_of_entry; [|done].
    by apply accumulate_spec. }
  pose proof (sort_desc_by_key TrendEngine.trend_score cand) as Hsorted.
  fold sorted in Hsorted.
  rewrite <- (take_drop max_topics sorted) in Hin, Hsorted.
  apply elem_of_app in Hin as [Hin|Hin]; [by left|right]. split.
  - rewrite length_take. apply Nat.min_l.
    destruct (Nat.le_gt_cases max_topics (length sorted)) as [|Hshort]; [done|].
    rewrite drop_ge in Hin by lia. by apply elem_of_nil in Hin.
  - intros topic Htopic.
    by apply (StronglySorted_app_1_elem_of _ _ _ topic missed) in Hsorted.
Qed.

Lemma X6_witness :
  let arts :=
    [ TrendEngine.Build_article 1 "Election results"
        "Voters await the election outcome." "Example News"
        "2024-03-01 11:00:00" (1 # 2) "positive";
      TrendEngine.Build_article 2 "Budget vote"
        "The budget passed after the election." "Example News"
        "2024-03-01 09:00:00" (-1 # 4) "negative" ] in
  let topics :=
    (TrendEngine.get_trending_topics TrendEngine.fallback_stopwords 1709294400
       TrendEngine.fromisoformat_sqlite (TrendEngine.Returns arts) 2 1).2 in
  let missed :=
    TrendEngine.make_topic 1709294400 TrendEngine.fromisoformat_sqlite "budget"
      (TrendEngine.entry_of TrendEngine.fallback_stopwords "budget" arts) in
  missed ∈ topics ∨
  (length topics = 1 ∧
   ∀ topic, topic ∈ topics →
            (TrendEngine.trend_score missed <= TrendEngine.trend_score topic)%Q).
Proof.
  intros arts.
  apply (X6_topics_are_the_top_ranked TrendEngine.fallback_stopwords 1709294400
           TrendEngine.fromisoformat_sqlite arts 2 1 "budget").
  - simpl. lia.
  - vm_compute. discriminate.
  - vm_compute. lia.
Defined.

(** ** TrendEngine: the fields of a topic *)

Section StringOrderFacts.

Lemma string_ltb_lt (a b : string) :
  String.ltb a b = true ↔ OrderedTypeEx.String_as_OT.lt a b.
Proof.
  rewrite <- OrderedTypeEx.String_as_OT.cmp_lt. unfold String.ltb.
  change (OrderedTypeEx.String_as_OT.cmp a b) with (String.compare a b).
  destruct (String.compare a b); split; congruence.
Qed.

Lemma string_ltb_asym (a b : string) : String.ltb a b = true → String.ltb b a = false.
Proof.
  unfold String.ltb. rewrite (String.compare_antisym a b).
  destruct (String.compare b a); simpl; congruence.
Qed.

Lemma string_ltb_total (a b : string) :
  String.ltb a b = false → String.ltb b a = false → a = b.
Proof.
  unfold String.ltb. intros Hab Hba. apply String.compare_eq_iff.
  rewrite (String.compare_antisym b a) in Hba.
  destruct (String.compare a b); simpl in *; congruence.
Qed.

(** "Not earlier than" is transitive. *)
Lemma string_not_ltb_trans (a b c : string) :
  String.ltb a b = false → String.ltb b c = false → String.ltb a c = false.
Proof.
  intros Hab Hbc. destruct (String.ltb a c) eqn:Hac; [|done].
  destruct (String.ltb c b) eqn:Hcb.
  - apply string_ltb_lt in Hac, Hcb.
    pose proof (OrderedTypeEx.String_as_OT.lt_trans _ _ _ Hac Hcb) as Hlt.
    apply string_ltb_lt in Hlt. congruence.
  - pose proof (string_ltb_total _ _ Hbc Hcb) as ->. congruence.
Qed.
End StringOrderFacts.

Section TopicFieldFacts.
Import PyList TrendEngine.
Variable stopwords : list string.

Lemma occurrences_pos k (l : list string) : k ∈ l → 1 ≤ occurrences k l.
Proof.
  unfold occurrences. induction 1 as [x l|x y l Hin IH].
  - rewrite filter_cons_True by done. simpl. lia.
  - destruct (decide (y = x)) as [->|Hne].
    + rewrite filter_cons_True by done. simpl. lia.
    + by rewrite filter_cons_False.
Qed.

Lemma contributing_le_weighted k arts :
  length (contributing stopwords k arts) ≤ weighted_count stopwords k arts.
Proof.
  unfold weighted_count.
  assert (Forall (λ a, k ∈ all_keywords_of stopwords a) (contributing stopwords k arts))
    as Hall by (apply Forall_forall; by intros a [? _]%list_elem_of_filter).
  induction Hall as [|a cs Ha _ IH]; simpl; [lia|].
  apply occurrences_pos in Ha. lia.
Qed.

Lemma sorted_articles_perm e : sorted_articles e ≡ₚ articles e.
Proof. apply sort_desc_perm. Qed.

Lemma sorted_articles_sorted e :
  StronglySorted
    (λ a b, String.ltb (ref_scraped_date a) (ref_scraped_date b) = false)
    (sorted_articles e).
Proof.
  assert (Transitive
            (λ a b, String.ltb (ref_scraped_date a) (ref_scraped_date b) = false))
    as Htrans by (intros a b c; apply string_not_ltb_trans).
  apply (Sorted_StronglySorted _). apply sort_desc_sorted.
  intros a b. apply string_ltb_asym.
Qed.
End TopicFieldFacts.

(** X7. The fields of a returned topic, over the articles that
    contribute to its keyword: [frequency] is their weighted keyword
    count, [articles_count] their number, with
    [1 <= articles_count <= frequency]; [recent_articles] holds
    [min(5, articles_count)] of their summaries, latest [scraped_date]
    first (in string order), and every summary left out is dated no
    later than each one listed. *)
Theorem X7_topic_fields :
  ∀ (stopwords : list string) (now : Q) (fromisoformat : string → option Q)
    (arts : list TrendEngine.article) (min_articles max_topics : nat)
    (topic : TrendEngine.TrendingTopic),
    topic ∈ (TrendEngine.get_trending_topics stopwords now fromisoformat
               (TrendEngine.Returns arts) min_articles max_topics).2 →
    let cs := TrendEngine.contributing stopwords (TrendEngine.keyword topic) arts in
    let date := TrendEngine.ref_scraped_date in
    TrendEngine.frequency topic
      = TrendEngine.weighted_count stopwords (TrendEngine.keyword topic) arts ∧
    TrendEngine.articles_count topic = length cs ∧
    1 ≤ TrendEngine.articles_count topic ≤ TrendEngine.frequency topic ∧
    length (TrendEngine.recent_articles topic) = 5 `min` length cs ∧
    StronglySorted (λ a b, String.ltb (date a) (date b) = false)
      (TrendEngine.recent_articles topic) ∧
    ∃ older,
      TrendEngine.recent_articles topic ++ older ≡ₚ TrendEngine.make_ref <$> cs ∧
      ∀ r o, r ∈ TrendEngine.recent_articles topic → o ∈ older →
             String.ltb (date r) (date o) = false.
Proof.
  intros stopwords now fromisoformat arts min_articles max_topics topic Hin.
  apply returned_topic_entry in Hin as (k & e & Hke & Hmin & ->).
  apply accumulate_spec in Hke as [Hcs ->]. intros cs date.
  unfold TrendEngine.make_topic in *.
  cbn [TrendEngine.keyword TrendEngine.frequency TrendEngine.articles_count
       TrendEngine.recent_articles] in *.
  subst cs.
  set (e := TrendEngine.entry_of stopwords k arts).
  assert (length (TrendEngine.sorted_articles e)
          = length (TrendEngine.contributing stopwords k arts)) as Hlen
    by (rewrite sorted_articles_perm; unfold e; simpl; by rewrite length_fmap).
  pose proof (contributing_le_weighted stopwords k arts) as Hle.
  pose proof (sorted_articles_sorted e) as Hsorted.
  split_and!; try done.
  - rewrite Hlen. destruct (TrendEngine.contributing stopwords k arts); [done|simpl; lia].
  - rewrite Hlen. exact Hle.
  - by rewrite length_take, Hlen.
  - eapply StronglySorted_sublist; [apply sublist_take|done].
  - exists (drop 5 (TrendEngine.sorted_articles e)). split.
    + by rewrite take_drop, sorted_articles_perm.
    + intros r o Hr Ho.
      rewrite <- (take_drop 5 (TrendEngine.sorted_articles e)) in Hsorted.
      by apply (StronglySorted_app_1_elem_of _ _ _ r o) in Hsorted.
Qed.

Lemma X7_witness :
  let arts :=
    [ TrendEngine.Build_article 1 "Election results"
        "Voters await the election outcome." "Example News"
        "2024-03-01 09:00:00" (1 # 2) "positive";
      TrendEngine.Build_article 2 "Election night"
        "Counting goes on." "Example News"
        "2024-03-01 11:00:00" (-1 # 4) "negative" ] in
  let topic :=
    TrendEngine.make_topic 1709294400 TrendEngine.fromisoformat_sqlite "election"
      (TrendEngine.entry_of TrendEngine.fallback_stopwords "election" arts) in
  let cs := TrendEngine.contributing TrendEngine.fallback_stopwords
              (TrendEngine.keyword topic) arts in
  let date := TrendEngine.ref_scraped_date in
  TrendEngine.frequency topic
    = TrendEngine.weighted_count TrendEngine.fallback_stopwords
        (TrendEngine.keyword topic) arts ∧
  TrendEngine.articles_count topic = length cs ∧
  1 ≤ TrendEngine.articles_count topic ≤ TrendEngine.frequency topic ∧
  length (TrendEngine.recent_articles topic) = 5 `min` length cs ∧
  StronglySorted (λ a b, String.ltb (date a) (date b) = false)
    (TrendEngine.recent_articles topic) ∧
  ∃ older,
    TrendEngine.recent_articles topic ++ older ≡ₚ TrendEngine.make_ref <$> cs ∧
    ∀ r o, r ∈ TrendEngine.recent_articles topic → o ∈ older →
           String.ltb (date r) (date o) = false.
Proof.
  intros arts topic.
  apply (X7_topic_fields TrendEngine.fallback_stopwords 1709294400
           TrendEngine.fromisoformat_sqlite arts 2 10 topic).
  vm_compute. apply list_elem_of_here.
Defined.

(** ** TrendEngine: the keywords of a text *)

Section CharClassFacts.
Import PyStr.
Variable P : ascii → bool.

Lemma all_chars_rev_append acc s :
  all_chars P acc = true → all_chars P s = true → all_chars P (rev_append acc s) = true.
Proof.
  revert s. induction acc as [|c acc IH]; intros s Hacc Hs; simpl in *; [done|].
  apply andb_true_iff in Hacc as [Hc Hacc]. apply IH; [done|]. simpl. by rewrite Hc.
Qed.

Lemma all_chars_runs_from p s : ∀ acc,
  all_chars P acc = true → all_chars P s = true →
  Forall (λ w, all_chars P w = true) (runs_from p acc s).
Proof.
  induction s as [|c s IH]; intros acc Hacc Hs; simpl in *.
  - destruct (is_empty acc); [constructor|].
    constructor; [|constructor]. by apply all_chars_rev_append.
  - apply andb_true_iff in Hs as [Hc Hs]. destruct (p c).
    + apply IH; [|done]. simpl. by rewrite Hc.
    + destruct (is_empty acc); [by apply IH|].
      constructor; [by apply all_chars_rev_append|by apply IH].
Qed.

Lemma all_chars_collapse_from p s : ∀ inside,
  P " " = true → all_chars P s = true → all_chars P (collapse_from p inside s) = true.
Proof.
  induction s as [|c s IH]; intros inside Hsp Hs; simpl in *; [done|].
  apply andb_true_iff in Hs as [Hc Hs].
  destruct (p c); [destruct inside|]; simpl; rewrite ?Hsp, ?Hc; by apply IH.
Qed.

Lemma all_chars_blank_punctuation s :
  P " " = true → all_chars P s = true →
  all_chars P (TrendEngine.blank_punctuation s) = true.
Proof.
  intros Hsp. induction s as [|c s IH]; intros Hs; simpl in *; [done|].
  apply andb_true_iff in Hs as [Hc Hs]. rewrite IH by done.
  destruct (is_word c || is_space c || Ascii.eqb c "-"); by rewrite ?Hc, ?Hsp.
Qed.

Lemma all_chars_remove_to_space starts s : ∀ skipping,
  all_chars P s = true →
  all_chars P (TrendEngine.remove_to_space starts skipping s) = true.
Proof.
  induction s as [|c s IH]; intros skipping Hs; [done|].
  pose proof Hs as Hs'. simpl in Hs'. apply andb_true_iff in Hs' as [Hc Hs'].
  cbn [TrendEngine.remove_to_space].
  destruct (skipping && not_space c); [by apply IH|].
  destruct (starts (String c s)); [by apply IH|].
  simpl. rewrite Hc. by apply IH.
Qed.
End CharClassFacts.

Section ExtractedKeywordFacts.
Import PyStr TrendEngine.

Lemma lower_char_not_upper c : is_upper (lower_char c) = false.
Proof. destruct c as [[] [] [] [] [] [] [] []]; reflexivity. Qed.

Lemma lower_not_upper s : all_chars (λ c, negb (is_upper c)) (lower s) = true.
Proof.
  induction s as [|c s IH]; simpl; [done|]. by rewrite lower_char_not_upper, IH.
Qed.

Lemma lower_fixed w :
  all_chars (λ c, negb (is_upper c)) w = true → lower w = w.
Proof.
  induction w as [|c w IH]; [done|]. cbn [all_chars lower].
  intros [Hc Hw]%andb_true_iff. rewrite IH by done.
  unfold lower_char. apply negb_true_iff in Hc. by rewrite Hc.
Qed.

Lemma extracted_word stopwords text weight k :
  k ∈ _extract_keywords stopwords text weight →
  keeps stopwords k = true ∧ all_chars (λ c, negb (is_upper c)) k = true.
Proof.
  unfold _extract_keywords. destruct (is_empty text); [by intros ?%elem_of_nil|].
  intros Hin. apply list_elem_of_In, in_flat_map in Hin as (word & Hword & Hk).
  destruct (keeps stopwords word) eqn:Hkeeps; [|done].
  apply list_elem_of_In, elem_of_replicate in Hk as [-> _].
  split; [done|]. clear Hkeeps.
  apply list_elem_of_In in Hword. revert word Hword. apply Forall_forall.
  apply all_chars_runs_from; [done|].
  apply all_chars_collapse_from; [done|].
  apply all_chars_blank_punctuation; [done|].
  do 2 apply all_chars_remove_to_space. apply lower_not_upper.
Qed.

Lemma occurrences_app k (l1 l2 : list string) :
  occurrences k (l1 ++ l2) = occurrences k l1 + occurrences k l2.
Proof. unfold occurrences. by rewrite filter_app, length_app. Qed.

Lemma occurrences_replicate k n w :
  occurrences k (replicate n w) = n * occurrences k [w].
Proof.
  induction n as [|n IH]; [done|].
  change (replicate (S n) w) with ([w] ++ replicate n w).
  rewrite occurrences_app, IH. lia.
Qed.
End ExtractedKeywordFacts.

(** X8. Every keyword [_extract_keywords] returns has between 3 and 50
    characters, consists of letters once its hyphens are removed
    ([str.isalpha]), is in lower case (equal to its own [lower()]),
    neither starts nor ends with a hyphen, and is not a stop word once
    its hyphens are removed. *)
Theorem X8_extracted_keyword_shape :
  ∀ (stopwords : list string) (text : string) (weight : nat) (k : string),
    k ∈ TrendEngine._extract_keywords stopwords text weight →
    3 ≤ PyStr.len k ≤ 50 ∧
    PyStr.isalpha (PyStr.remove_char "-" k) = true ∧
    PyStr.lower k = k ∧
    PyStr.startswith "-" k = false ∧
    TrendEngine.ends_with_hyphen k = false ∧
    PyStr.remove_char "-" k ∉ stopwords.
Proof.
  intros stopwords text weight k [Hkeeps Hlow]%extracted_word.
  apply lower_fixed in Hlow.
  unfold TrendEngine.keeps in Hkeeps.
  repeat (apply andb_true_iff in Hkeeps as [Hkeeps ?]).
  apply Nat.leb_le in Hkeeps.
  repeat match goal with
         | H : negb _ = true |- _ => apply negb_true_iff in H
         | H : (_ <=? _) = true |- _ => apply Nat.leb_le in H
         | H : bool_decide _ = true |- _ => apply bool_decide_eq_true in H
         end.
  by split_and!.
Qed.

Lemma X8_witness :
  3 ≤ PyStr.len "long-term" ≤ 50 ∧
  PyStr.isalpha (PyStr.remove_char "-" "long-term") = true ∧
  PyStr.lower "long-term" = "long-term" ∧
  PyStr.startswith "-" "long-term" = false ∧
  TrendEngine.ends_with_hyphen "long-term" = false ∧
  PyStr.remove_char "-" "long-term" ∉ TrendEngine.fallback_stopwords.
Proof.
  apply (X8_extracted_keyword_shape TrendEngine.fallback_stopwords
           "The Long-Term plan (see https://example.com/p) -- 2024!" 1).
  vm_compute. apply list_elem_of_here.
Defined.

(** X9. The weight only repeats: a word is returned [weight] times for
    each time it is returned with weight 1, so that a title word (weight
    2) counts twice. *)
Theorem X9_extract_keywords_weight :
  ∀ (stopwords : list string) (text : string) (weight : nat) (k : string),
    TrendEngine.occurrences k (TrendEngine._extract_keywords stopwords text weight)
    = weight * TrendEngine.occurrences k (TrendEngine._extract_keywords stopwords text 1).
Proof.
  intros stopwords text weight k. unfold TrendEngine._extract_keywords.
  destruct (PyStr.is_empty text); [unfold TrendEngine.occurrences; simpl; lia|].
  generalize (PyStr.split
    (PyStr.collapse PyStr.is_space
       (TrendEngine.blank_punctuation
          (TrendEngine.remove_to_space TrendEngine.email_starts false
             (TrendEngine.remove_to_space TrendEngine.url_starts false
                (PyStr.lower text)))))).
  intros words. induction words as [|word words IH]; cbn [flat_map];
    [unfold TrendEngine.occurrences; simpl; lia|].
  rewrite !occurrences_app, IH.
  destruct (TrendEngine.keeps stopwords word).
  - rewrite (occurrences_replicate k weight), (occurrences_replicate k 1). lia.
  - change (TrendEngine.occurrences k []) with 0. lia.
Qed.

(** ** TrendEngine: the shape of the two scores *)

Section ScoreShapeFacts.
Import PyFloat TrendEngine.

Lemma ltb_true (x y : Q) : ltb x y = true → (x < y)%Q.
Proof.
  unfold ltb. intros H. apply negb_true_iff in H.
  destruct (Qlt_le_dec x y) as [|Hle]; [done|].
  apply Qle_bool_iff in Hle. congruence.
Qed.

Lemma round_half_even_choice (x : Q) :
  round_half_even x = Qfloor x ∨ round_half_even x = (Qfloor x + 1)%Z.
Proof.
  unfold round_half_even.
  destruct (ltb _ _); [by left|]. destruct (ltb _ _); [by right|].
  destruct (Z.even _); [by left|by right].
Qed.

Lemma round_half_even_mono (x y : Q) :
  (x <= y)%Q → (round_half_even x ≤ round_half_even y)%Z.
Proof.
  intros Hxy. pose proof (Qfloor_resp_le _ _ Hxy) as Hf.
  destruct (Z.eq_dec (Qfloor x) (Qfloor y)) as [Heq|Hne].
  - unfold round_half_even. rewrite <- Heq.
    assert (x - inject_Z (Qfloor x) <= y - inject_Z (Qfloor x))%Q as Hr by lra.
    destruct (ltb (x - inject_Z (Qfloor x)) (1 # 2)) eqn:Hx1.
    { destruct (ltb (y - _) (1 # 2)); [lia|].
      destruct (ltb (1 # 2) (y - _)); [lia|]. destruct (Z.even _); lia. }
    apply ltb_false in Hx1.
    destruct (ltb (y - inject_Z (Qfloor x)) (1 # 2)) eqn:Hy1.
    { apply ltb_true in Hy1. lra. }
    destruct (ltb (1 # 2) (x - inject_Z (Qfloor x))) eqn:Hx2.
    { apply ltb_true in Hx2.
      destruct (ltb (1 # 2) (y - inject_Z (Qfloor x))) eqn:Hy2; [lia|].
      apply ltb_false in Hy2. lra. }
    destruct (ltb (1 # 2) (y - inject_Z (Qfloor x))); [|lia].
    destruct (Z.even _); lia.
  - destruct (round_half_even_choice x) as [->| ->],
             (round_half_even_choice y) as [->| ->]; lia.
Qed.

Lemma round3_mono (x y : Q) : (x <= y)%Q → (round3 x <= round3 y)%Q.
Proof.
  intros Hxy. unfold round3.
  assert (round_half_even (x * 1000) ≤ round_half_even (y * 1000))%Z as Hr
    by (apply round_half_even_mono; lra).
  rewrite Zle_Qle in Hr.
  apply Qle_shift_div_l; [reflexivity|].
  unfold Qdiv. rewrite <- Qmult_assoc, (Qmult_comm (/ 1000)), Qmult_inv_r by discriminate.
  lra.
Qed.

Lemma of_nat_le (n m : nat) : n ≤ m → (of_nat n <= of_nat m)%Q.
Proof. intros Hnm. unfold of_nat. rewrite <- Zle_Qle. lia. Qed.

Lemma capped_share_mono (n m : nat) (d : Q) :
  (0 < d)%Q → n ≤ m → (Qmin 1 (of_nat n / d) <= Qmin 1 (of_nat m / d))%Q.
Proof.
  intros Hd Hnm. apply Q.min_glb; [apply Q.le_min_l|].
  apply Qle_trans with (of_nat n / d)%Q; [apply Q.le_min_r|]. apply of_nat_le in Hnm.
  apply Qle_shift_div_l; [done|]. unfold Qdiv.
  rewrite <- Qmult_assoc, (Qmult_comm (/ d)), Qmult_inv_r, Qmult_1_r; [done|].
  intros Heq. rewrite Heq in Hd. by apply Qlt_irrefl in Hd.
Qed.

Lemma capped_share_full (n cap : nat) :
  0 < cap → cap ≤ n → Qmin 1 (of_nat n / of_nat cap) = 1%Q.
Proof.
  intros Hcap Hn. unfold Qmin, GenericMinMax.gmin.
  assert (1 <= of_nat n / of_nat cap)%Q as Hle.
  { apply Qle_shift_div_l; [by apply of_nat_pos|]. rewrite Qmult_1_l. by apply of_nat_le. }
  apply Qle_alt in Hle.
  destruct (1 ?= of_nat n / of_nat cap)%Q eqn:Hcmp; [reflexivity|reflexivity|].
  by destruct Hle.
Qed.

Lemma total_nonneg (l : list Q) : Forall (λ x, (0 <= x)%Q) l → (0 <= total l)%Q.
Proof. induction 1 as [|x l Hx _ IH]; simpl; lra. Qed.

Lemma total_zero (l : list Q) :
  Forall (λ x, (0 <= x)%Q) l → (total l == 0)%Q ↔ Forall (λ x, (x == 0)%Q) l.
Proof.
  induction 1 as [|x l Hx Hl IH]; simpl; [by split|].
  pose proof (total_nonneg l Hl). split.
  - intros Hsum. constructor; [lra|]. apply IH. lra.
  - intros [Hx0 Hl0]%Forall_cons. apply IH in Hl0. lra.
Qed.

Lemma recency_of_nonneg now fromisoformat ts :
  (0 <= recency_of now fromisoformat ts)%Q.
Proof.
  unfold recency_of. destruct (fromisoformat ts); [apply Q.le_max_l|lra].
Qed.

Lemma recency_of_zero now fromisoformat ts :
  (recency_of now fromisoformat ts == 0)%Q ↔
  ∀ t, fromisoformat ts = Some t → (24 <= hours_since now t)%Q.
Proof.
  unfold recency_of. destruct (fromisoformat ts) as [t|]; [|by split].
  assert (Qmax 0 (1 - hours_since now t / 24) == 0 ↔ 24 <= hours_since now t)%Q as Hiff.
  { rewrite hours_over_day. split.
    - intros Hmax. pose proof (Q.le_max_r 0 (1 - hours_since now t * (1 # 24))). lra.
    - intros Hold. apply Q.max_l. lra. }
  rewrite Hiff. split; [by intros ? ? [= <-]|by intros H; apply H].
Qed.
End ScoreShapeFacts.

(** X10. The recency score is never negative, whatever the timestamps
    and the clock; it is 0 exactly when no timestamp parses to a time
    less than 24 hours before the clock reading (unparsable timestamps
    and an empty list included). *)
Theorem X10_recency_score_zero_iff :
  ∀ (now : Q) (fromisoformat : string → option Q) (timestamps : list string),
    let score := TrendEngine._calculate_recency_score now fromisoformat timestamps in
    (0 <= score)%Q ∧
    ((score == 0)%Q ↔
     ∀ ts t, ts ∈ timestamps → fromisoformat ts = Some t →
             (24 <= TrendEngine.hours_since now t)%Q).
Proof.
  intros now fromisoformat timestamps score. subst score.
  destruct (decide (timestamps = [])) as [->|Hne].
  { unfold TrendEngine._calculate_recency_score. rewrite bool_decide_true by done.
    split; [lra|]. split; [by intros _ ts t ?%elem_of_nil|done]. }
  rewrite (recency_score_mean now fromisoformat timestamps Hne). unfold TrendEngine.mean.
  set (scores := TrendEngine.recency_of now fromisoformat <$> timestamps).
  assert (Forall (λ x, (0 <= x)%Q) scores) as Hall
    by (apply Forall_fmap, Forall_forall; intros ts _; apply recency_of_nonneg).
  assert (0 < TrendEngine.of_nat (length scores))%Q as Hn.
  { apply of_nat_pos. unfold scores. rewrite length_fmap.
    destruct timestamps; [done|simpl; lia]. }
  pose proof (total_nonneg scores Hall) as Htot.
  assert (TrendEngine.total scores / TrendEngine.of_nat (length scores) == 0
          ↔ TrendEngine.total scores == 0)%Q as Hquot.
  { split; intros Hz.
    - assert (TrendEngine.total scores
              == TrendEngine.total scores / TrendEngine.of_nat (length scores)
                 * TrendEngine.of_nat (length scores))%Q as ->; [|rewrite Hz; ring].
      field. intros Heq. rewrite Heq in Hn. by apply Qlt_irrefl in Hn.
    - rewrite Hz. unfold Qdiv. ring. }
  split.
  - apply Qle_shift_div_l; [done|]. lra.
  - rewrite Hquot, (total_zero scores Hall). unfold scores.
    rewrite Forall_fmap, Forall_forall. split.
    + intros Hzero ts t Hts. by apply (recency_of_zero now fromisoformat ts), Hzero.
    + intros Hold ts Hts. apply recency_of_zero. intros t. by apply Hold.
Qed.

(** X11. The trend score never falls when a topic gains mentions,
    articles, strength of sentiment or recency. *)
Theorem X11_trend_score_monotone :
  ∀ (frequency frequency' article_count article_count' : nat)
    (avg_sentiment avg_sentiment' recency_score recency_score' : Q),
    frequency ≤ frequency' →
    article_count ≤ article_count' →
    (Qabs avg_sentiment <= Qabs avg_sentiment')%Q →
    (recency_score <= recency_score')%Q →
    (TrendEngine._calculate_trend_score frequency article_count
       avg_sentiment recency_score
     <= TrendEngine._calculate_trend_score frequency' article_count'
          avg_sentiment' recency_score')%Q.
Proof.
  intros f f' a a' s s' r r' Hf Ha Hs Hr. unfold TrendEngine._calculate_trend_score.
  apply round3_mono.
  pose proof (capped_share_mono f f' 20 eq_refl Hf).
  pose proof (capped_share_mono a a' 10 eq_refl Ha). lra.
Qed.

Lemma X11_witness :
  (TrendEngine._calculate_trend_score 4 2 (1 # 4) (1 # 2)
   <= TrendEngine._calculate_trend_score 9 3 (-1 # 2) (3 # 4))%Q.
Proof.
  apply X11_trend_score_monotone; [lia|lia|vm_compute; discriminate|vm_compute; discriminate].
Defined.

(** X12. Mentions beyond 20 and articles beyond 10 add nothing, and only
    the size of the sentiment counts, not its sign. *)
Theorem X12_trend_score_saturates :
  ∀ (frequency article_count : nat) (avg_sentiment recency_score : Q),
    TrendEngine._calculate_trend_score frequency article_count avg_sentiment recency_score
    = TrendEngine._calculate_trend_score (frequency `min` 20) (article_count `min` 10)
        avg_sentiment recency_score ∧
    (TrendEngine._calculate_trend_score frequency article_count
       (- avg_sentiment) recency_score
     == TrendEngine._calculate_trend_score frequency article_count
          avg_sentiment recency_score)%Q.
Proof.
  intros f a s r. split.
  - unfold TrendEngine._calculate_trend_score.
    assert (∀ n cap : nat, 0 < cap →
              Qmin 1 (TrendEngine.of_nat n / TrendEngine.of_nat cap)
              = Qmin 1 (TrendEngine.of_nat (n `min` cap) / TrendEngine.of_nat cap))
      as Hcap.
    { intros n cap Hpos. destruct (Nat.le_gt_cases n cap) as [Hle|Hgt].
      - by rewrite Nat.min_l.
      - rewrite Nat.min_r by lia. by rewrite !capped_share_full by lia. }
    change 20%Q with (TrendEngine.of_nat 20). change 10%Q with (TrendEngine.of_nat 10).
    by rewrite (Hcap f 20), (Hcap a 10) by lia.
  - apply Qle_antisym; apply round3_mono; rewrite Qabs_opp; lra.
Qed.

(** ** Link discovery: the same-site rule and a failing element *)

Section LinkDiscoveryMoreFacts.
Import PyStr LinkDiscovery.
Variable urljoin : string → string → option string.
Variable urlparse : string → option (string * string).
Variable base_url : string.

Lemma valid_same_site url base_scheme base_netloc :
  urlparse base_url = Some (base_scheme, base_netloc) →
  lower base_netloc ∈ allowed_domains →
  _is_valid_article_url urlparse base_url url = true →
  ∃ scheme netloc, urlparse url = Some (scheme, netloc) ∧
                   lower netloc = lower base_netloc.
Proof.
  intros Hbase Hallowed. unfold _is_valid_article_url. rewrite Hbase.
  destruct (urlparse url) as [[scheme netloc]|]; [|done].
  destruct (is_empty scheme || is_empty netloc); [done|].
  rewrite bool_decide_true by done. cbn [andb].
  destruct (String.eqb_spec (lower netloc) (lower base_netloc)) as [Heq|]; [|done].
  intros _. by exists scheme, netloc.
Qed.

Lemma gather_stops_at_raise href rest pre : ∀ links,
  is_empty href = false → urljoin base_url href = None →
  gather urljoin urlparse base_url (pre ++ Some href :: rest) links
  = gather urljoin urlparse base_url pre links.
Proof.
  intros links Hne Hraise. revert links.
  induction pre as [|[h|] pre IH]; intros links; simpl.
  - by rewrite Hne, Hraise.
  - destruct (is_empty h); [apply IH|].
    destruct (urljoin base_url h) as [full_url|]; [|done].
    destruct (_is_valid_article_url urlparse base_url full_url); apply IH.
  - apply IH.
Qed.
End LinkDiscoveryMoreFacts.

(** X13. For a site on the same-site list (the host of [base_url], in
    lower case, is one of the nine listed hosts), every link that
    [extract_article_links] returns has the host of [base_url], compared
    without regard to case. *)
Theorem X13_links_stay_on_listed_site :
  ∀ (urljoin : string → string → option string)
    (urlparse : string → option (string * string))
    (base_url : string) (max_articles : nat)
    (selected : option (list (option string)))
    (base_scheme base_netloc url : string),
    urlparse base_url = Some (base_scheme, base_netloc) →
    PyStr.lower base_netloc ∈ LinkDiscovery.allowed_domains →
    url ∈ LinkDiscovery.extract_article_links urljoin urlparse base_url max_articles
            selected →
    ∃ scheme netloc, urlparse url = Some (scheme, netloc) ∧
                     PyStr.lower netloc = PyStr.lower base_netloc.
Proof.
  intros urljoin urlparse base_url max_articles selected base_scheme base_netloc url
    Hbase Hallowed.
  unfold LinkDiscovery.extract_article_links.
  rewrite elem_of_elements, elem_of_list_to_set.
  destruct selected as [elements|]; [|by intros ?%elem_of_nil].
  intros [?%elem_of_nil|(h & _ & _ & _ & Hv)]%gather_sound; [done|].
  by apply (valid_same_site urlparse base_url url base_scheme base_netloc).
Qed.

Lemma X13_witness :
  ∃ scheme netloc,
    LinkDiscovery.urlparse_simple "https://WWW.BBC.com/news/world-1" = Some (scheme, netloc) ∧
    PyStr.lower netloc = PyStr.lower "www.bbc.com".
Proof.
  apply (X13_links_stay_on_listed_site LinkDiscovery.urljoin_absolute
           LinkDiscovery.urlparse_simple "https://www.bbc.com" 5
           (Some [Some "https://example.org/news/elsewhere";
                  Some "https://WWW.BBC.com/news/world-1"])
           "https" "www.bbc.com" "https://WWW.BBC.com/news/world-1").
  - reflexivity.
  - apply list_elem_of_here.
  - unfold LinkDiscovery.extract_article_links.
    rewrite elem_of_elements, elem_of_list_to_set.
    vm_compute. apply list_elem_of_here.
Defined.

(** X14. An element whose href makes [urljoin] raise ends the loop: the
    links of the elements before it are still returned, the elements
    after it are never looked at.  A refused selector gives the empty
    list. *)
Theorem X14_links_before_a_failing_element :
  ∀ (urljoin : string → string → option string)
    (urlparse : string → option (string * string))
    (base_url : string) (max_articles : nat)
    (before after : list (option string)) (href : string),
    length before < max_articles →
    href ≠ "" →
    urljoin base_url href = None →
    LinkDiscovery.extract_article_links urljoin urlparse base_url max_articles
      (Some (before ++ Some href :: after))
    = LinkDiscovery.extract_article_links urljoin urlparse base_url max_articles
        (Some before) ∧
    LinkDiscovery.extract_article_links urljoin urlparse base_url max_articles None = [].
Proof.
  intros urljoin urlparse base_url max_articles before after href Hlen Hne Hraise.
  split.
  - unfold LinkDiscovery.extract_article_links.
    rewrite take_app_ge, (take_ge before) by lia.
    destruct (max_articles - length before) as [|m] eqn:Hm; [lia|]. cbn [take].
    rewrite gather_stops_at_raise; [done| |done].
    by destruct href.
  - unfold LinkDiscovery.extract_article_links. by rewrite list_to_set_nil, elements_empty.
Qed.

Lemma X14_witness :
  let urljoin base href :=
    if PyStr.contains "[" href then None else Some href in
  LinkDiscovery.extract_article_links urljoin LinkDiscovery.urlparse_simple
    "https://example.com" 5
    (Some ([Some "https://example.com/news/story"]
           ++ Some "http://[bad" :: [Some "https://example.com/news/later"]))
  = LinkDiscovery.extract_article_links urljoin LinkDiscovery.urlparse_simple
      "https://example.com" 5 (Some [Some "https://example.com/news/story"]) ∧
  LinkDiscovery.extract_article_links urljoin LinkDiscovery.urlparse_simple
    "https://example.com" 5 None = [].
Proof.
  intros urljoin. apply X14_links_before_a_failing_element.
  - simpl. lia.
  - discriminate.
  - reflexivity.
Defined.

(** ** Whitespace: [strip], [split], [join] and the collapsing of runs *)

Section WhitespaceFacts.
Import PyStr.

Abbreviation ns := (λ c : ascii, negb (is_space c)).
Abbreviation rstrip s := (reverse (lstrip (reverse s))).

Lemma append_nil_r s : s +:+ "" = s.
Proof. induction s as [|c s IH]; [done|]. by rewrite append_cons, IH. Qed.

Lemma append_assoc a b c : (a +:+ b) +:+ c = a +:+ (b +:+ c).
Proof. induction a as [|x a IH]; [done|]. by rewrite !append_cons, IH. Qed.

Lemma rev_append_app acc : ∀ s, rev_append acc s = rev_append acc "" +:+ s.
Proof.
  induction acc as [|c acc IH]; intros s; simpl; [done|].
  rewrite (IH (String c s)), (IH (String c "")), append_assoc. by rewrite append_cons.
Qed.

Lemma reverse_cons c s : reverse (String c s) = reverse s +:+ String c "".
Proof. unfold reverse. simpl. apply rev_append_app. Qed.

Lemma reverse_app a b : reverse (a +:+ b) = reverse b +:+ reverse a.
Proof.
  induction a as [|x a IH].
  - rewrite append_nil_l. unfold reverse at 3. simpl. by rewrite append_nil_r.
  - by rewrite append_cons, !reverse_cons, IH, append_assoc.
Qed.

Lemma reverse_involutive s : reverse (reverse s) = s.
Proof.
  induction s as [|c s IH]; [done|].
  rewrite reverse_cons, reverse_app, IH. reflexivity.
Qed.

Lemma is_empty_reverse s : is_empty (reverse s) = is_empty s.
Proof.
  destruct s as [|c s]; [done|]. rewrite reverse_cons.
  by destruct (reverse s).
Qed.

Lemma all_chars_app P a b : all_chars P (a +:+ b) = all_chars P a && all_chars P b.
Proof.
  induction a as [|x a IH]; [done|]. rewrite append_cons. cbn [all_chars].
  by rewrite IH, andb_assoc.
Qed.

Lemma all_chars_reverse P s : all_chars P (reverse s) = all_chars P s.
Proof.
  induction s as [|c s IH]; [done|].
  rewrite reverse_cons, all_chars_app, IH. simpl. rewrite andb_true_r. apply andb_comm.
Qed.

Lemma lstrip_all_space s : all_chars is_space s = true → lstrip s = "".
Proof.
  induction s as [|c s IH]; [done|]. simpl. intros [Hc Hs]%andb_true_iff.
  rewrite Hc. by apply IH.
Qed.

Lemma lstrip_app_space a b : all_chars is_space a = true → lstrip (a +:+ b) = lstrip b.
Proof.
  induction a as [|x a IH]; [done|]. cbn [all_chars]. intros [Hc Hs]%andb_true_iff.
  rewrite append_cons. cbn [lstrip]. rewrite Hc. by apply IH.
Qed.

Lemma lstrip_app_word a b :
  all_chars is_space a = false → lstrip (a +:+ b) = lstrip a +:+ b.
Proof.
  induction a as [|x a IH]; [done|]. cbn [all_chars]. rewrite append_cons.
  cbn [lstrip]. destruct (is_space x); cbn [andb]; [apply IH|].
  intros _. by rewrite append_cons.
Qed.

Lemma rstrip_cons c s :
  rstrip (String c s)
  = if all_chars is_space (String c s) then "" else String c (rstrip s).
Proof.
  rewrite reverse_cons. cbn [all_chars].
  destruct (all_chars is_space s) eqn:Hs.
  - rewrite lstrip_app_space by by rewrite all_chars_reverse.
    rewrite (lstrip_all_space (reverse s)) by by rewrite all_chars_reverse.
    rewrite andb_true_r. simpl. by destruct (is_space c).
  - rewrite lstrip_app_word by by rewrite all_chars_reverse.
    rewrite andb_false_r, reverse_app. reflexivity.
Qed.

Lemma rstrip_word_app w x :
  all_chars ns w = true → rstrip (w +:+ x) = w +:+ rstrip x.
Proof.
  induction w as [|c w IH]; [done|]. cbn [all_chars]. intros [Hc Hw]%andb_true_iff.
  rewrite append_cons, rstrip_cons. cbn [all_chars].
  apply negb_true_iff in Hc. rewrite Hc. cbn [andb].
  by rewrite IH, append_cons.
Qed.

Lemma lstrip_collapse s : ∀ inside,
  lstrip (collapse_from is_space inside s) = collapse_from is_space true (lstrip s).
Proof.
  induction s as [|c s IH]; intros inside; [done|]. cbn [collapse_from lstrip].
  destruct (is_space c) eqn:Hc.
  - destruct inside; [apply IH|]. cbn [lstrip]. change (is_space " ") with true.
    cbn [lstrip]. apply IH.
  - cbn [lstrip collapse_from]. by rewrite Hc.
Qed.

Lemma all_space_collapse s : ∀ inside,
  all_chars is_space (collapse_from is_space inside s) = all_chars is_space s.
Proof.
  induction s as [|c s IH]; intros inside; [done|]. cbn [collapse_from all_chars].
  destruct (is_space c) eqn:Hc.
  - destruct inside; cbn [all_chars andb]; [apply IH|].
    change (is_space " ") with true. cbn [andb]. apply IH.
  - cbn [all_chars]. by rewrite Hc.
Qed.

Lemma runs_all_space s : all_chars is_space s = true → runs_from ns "" s = [].
Proof.
  induction s as [|c s IH]; [done|]. simpl. intros [Hc Hs]%andb_true_iff.
  rewrite Hc. simpl. by apply IH.
Qed.

Lemma runs_some acc s :
  is_empty acc = false ∨ all_chars is_space s = false → runs_from ns acc s ≠ [].
Proof.
  revert acc. induction s as [|c s IH]; intros acc Hcase; cbn [runs_from].
  - destruct Hcase as [->|?]; done.
  - destruct (is_space c) eqn:Hc; cbn [negb].
    + destruct (is_empty acc) eqn:Hacc; [|done]. apply IH. right.
      destruct Hcase as [?|Hs]; [done|]. simpl in Hs. by rewrite Hc in Hs.
    + apply IH. by left.
Qed.

Lemma runs_lstrip s : runs_from ns "" (lstrip s) = runs_from ns "" s.
Proof.
  induction s as [|c s IH]; [done|]. cbn [lstrip runs_from].
  destruct (is_space c) eqn:Hc; cbn [negb is_empty]; [done|].
  cbn [runs_from]. by rewrite Hc.
Qed.

Lemma join_cons w ws :
  join " " (w :: ws) = w +:+ (if bool_decide (ws = []) then "" else " " +:+ join " " ws).
Proof. destruct ws; simpl; [by rewrite append_nil_r|done]. Qed.

Lemma rstrip_word w : all_chars ns w = true → rstrip w = w.
Proof.
  intros Hw. rewrite <- (append_nil_r w) at 1.
  rewrite rstrip_word_app by done. apply append_nil_r.
Qed.

(** The state of the two scans agrees: [acc] holds the word being read,
    and the collapsing is inside a run of whitespace when there is
    none. *)
Lemma rstrip_collapse t : ∀ acc,
  all_chars ns acc = true →
  rstrip (reverse acc +:+ collapse_from is_space (is_empty acc) t)
  = join " " (runs_from ns acc t).
Proof.
  induction t as [|c t IH]; intros acc Hacc.
  - cbn [collapse_from runs_from]. rewrite append_nil_r.
    destruct acc as [|a acc]; [done|]. cbn [is_empty join].
    apply rstrip_word. etrans; [apply (all_chars_reverse ns (String a acc))|done].
  - cbn [collapse_from runs_from]. destruct (is_space c) eqn:Hc; cbn [negb].
    + destruct acc as [|a acc]; cbn [is_empty]; [exact (IH "" eq_refl)|].
      rewrite rstrip_word_app by by rewrite all_chars_reverse.
      rewrite rstrip_cons. cbn [all_chars]. change (is_space " ") with true.
      cbn [andb]. rewrite all_space_collapse, join_cons.
      fold (reverse (String a acc)). f_equal.
      pose proof (IH "" eq_refl) as IH0. cbn [is_empty] in IH0.
      change (reverse "") with "" in IH0. rewrite append_nil_l in IH0.
      destruct (all_chars is_space t) eqn:Ht.
      * by rewrite runs_all_space, bool_decide_true.
      * rewrite bool_decide_false by (apply runs_some; by right).
        by rewrite IH0.
    + rewrite <- (IH (String c acc)) by (simpl; by rewrite Hc).
      cbn [is_empty]. by rewrite reverse_cons, append_assoc.
Qed.

(** [' '.join(s.split())] is [s] with its runs of whitespace collapsed
    and its ends stripped. *)
Lemma strip_collapse s : ∀ inside,
  strip (collapse_from is_space inside s) = join " " (split s).
Proof.
  intros inside. unfold strip, split, runs. rewrite lstrip_collapse, <- runs_lstrip.
  by rewrite <- (rstrip_collapse (lstrip s) "").
Qed.

Lemma runs_word w : ∀ acc rest,
  all_chars ns w = true →
  runs_from ns acc (w +:+ rest) = runs_from ns (rev_append w acc) rest.
Proof.
  induction w as [|c w IH]; intros acc rest Hw; [done|].
  simpl in Hw. apply andb_true_iff in Hw as [Hc Hw].
  rewrite append_cons. cbn [runs_from rev_append]. rewrite Hc. by apply IH.
Qed.

Lemma split_join ws :
  Forall (λ w, is_empty w = false ∧ all_chars ns w = true) ws →
  split (join " " ws) = ws.
Proof.
  unfold split, runs. induction 1 as [|w ws [Hne Hw] Hws IH]; [done|].
  rewrite join_cons, runs_word by done. fold (reverse w).
  destruct ws as [|w' ws'].
  - rewrite bool_decide_true by done. cbn [runs_from].
    rewrite is_empty_reverse, Hne. fold (reverse (reverse w)).
    by rewrite reverse_involutive.
  - rewrite bool_decide_false by done. rewrite append_cons, append_nil_l.
    cbn [runs_from]. change (negb (is_space " "%char)) with false. cbn iota.
    rewrite is_empty_reverse, Hne. fold (reverse (reverse w)).
    by rewrite reverse_involutive, IH.
Qed.

Lemma runs_are_words p s : ∀ acc,
  all_chars p acc = true →
  Forall (λ w, is_empty w = false ∧ all_chars p w = true) (runs_from p acc s).
Proof.
  assert (∀ acc, is_empty acc = false → all_chars p acc = true →
                 is_empty (rev_append acc "") = false
                 ∧ all_chars p (rev_append acc "") = true) as Hword.
  { intros acc Hne Hacc. fold (reverse acc).
    by rewrite is_empty_reverse, all_chars_reverse. }
  induction s as [|c s IH]; intros acc Hacc; cbn [runs_from].
  - destruct (is_empty acc) eqn:Hne; [constructor|].
    constructor; [by apply Hword|constructor].
  - destruct (p c) eqn:Hc; [apply IH; simpl; by rewrite Hc|].
    destruct (is_empty acc) eqn:Hne; [by apply IH|].
    constructor; [by apply Hword|by apply IH].
Qed.

(** A stripped, collapsed string is the single-space join of its own
    words. *)
Lemma strip_collapse_normal s inside :
  let r := strip (collapse_from is_space inside s) in
  join " " (split r) = r.
Proof.
  intros r. subst r. rewrite strip_collapse, split_join; [done|].
  by apply runs_are_words.
Qed.
End WhitespaceFacts.

(** X15. The text [clean_text] returns is whitespace-normal: it is the
    single-space join of its own words, so it has no newline, tab or
    other whitespace than single spaces between words, and none at
    either end. *)
Theorem X15_clean_text_whitespace_normal :
  ∀ text : string,
    PyStr.join " " (PyStr.split (KeywordScorer.clean_text text))
    = KeywordScorer.clean_text text.
Proof.
  intros text. unfold KeywordScorer.clean_text, PyStr.collapse at 1.
  apply strip_collapse_normal.
Qed.

(** ** Extractor: [_clean_content] *)

Section CleanContentFacts.
Import PyStr Extractor.

(** [y] is the collapsed form of a tail of [c]. *)
Abbreviation collapsed_tail y c :=
  (∃ inside pre c', c = pre +:+ c' ∧ y = collapse_from is_space inside c').

Lemma lstrip_tail s : ∃ pre, s = pre +:+ lstrip s.
Proof.
  induction s as [|c s [pre IH]]; [by exists ""|]. cbn [lstrip].
  destruct (is_space c); [|by exists ""].
  exists (String c pre). by rewrite append_cons, <- IH.
Qed.

Lemma after_ignorecase_tail p : ∀ s rest,
  after_ignorecase p s = Some rest → ∃ pre, s = pre +:+ rest.
Proof.
  induction p as [|a p IH]; intros s rest; cbn [after_ignorecase].
  - intros [= ->]. by exists "".
  - destruct s as [|b s]; [done|].
    destruct (Ascii.eqb _ _); [|done]. intros [pre ->]%IH.
    by exists (String b pre).
Qed.

Lemma collapse_tail c : ∀ inside pre' y,
  collapse_from is_space inside c = pre' +:+ y → collapsed_tail y c.
Proof.
  induction c as [|ch c IH]; intros inside pre' y; cbn [collapse_from].
  - intros Heq. exists false, "", "". split; [done|].
    destruct pre'; [by rewrite append_nil_l in Heq|by rewrite append_cons in Heq].
  - assert (collapsed_tail y c → collapsed_tail y (String ch c)) as Hstep.
    { intros (b' & pre & c' & -> & ->). by exists b', (String ch pre), c'. }
    assert (∀ x b, String x (collapse_from is_space b c) = pre' +:+ y →
                   y = String x (collapse_from is_space b c) ∨ collapsed_tail y c)
      as Hcons.
    { intros x b Heq. destruct pre' as [|x' pre''].
      - left. by rewrite append_nil_l in Heq.
      - right. rewrite append_cons in Heq. injection Heq as _ Heq. by eapply IH. }
    destruct (is_space ch) eqn:Hch.
    + destruct inside.
      * intros Heq. apply Hstep. by eapply IH.
      * intros [->|Htail]%Hcons; [|by apply Hstep].
        exists false, "", (String ch c). split; [done|].
        cbn [collapse_from]. by rewrite Hch.
    + intros [->|Htail]%Hcons; [|by apply Hstep].
      exists false, "", (String ch c). split; [done|].
      cbn [collapse_from]. by rewrite Hch.
Qed.

Lemma collapsed_tail_tail y y' pre c :
  collapsed_tail y c → y = pre +:+ y' → collapsed_tail y' c.
Proof.
  intros (b & p & c' & -> & ->) Heq.
  apply collapse_tail in Heq as (b' & p' & c'' & -> & ->).
  exists b', (p +:+ p'), c''. by rewrite append_assoc.
Qed.

Lemma remove_leading_tail phrase y c :
  collapsed_tail y c → collapsed_tail (remove_leading phrase y) c.
Proof.
  intros Hy. unfold remove_leading.
  destruct (after_ignorecase phrase (lstrip y)) as [rest|] eqn:Hafter; [|done].
  destruct (lstrip_tail y) as [p1 H1].
  apply after_ignorecase_tail in Hafter as [p2 H2].
  destruct (lstrip_tail rest) as [p3 H3].
  eapply collapsed_tail_tail; [|exact H3].
  eapply collapsed_tail_tail; [|exact H2].
  eapply collapsed_tail_tail; [exact Hy|exact H1].
Qed.

Lemma clean_content_tail content :
  ∃ dropped kept,
    content = dropped +:+ kept ∧ _clean_content content = join " " (split kept).
Proof.
  unfold _clean_content.
  assert (collapsed_tail (collapse is_space content) content) as H0
    by (by exists false, "", content).
  apply (remove_leading_tail "Advertisement") in H0.
  apply (remove_leading_tail "Share this") in H0.
  destruct H0 as (b & pre & c' & -> & ->).
  exists pre, c'. split; [done|]. apply strip_collapse.
Qed.
End CleanContentFacts.

(** X16. [_clean_content] only drops a leading part of the text and
    normalises whitespace: its result is the single-space join of the
    words of a tail of the input, hence whitespace-normal itself (equal
    to the single-space join of its own words).  A text that is blank
    gives the empty string. *)
Theorem X16_clean_content_normal_tail :
  ∀ content : string,
    (∃ dropped kept,
       content = dropped +:+ kept ∧
       Extractor._clean_content content = PyStr.join " " (PyStr.split kept)) ∧
    PyStr.join " " (PyStr.split (Extractor._clean_content content))
    = Extractor._clean_content content ∧
    (PyStr.all_chars PyStr.is_space content = true →
     Extractor._clean_content content = "").
Proof.
  intros content. destruct (clean_content_tail content) as (dropped & kept & Hc & Hr).
  split_and!.
  - by exists dropped, kept.
  - rewrite Hr. rewrite split_join; [done|]. by apply runs_are_words.
  - intros Hblank. rewrite Hr. rewrite Hc, all_chars_app in Hblank.
    apply andb_true_iff in Hblank as [_ Hkept].
    unfold PyStr.split, PyStr.runs. by rewrite runs_all_space.
Qed.

Lemma X16_witness : Extractor._clean_content "   " = "".
Proof.
  destruct (X16_clean_content_normal_tail "   ") as (_ & _ & Hblank).
  apply Hblank. reflexivity.
Defined.

(** ** Extractor: one article, and the whole run *)

Section ExtractorFacts.
Import PyStr Extractor.
Context {soup : Type}.
Variable get : nat → string → nat → option soup.
Variable retry_attempts : nat.
Variable source_name : string.
Variable base_url : string.
Variable title_selector : string.
Variable content_selector : string.
Variable select_one_text : string → soup → option (option string).
Variable find_text : string → soup → option (option string).
Variable select_texts : string → soup → option (list string).
Variable find_all_texts : string → soup → option (list string).
Variable date_selector : string.
Variable select_one_date : string → soup → option (option (option string * string)).
Variable strptime : string → string → option Q.
Variable now : nat → Q.
Variable min_content_length : Z.
Variable urljoin : string → string → option string.
Variable urlparse : string → option (string * string).
Variable max_articles : nat.
Variable select_links : soup → option (list (option string)).

Abbreviation extract :=
  (extract_article_content get retry_attempts source_name title_selector
     content_selector select_one_text find_text select_texts find_all_texts
     date_selector select_one_date strptime now min_content_length).
Abbreviation visit_links :=
  (visit get retry_attempts source_name title_selector
     content_selector select_one_text find_text select_texts find_all_texts
     date_selector select_one_date strptime now min_content_length).
Abbreviation extracted_title := (_extract_title title_selector select_one_text find_text).
Abbreviation extracted_content :=
  (_extract_content content_selector select_texts find_all_texts).
Abbreviation extracted_date := (_extract_date date_selector select_one_date strptime).
Abbreviation extracted_author := (_extract_author select_one_text).

(** An article that passed the checks of [extract_article_content]. *)
Abbreviation sound link a :=
  (url a = link ∧ source a = source_name ∧ title a ≠ "" ∧ content a ≠ "" ∧
   Z.le min_content_length (Z.of_nat (len (content a))) ∧
   join " " (split (content a)) = content a).

(** Only warnings of the extraction helpers. *)
Abbreviation warnings_only tr := (Forall (λ e, is_extraction_warning e = true) tr).

Lemma title_warnings doc : warnings_only (extracted_title doc).1.
Proof.
  unfold _extract_title.
  destruct (select_one_text title_selector doc) as [[text|]|]; simpl;
    [done| |by repeat constructor].
  destruct (find_text "title" doc) as [[text|]|]; simpl; by repeat constructor.
Qed.

Lemma content_warnings doc : warnings_only (extracted_content doc).1.
Proof.
  unfold _extract_content.
  destruct (select_texts content_selector doc) as [texts|]; [|by repeat constructor].
  destruct (bool_decide _); [|done].
  destruct (find_all_texts "p" doc); simpl; by repeat constructor.
Qed.

Lemma date_warnings doc : warnings_only (extracted_date doc).1.
Proof.
  unfold _extract_date.
  destruct (select_one_date date_selector doc) as [[[[attr|] text]|]|]; simpl;
    by repeat constructor.
Qed.

Lemma author_warnings doc : warnings_only (extracted_author doc).1.
Proof.
  unfold _extract_author. induction author_selectors as [|selector rest IH]; simpl; [done|].
  destruct (select_one_text selector doc) as [[text|]|]; simpl;
    [done|exact IH|by repeat constructor].
Qed.

Lemma extract_content_normal doc :
  join " " (split (extracted_content doc).2) = (extracted_content doc).2.
Proof.
  unfold _extract_content.
  destruct (match select_texts content_selector doc with
            | Some texts =>
                if bool_decide (filter (λ text, Is_true (long_enough text)) texts = [])
                then match find_all_texts "p" doc with
                     | Some paragraphs =>
                         ([], filter (λ text, Is_true (long_enough text)) paragraphs)
                     | None => ([ExtractionWarning ContentField], [])
                     end
                else ([], filter (λ text, Is_true (long_enough text)) texts)
            | None => ([ExtractionWarning ContentField], [])
            end) as [warnings content_parts].
  cbn [snd].
  destruct (clean_content_tail (join " " content_parts)) as (dropped & kept & _ & ->).
  rewrite split_join; [done|]. by apply runs_are_words.
Qed.

Lemma extract_fetch_failed call link ftr :
  Fetcher.fetch_page (get call) retry_attempts link = (ftr, None) →
  extract call link = (Fetching link <$> ftr, None).
Proof. intros Hf. unfold extract_article_content. by rewrite Hf. Qed.

(** The four helpers of an extraction, with what they log. *)
Lemma extract_unfold call link ftr doc :
  Fetcher.fetch_page (get call) retry_attempts link = (ftr, Some doc) →
  let warnings :=
    (extracted_title doc).1 ++ (extracted_content doc).1
      ++ (extracted_date doc).1 ++ (extracted_author doc).1 in
  let article :=
    {| url := link; source := source_name; scraped_date := now call;
       title := (extracted_title doc).2; content := (extracted_content doc).2;
       published_date := (extracted_date doc).2;
       author := (extracted_author doc).2 |} in
  warnings_only warnings ∧
  extract call link =
    if is_empty (title article) || is_empty (content article)
    then (((Fetching link <$> ftr) ++ warnings) ++ [MissingTitleOrContent link], None)
    else if (Z.of_nat (len (content article)) <? min_content_length)%Z
    then (((Fetching link <$> ftr) ++ warnings)
            ++ [ContentTooShort link (len (content article))], None)
    else ((Fetching link <$> ftr) ++ warnings, Some article).
Proof.
  intros Hf warnings article. split.
  - unfold warnings. rewrite !Forall_app.
    split_and!; [apply title_warnings|apply content_warnings|apply date_warnings
                |apply author_warnings].
  - unfold extract_article_content. rewrite Hf. unfold article, warnings.
    destruct (extracted_title doc) as [w1 t], (extracted_content doc) as [w2 c],
             (extracted_date doc) as [w3 d], (extracted_author doc) as [w4 au].
    reflexivity.
Qed.

Lemma extract_some call link tr a :
  extract call link = (tr, Some a) →
  sound link a ∧
  ∃ ftr doc warnings,
    Fetcher.fetch_page (get call) retry_attempts link = (ftr, Some doc) ∧
    tr = (Fetching link <$> ftr) ++ warnings ∧ warnings_only warnings.
Proof.
  destruct (Fetcher.fetch_page (get call) retry_attempts link) as [ftr [doc|]] eqn:Hf.
  2: { by rewrite (extract_fetch_failed call link ftr Hf). }
  destruct (extract_unfold call link ftr doc Hf) as [Hw ->].
  cbn [title content].
  destruct (is_empty (extracted_title doc).2) eqn:Ht; [done|].
  destruct (is_empty (extracted_content doc).2) eqn:Hc; [done|]. cbn [orb].
  destruct (Z.ltb_spec (Z.of_nat (len (extracted_content doc).2)) min_content_length);
    [done|].
  intros [= <- <-]. cbn [url source title content]. split.
  - split_and!; [done|done| | |done|apply extract_content_normal].
    + intros Heq. by rewrite Heq in Ht.
    + intros Heq. by rewrite Heq in Hc.
  - by eexists ftr, doc, _.
Qed.

Lemma rate_limit_sleeps_app tr1 tr2 :
  rate_limit_sleeps (tr1 ++ tr2) = rate_limit_sleeps tr1 + rate_limit_sleeps tr2.
Proof. unfold rate_limit_sleeps. by rewrite filter_app, length_app. Qed.

Lemma rate_limit_sleeps_fetching link ftr :
  rate_limit_sleeps (Fetching link <$> ftr) = 0.
Proof.
  unfold rate_limit_sleeps. induction ftr as [|e ftr IH]; [done|].
  rewrite fmap_cons, filter_cons_False; [done|]. by intros ?.
Qed.

Lemma requested_app tr1 tr2 : requested (tr1 ++ tr2) = requested tr1 ++ requested tr2.
Proof. unfold requested. apply flat_map_app. Qed.

Lemma requested_fetching link ftr :
  requested (Fetching link <$> ftr) = replicate (Fetcher.requests ftr) link.
Proof.
  unfold requested, Fetcher.requests. induction ftr as [|e ftr IH]; [done|].
  rewrite fmap_cons. cbn [flat_map]. rewrite IH.
  destruct e; [rewrite filter_cons_True by done|rewrite filter_cons_False by (by intros ?)..];
    done.
Qed.

Lemma warnings_quiet tr :
  warnings_only tr → rate_limit_sleeps tr = 0 ∧ requested tr = [].
Proof.
  induction 1 as [|e tr He _ [IH1 IH2]]; [done|].
  destruct e; try discriminate He. split.
  - unfold rate_limit_sleeps in *. by rewrite filter_cons_False by exact id.
  - exact IH2.
Qed.

(** What one extraction leaves in the trace: no rate-limit sleep, and
    requests to its own link only. *)
Lemma extract_trace call link :
  rate_limit_sleeps (extract call link).1 = 0 ∧
  Forall (λ u, u = link) (requested (extract call link).1).
Proof.
  destruct (Fetcher.fetch_page (get call) retry_attempts link) as [ftr [doc|]] eqn:Hf.
  2: { rewrite (extract_fetch_failed call link ftr Hf). cbn [fst].
       split; [apply rate_limit_sleeps_fetching|].
       rewrite requested_fetching. apply Forall_replicate. by intros. }
  destruct (extract_unfold call link ftr doc Hf) as [Hw ->].
  apply warnings_quiet in Hw as [Hsleep Hreq].
  set (warnings := _ ++ _ ++ _ ++ _) in *.
  assert (rate_limit_sleeps ((Fetching link <$> ftr) ++ warnings) = 0 ∧
          Forall (λ u, u = link) (requested ((Fetching link <$> ftr) ++ warnings)))
    as [Hs Hr].
  { rewrite rate_limit_sleeps_app, requested_app, Hsleep, Hreq, app_nil_r.
    rewrite rate_limit_sleeps_fetching, requested_fetching.
    split; [done|]. apply Forall_replicate. by intros. }
  assert (∀ e, is_rate_limit e = false → requested [e] = [] →
            rate_limit_sleeps (((Fetching link <$> ftr) ++ warnings) ++ [e]) = 0 ∧
            Forall (λ u, u = link)
              (requested (((Fetching link <$> ftr) ++ warnings) ++ [e]))) as Hlog.
  { intros e He Hreq'. rewrite rate_limit_sleeps_app, requested_app, Hreq', app_nil_r, Hs.
    split; [|done]. unfold rate_limit_sleeps. rewrite filter_cons_False; [done|].
    rewrite He. exact id. }
  destruct (_ || _); [by apply Hlog|].
  destruct (_ <? _)%Z; [by apply Hlog|]. by cbn [fst].
Qed.

Lemma visit_spec links : ∀ i tr articles,
  ∃ new added,
    visit_links i links tr articles = (tr ++ added, articles ++ new) ∧
    url <$> new `sublist_of` links ∧
    Forall (λ a, sound (url a) a) new ∧
    rate_limit_sleeps added = (if 0 <? i then length links else length links - 1) ∧
    Forall (λ u, u ∈ links) (requested added).
Proof.
  induction links as [|link rest IH]; intros i tr articles; cbn [visit].
  - exists [], []. rewrite !app_nil_r. split_and!; [done|done|done|by destruct (0 <? i)|done].
  - set (pause := if 0 <? i then [RateLimit] else []).
    assert ((if 0 <? i then tr ++ [RateLimit] else tr) = tr ++ pause) as ->
      by (unfold pause; destruct (0 <? i); by rewrite ?app_nil_r).
    pose proof (extract_trace (S i) link) as [Hsleep Hreq].
    destruct (extract (S i) link) as [tr' [a|]] eqn:Hex; cbn [fst] in Hsleep, Hreq.
    + apply extract_some in Hex as [Hsound _].
      destruct (IH (S i) ((tr ++ pause) ++ tr' ++ [Extracted (prefix 50 (title a))])
                  (articles ++ [a])) as (new & added & -> & Hsub & Hall & Hcount & Hr).
      exists (a :: new), (pause ++ tr' ++ [Extracted (prefix 50 (title a))] ++ added).
      split_and!.
      * f_equal; by rewrite <- ?app_assoc.
      * rewrite fmap_cons. destruct Hsound as [-> _]. by constructor.
      * constructor; [|done]. by destruct Hsound as (<- & ?).
      * rewrite !rate_limit_sleeps_app, Hsleep, Hcount. cbn [length].
        change (0 <? S i) with true. unfold pause.
        destruct (0 <? i); unfold rate_limit_sleeps; simpl; lia.
      * rewrite !requested_app, !Forall_app. split_and!.
        -- unfold pause. by destruct (0 <? i).
        -- eapply Forall_impl; [exact Hreq|]. intros u ->. by left.
        -- by apply Forall_nil.
        -- eapply Forall_impl; [exact Hr|]. intros u Hu. by right.
    + destruct (IH (S i) ((tr ++ pause) ++ tr' ++ [FailedArticle link]) articles)
        as (new & added & -> & Hsub & Hall & Hcount & Hr).
      exists new, (pause ++ tr' ++ [FailedArticle link] ++ added).
      split_and!.
      * f_equal; by rewrite <- ?app_assoc.
      * by constructor.
      * done.
      * rewrite !rate_limit_sleeps_app, Hsleep, Hcount. cbn [length].
        change (0 <? S i) with true. unfold pause.
        destruct (0 <? i); unfold rate_limit_sleeps; simpl; lia.
      * rewrite !requested_app, !Forall_app. split_and!.
        -- unfold pause. by destruct (0 <? i).
        -- eapply Forall_impl; [exact Hreq|]. intros u ->. by left.
        -- by apply Forall_nil.
        -- eapply Forall_impl; [exact Hr|]. intros u Hu. by right.
Qed.
End ExtractorFacts.

Section DiscoveredLinkFacts.
Import LinkDiscovery.
Variable urljoin : string → string → option string.
Variable urlparse : string → option (string * string).
Variable base_url : string.
Variable max_articles : nat.
Variable selected : option (list (option string)).

Abbreviation found_links :=
  (extract_article_links urljoin urlparse base_url max_articles selected).

Lemma links_valid link :
  link ∈ found_links → _is_valid_article_url urlparse base_url link = true.
Proof.
  unfold extract_article_links. rewrite elem_of_elements, elem_of_list_to_set.
  destruct selected as [elements|]; [|by intros ?%elem_of_nil].
  intros [?%elem_of_nil|(h & _ & _ & _ & Hv)]%gather_sound; done.
Qed.

Lemma links_distinct : NoDup found_links.
Proof. apply NoDup_elements. Qed.

Lemma links_capped : length found_links ≤ max_articles.
Proof.
  unfold extract_article_links. etrans; [apply distinct_length|].
  destruct selected as [elements|]; [|simpl; lia].
  etrans; [apply gather_length|]. rewrite length_take. simpl. lia.
Qed.
End DiscoveredLinkFacts.

Lemma rate_limit_sleeps_log e :
  Extractor.is_rate_limit e = false → Extractor.rate_limit_sleeps [e] = 0.
Proof.
  intros He. unfold Extractor.rate_limit_sleeps.
  rewrite filter_cons_False; [done|]. rewrite He. exact id.
Qed.

Lemma started_sleeps base_url ftr rest :
  Extractor.rate_limit_sleeps
    ((Extractor.Started :: (Extractor.Fetching base_url <$> ftr)) ++ rest)
  = Extractor.rate_limit_sleeps rest.
Proof.
  change (Extractor.Started :: (Extractor.Fetching base_url <$> ftr))
    with ([Extractor.Started] ++ (Extractor.Fetching base_url <$> ftr)).
  by rewrite !rate_limit_sleeps_app, rate_limit_sleeps_fetching.
Qed.

Lemma started_requested base_url ftr rest :
  Extractor.requested
    ((Extractor.Started :: (Extractor.Fetching base_url <$> ftr)) ++ rest)
  = replicate (Fetcher.requests ftr) base_url ++ Extractor.requested rest.
Proof.
  change (Extractor.Started :: (Extractor.Fetching base_url <$> ftr))
    with ([Extractor.Started] ++ (Extractor.Fetching base_url <$> ftr)).
  by rewrite !requested_app, requested_fetching.
Qed.

(** X17. An article that [extract_article_content] returns comes from a
    page that was fetched, carries the link and the source name, has a
    non-empty title and a non-empty, whitespace-normal content of at
    least [min_content_length] characters; beside the retrieval, only
    warnings of the extraction helpers (title, content, date, author)
    were logged.  When the retrieval fails the result is [None] with the
    retrieval's trace.  In every case the requests go to the link alone
    and no rate-limit sleep is made. *)
Theorem X17_extract_article_content_sound :
  ∀ (soup : Type) (get : nat → string → nat → option soup) (retry_attempts : nat)
    (source_name title_selector content_selector : string)
    (select_one_text find_text : string → soup → option (option string))
    (select_texts find_all_texts : string → soup → option (list string))
    (date_selector : string)
    (select_one_date : string → soup → option (option (option string * string)))
    (strptime : string → string → option Q)
    (now : nat → Q) (min_content_length : Z) (call : nat) (link : string),
    let fetched := Fetcher.fetch_page (get call) retry_attempts link in
    let result :=
      Extractor.extract_article_content get retry_attempts source_name
        title_selector content_selector select_one_text find_text select_texts
        find_all_texts date_selector select_one_date strptime now min_content_length
        call link in
    (fetched.2 = None → result = (Extractor.Fetching link <$> fetched.1, None)) ∧
    (∀ a, result.2 = Some a →
          is_Some fetched.2 ∧
          (∃ warnings,
             result.1 = (Extractor.Fetching link <$> fetched.1) ++ warnings ∧
             Forall (λ e, ∃ what, e = Extractor.ExtractionWarning what) warnings) ∧
          Extractor.url a = link ∧
          Extractor.source a = source_name ∧
          Extractor.title a ≠ "" ∧
          Extractor.content a ≠ "" ∧
          (min_content_length ≤ Z.of_nat (PyStr.len (Extractor.content a)))%Z ∧
          PyStr.join " " (PyStr.split (Extractor.content a)) = Extractor.content a) ∧
    Extractor.rate_limit_sleeps result.1 = 0 ∧
    Forall (λ u, u = link) (Extractor.requested result.1).
Proof.
  intros soup get retry_attempts source_name title_selector content_selector
    select_one_text find_text select_texts find_all_texts date_selector
    select_one_date strptime now min_content_length call link fetched result.
  split_and!.
  - intros Hnone. subst result. destruct fetched as [ftr page] eqn:Hf.
    simpl in Hnone. subst page. by apply extract_fetch_failed.
  - intros a Ha. destruct result as [tr r] eqn:Hres. simpl in Ha. subst r.
    apply extract_some in Hres
      as [(? & ? & ? & ? & ? & ?) (ftr & doc & warnings & Hf & -> & Hw)].
    subst fetched. rewrite Hf. split_and!; try done.
    exists warnings. split; [done|].
    eapply Forall_impl; [exact Hw|]. intros e He. destruct e; try discriminate He.
    by eexists.
  - apply extract_trace.
  - apply extract_trace.
Qed.

(** X18. A run of [fetch_articles].  When the main page cannot be
    fetched, no article is returned and only the main page was requested.
    Otherwise the articles come from the discovered links, in their
    order, one rate-limit sleep is made between consecutive links
    (links - 1 in all), and only the main page and the links are
    requested.  In every case the articles have distinct URLs that pass
    the validity rule, there are at most [max_articles] of them, and each
    has the source name, a non-empty title and a whitespace-normal
    content of at least [min_content_length] characters. *)
Theorem X18_fetch_articles_run :
  ∀ (soup : Type) (get : nat → string → nat → option soup) (retry_attempts : nat)
    (source_name base_url title_selector content_selector : string)
    (select_one_text find_text : string → soup → option (option string))
    (select_texts find_all_texts : string → soup → option (list string))
    (date_selector : string)
    (select_one_date : string → soup → option (option (option string * string)))
    (strptime : string → string → option Q)
    (now : nat → Q) (min_content_length : Z)
    (urljoin : string → string → option string)
    (urlparse : string → option (string * string)) (max_articles : nat)
    (select_links : soup → option (list (option string))),
    let main := Fetcher.fetch_page (get 0) retry_attempts base_url in
    let run :=
      Extractor.fetch_articles get retry_attempts source_name base_url
        title_selector content_selector select_one_text find_text select_texts
        find_all_texts date_selector select_one_date strptime now min_content_length
        urljoin urlparse max_articles select_links in
    (main.2 = None →
     run.2 = [] ∧ Extractor.rate_limit_sleeps run.1 = 0 ∧
     Forall (λ u, u = base_url) (Extractor.requested run.1)) ∧
    (∀ doc, main.2 = Some doc →
       let links :=
         LinkDiscovery.extract_article_links urljoin urlparse base_url max_articles
           (select_links doc) in
       Extractor.url <$> run.2 `sublist_of` links ∧
       Extractor.rate_limit_sleeps run.1 = length links - 1 ∧
       Forall (λ u, u = base_url ∨ u ∈ links) (Extractor.requested run.1)) ∧
    NoDup (Extractor.url <$> run.2) ∧
    length run.2 ≤ max_articles ∧
    ∀ a, a ∈ run.2 →
         LinkDiscovery._is_valid_article_url urlparse base_url (Extractor.url a) = true ∧
         Extractor.source a = source_name ∧
         Extractor.title a ≠ "" ∧
         Extractor.content a ≠ "" ∧
         (min_content_length ≤ Z.of_nat (PyStr.len (Extractor.content a)))%Z ∧
         PyStr.join " " (PyStr.split (Extractor.content a)) = Extractor.content a.
Proof.
  intros soup get retry_attempts source_name base_url title_selector content_selector
    select_one_text find_text select_texts find_all_texts date_selector
    select_one_date strptime now min_content_length urljoin urlparse max_articles
    select_links main run.
  subst run. unfold Extractor.fetch_articles. fold main.
  destruct main as [ftr [doc|]] eqn:Hmain; cbn [snd].
  2: { cbn [fst snd]. split_and!; [|done|constructor|simpl; lia|by intros a ?%elem_of_nil].
       intros _. split_and!; [done|by rewrite started_sleeps|].
       rewrite started_requested, Forall_app.
       split; [apply Forall_replicate; by intros|by apply Forall_nil]. }
  set (links := LinkDiscovery.extract_article_links urljoin urlparse base_url
                  max_articles (select_links doc)).
  destruct (visit_spec get retry_attempts source_name title_selector content_selector
              select_one_text find_text select_texts find_all_texts date_selector
              select_one_date strptime now min_content_length links 0
              ((Extractor.Started :: (Extractor.Fetching base_url <$> ftr))
                 ++ [Extractor.FoundLinks (length links)]) [])
    as (new & added & -> & Hsub & Hall & Hcount & Hreq).
  cbn [fst snd]. change (0 <? 0) with false in Hcount. cbv iota in Hcount.
  assert (NoDup (Extractor.url <$> new)) as Hnd
    by (eapply sublist_NoDup; [apply links_distinct|exact Hsub]).
  split_and!.
  - done.
  - intros d [= <-]. split_and!; [done| |].
    + rewrite <- !app_assoc, started_sleeps, !rate_limit_sleeps_app, Hcount.
      rewrite !rate_limit_sleeps_log by done. unfold links. lia.
    + rewrite <- !app_assoc, started_requested, !requested_app, !Forall_app.
      split_and!; [|by apply Forall_nil| |by apply Forall_nil].
      * apply Forall_replicate. by left.
      * eapply Forall_impl; [exact Hreq|]. intros u Hu. by right.
  - done.
  - apply sublist_length in Hsub. rewrite length_fmap in Hsub.
    etrans; [exact Hsub|]. apply links_capped.
  - intros a Ha. rewrite Forall_forall in Hall.
    destruct (Hall a Ha) as (_ & ? & ? & ? & ? & ?). split_and!; try done.
    apply (links_valid urljoin urlparse base_url max_articles (select_links doc)).
    apply (elem_of_sublist _ _ _ (list_elem_of_fmap_2 Extractor.url _ _ Ha) Hsub).
Qed.

Lemma X17_witness :
  let result :=
    Extractor.extract_article_content
      (λ _ _ k, if k <? 1 then None else Some "page") 3 "Example News" "h1" "p"
      (λ selector _, if String.eqb selector "h1" then Some (Some "Rates rise again")
                     else None)
      (λ _ _, Some None)
      (λ _ _, Some ["Advertisement"; "The central bank raised   rates again today."])
      (λ _ _, Some []) "time" (λ _ _, None) (λ _ _, None) (λ _, 0%Q) 30
      1 "https://example.com/news/story" in
  ∃ a, result.2 = Some a ∧
       Extractor.content a = "The central bank raised rates again today." ∧
       Extractor.url a = "https://example.com/news/story" ∧
       PyStr.join " " (PyStr.split (Extractor.content a)) = Extractor.content a ∧
       ∃ warnings,
         result.1 = (Extractor.Fetching "https://example.com/news/story"
                       <$> (Fetcher.fetch_page (λ _ k, if k <? 1 then None else Some "page")
                              3 "https://example.com/news/story").1) ++ warnings ∧
         Forall (λ e, ∃ what, e = Extractor.ExtractionWarning what) warnings.
Proof.
  intros result. eexists. split; [vm_compute; reflexivity|].
  split; [reflexivity|].
  destruct (X17_extract_article_content_sound string
              (λ _ _ k, if k <? 1 then None else Some "page") 3 "Example News" "h1" "p"
              (λ selector _, if String.eqb selector "h1"
                             then Some (Some "Rates rise again") else None)
              (λ _ _, Some None)
              (λ _ _, Some ["Advertisement";
                            "The central bank raised   rates again today."])
              (λ _ _, Some []) "time" (λ _ _, None) (λ _ _, None) (λ _, 0%Q) 30
              1 "https://example.com/news/story") as (_ & Hsome & _).
  destruct (Hsome _ ltac:(vm_compute; reflexivity))
    as (_ & Hw & Hurl & _ & _ & _ & _ & Hn).
  split; [exact Hurl|]. split; [exact Hn|exact Hw].
Defined.

Lemma X18_witness :
  let run :=
    Extractor.fetch_articles
      (λ _ _ _, Some "page") 3 "Example News" "https://example.com" "h1" "p"
      (λ _ _, Some (Some "Rates rise again")) (λ _ _, Some None)
      (λ _ _, Some ["The central bank raised   rates again today."])
      (λ _ _, Some []) "time" (λ _ _, Some None) (λ _ _, None) (λ _, 0%Q) 30
      LinkDiscovery.urljoin_absolute LinkDiscovery.urlparse_simple 5
      (λ _, Some [Some "https://example.com/news/a";
                  Some "https://example.com/news/b"]) in
  let links :=
    LinkDiscovery.extract_article_links LinkDiscovery.urljoin_absolute
      LinkDiscovery.urlparse_simple "https://example.com" 5
      (Some [Some "https://example.com/news/a"; Some "https://example.com/news/b"]) in
  Extractor.url <$> run.2 `sublist_of` links ∧
  Extractor.rate_limit_sleeps run.1 = length links - 1 ∧
  Forall (λ u, u = "https://example.com" ∨ u ∈ links) (Extractor.requested run.1).
Proof.
  intros run.
  destruct (X18_fetch_articles_run string
              (λ _ _ _, Some "page") 3 "Example News" "https://example.com" "h1" "p"
              (λ _ _, Some (Some "Rates rise again")) (λ _ _, Some None)
              (λ _ _, Some ["The central bank raised   rates again today."])
              (λ _ _, Some []) "time" (λ _ _, Some None) (λ _ _, None) (λ _, 0%Q) 30
              LinkDiscovery.urljoin_absolute LinkDiscovery.urlparse_simple 5
              (λ _, Some [Some "https://example.com/news/a";
                          Some "https://example.com/news/b"])) as (_ & Hsome & _).
  exact (Hsome "page" eq_refl).
Defined.
